(** * SparseMatrix (spmatrix.py): a shallow embedding and its properties

    The Python class [SparseMatrix] keeps its entries in a dict of dicts
    ([self.matrix[row][col] = value]) next to two attributes [numRows] and
    [numCols].  Dicts and instances are mutable objects that are reached
    through references, so the embedding keeps them in an explicit heap and
    every method is a computation in a state-and-exception monad over that
    heap and over the text files the class reads and writes.

    Modelling choices, all taken from the source:
    - Python integers are unbounded: [Z].
    - a dict is an insertion-ordered association list with unique keys
      (iteration order decides the order of the lines [save_to_file] writes
      and the order in which [multiply] visits cells);
    - the outer dict holds references to the inner dicts, an instance holds
      a reference to its outer dict;
    - a text file is the [str] Python reads from it, with code points below
      256 (a Rocq [string]); the interpreter's configurable limit on the
      number of digits of an integer literal is left out;
    - the file system tells which paths [open(path, 'w')] accepts; a file
      is identified with its path.

    The file has four parts: the methods of the class and the main block
    of the program, the vocabulary in which their properties are stated,
    the lemmas and theorems about the specification, and further
    properties of the methods and of the main block. *)

From Stdlib Require Import ZArith Ascii String DecimalString DecimalZ.
From stdpp Require Import base list list_numbers strings.

Local Open Scope Z_scope.

(** ** Python dicts with integer keys *)

Abbreviation dict V := (list (Z * V)) (only parsing).

(** [d.get(k)] *)
Fixpoint dict_get {V} (k : Z) (d : dict V) : option V :=
  match d with
  | [] => None
  | (k', v) :: d' => if Z.eqb k k' then Some v else dict_get k d'
  end.

(** [k in d] *)
Definition dict_mem {V} (k : Z) (d : dict V) : bool :=
  match dict_get k d with Some _ => true | None => false end.

(** [d[k] = v]: an existing key keeps its place, a new key goes last. *)
Fixpoint dict_set {V} (k : Z) (v : V) (d : dict V) : dict V :=
  match d with
  | [] => [(k, v)]
  | (k', v') :: d' =>
      if Z.eqb k k' then (k', v) :: d' else (k', v') :: dict_set k v d'
  end.

(** [list(d)]: the keys in iteration order. *)
Definition dict_keys {V} (d : dict V) : list Z := d.*1.

(** [range(n)] *)
Definition range (n : Z) : list Z := seqZ 0 n.

(** ** Objects, heap, files *)

(** A reference is the index of its object in the heap. *)
Abbreviation loc := nat (only parsing).

(** The attributes of a [SparseMatrix] instance; [None] is an attribute
    that has not been assigned yet. *)
Record instance : Type := Instance_ {
  numRows : option Z;
  numCols : option Z;
  matrix : option loc
}.

Inductive obj : Type :=
| RowDict (d : dict Z)        (* an inner dict {col: value} *)
| StoreDict (d : dict loc)    (* an outer dict {row: inner dict} *)
| Object (o : instance).      (* a SparseMatrix instance *)

(** The file system: the text of every file that can be read, and the
    paths that [open(path, 'w')] accepts (the directory exists, the target
    is no directory and may be written). *)
Record fsys : Type := Fsys {
  content :> string → option string;
  writable : string → bool
}.

Record world : Type := World {
  heap : list obj;
  files : fsys
}.

Inductive exn : Type :=
| IndexError                  (* list index out of range *)
| KeyError                    (* d[k] on a missing key *)
| InvalidLiteral              (* ValueError raised by int() *)
| FileNotFoundError           (* open() of a file that cannot be read *)
| OSError                     (* open() for writing refused by the file system *)
| AttributeError              (* read of an attribute that is not set *)
| BadObject                   (* a reference to no object of the expected kind *)
| WrongFormat (cause : exn)   (* ValueError("Input file has wrong format: ...") *)
| IncompatibleSizes.          (* ValueError("Matrix multiplication not possible ...") *)

(** ** The monad of methods *)

Inductive outcome (A : Type) : Type :=
| Ok (a : A) (w : world)
| Raise (e : exn) (w : world).
Arguments Ok {A} a w.
Arguments Raise {A} e w.

Definition M (A : Type) : Type := world → outcome A.

#[global] Instance M_ret : MRet M := λ A a w, Ok a w.
#[global] Instance M_bind : MBind M := λ A B f m w,
  match m w with
  | Ok a w' => f a w'
  | Raise e w' => Raise e w'
  end.

Definition raise {A} (e : exn) : M A := λ w, Raise e w.

(** [try: m  except Exception as e: h e] *)
Definition try_except {A} (m : M A) (h : exn → M A) : M A := λ w,
  match m w with
  | Ok a w' => Ok a w'
  | Raise e w' => h e w'
  end.

(** [for x in l: body x] *)
Fixpoint for_ {A} (l : list A) (body : A → M unit) : M unit :=
  match l with
  | [] => mret ()
  | x :: l' => body x;; for_ l' body
  end.

(** [sum(f k for k in l)] *)
Fixpoint sum_ (l : list Z) (f : Z → M Z) (acc : Z) : M Z :=
  match l with
  | [] => mret acc
  | k :: l' => v ← f k; sum_ l' f (acc + v)
  end.

(** Allocation of a new object. *)
Definition new (o : obj) : M loc := λ w,
  Ok (length (heap w)) (World (heap w ++ [o]) (files w)).

Definition load_obj (l : loc) : M obj := λ w,
  match heap w !! l with
  | Some o => Ok o w
  | None => Raise BadObject w
  end.

Definition store_obj (l : loc) (o : obj) : M unit := λ w,
  Ok () (World (<[l:=o]> (heap w)) (files w)).

Definition load_row (l : loc) : M (dict Z) :=
  o ← load_obj l;
  match o with RowDict d => mret d | _ => raise BadObject end.

Definition load_store (l : loc) : M (dict loc) :=
  o ← load_obj l;
  match o with StoreDict d => mret d | _ => raise BadObject end.

Definition load_instance (l : loc) : M instance :=
  o ← load_obj l;
  match o with Object i => mret i | _ => raise BadObject end.

(** [self.numRows], [self.numCols], [self.matrix] *)
Definition attr {A} (f : instance → option A) (self : loc) : M A :=
  i ← load_instance self;
  match f i with Some a => mret a | None => raise AttributeError end.

(** [self.numRows = v] and the like *)
Definition set_numRows (self : loc) (v : Z) : M unit :=
  i ← load_instance self;
  store_obj self (Object (Instance_ (Some v) (numCols i) (matrix i))).

Definition set_numCols (self : loc) (v : Z) : M unit :=
  i ← load_instance self;
  store_obj self (Object (Instance_ (numRows i) (Some v) (matrix i))).

Definition set_matrix (self : loc) (m : loc) : M unit :=
  i ← load_instance self;
  store_obj self (Object (Instance_ (numRows i) (numCols i) (Some m))).

(** ** Element access *)

(** [return self.matrix.get(row, {}).get(col, 0)].  The default [{}] is a
    temporary that nothing else can reach, so it is not allocated. *)
Definition get_element (self : loc) (row col : Z) : M Z :=
  m ← attr matrix self;
  d ← load_store m;
  match dict_get row d with
  | None => mret 0
  | Some r => rd ← load_row r; mret (default 0 (dict_get col rd))
  end.

(** [if row not in self.matrix: self.matrix[row] = {}]
    [self.matrix[row][col] = value] *)
Definition set_element (self : loc) (row col value : Z) : M unit :=
  m ← attr matrix self;
  d ← load_store m;
  (if dict_mem row d then mret ()
   else (r ← new (RowDict []);
         m ← attr matrix self;
         d ← load_store m;
         store_obj m (StoreDict (dict_set row r d))));;
  m ← attr matrix self;
  d ← load_store m;
  match dict_get row d with
  | None => raise KeyError
  | Some r => rd ← load_row r; store_obj r (RowDict (dict_set col value rd))
  end.

(** ** Text: the string methods and builtins the class calls *)

(** [c.isspace()], for code points below 256: what [str.strip()] removes. *)
Definition isspace (c : ascii) : bool :=
  let n := N_of_ascii c in
  ((9 <=? n) && (n <=? 13) || (28 <=? n) && (n <=? 32)
   || (n =? 133) || (n =? 160))%N.

(** The white space [int()] skips around a literal. *)
Definition int_space (c : ascii) : bool :=
  let n := N_of_ascii c in
  ((9 <=? n) && (n <=? 13) || (n =? 32) || (n =? 133) || (n =? 160))%N.

Fixpoint lstrip_by (sp : ascii → bool) (s : string) : string :=
  match s with
  | "" => ""
  | String c s' => if sp c then lstrip_by sp s' else s
  end.

Fixpoint rstrip_by (sp : ascii → bool) (s : string) : string :=
  match s with
  | "" => ""
  | String c s' =>
      match rstrip_by sp s' with
      | "" => if sp c then "" else String c ""
      | r => String c r
      end
  end.

(** [s.strip()] *)
Definition strip (s : string) : string := rstrip_by isspace (lstrip_by isspace s).

(** [s.split(sep)] for a one-character separator. *)
Fixpoint split (sep : ascii) (s : string) : list string :=
  match s with
  | "" => [""]
  | String c s' =>
      if Ascii.eqb c sep then "" :: split sep s'
      else match split sep s' with
           | [] => [String c ""]
           | x :: xs => String c x :: xs
           end
  end.

Fixpoint drop_last (s : string) : string :=
  match s with
  | "" => ""
  | String c "" => ""
  | String c s' => String c (drop_last s')
  end.

(** [s[1:-1]] *)
Definition slice_1_m1 (s : string) : string :=
  match s with
  | "" => ""
  | String _ s' => drop_last s'
  end.

Definition digit_of (c : ascii) : option Z :=
  let n := N_of_ascii c in
  if ((48 <=? n) && (n <=? 57))%N then Some (Z.of_N (n - 48)) else None.

(** The digits of a literal: digits with single underscores between them.
    [prev] tells whether the character before was a digit. *)
Fixpoint int_digits (prev : bool) (acc : Z) (s : string) : option Z :=
  match s with
  | "" => if prev then Some acc else None
  | String c s' =>
      match digit_of c with
      | Some v => int_digits true (10 * acc + v) s'
      | None =>
          if Ascii.eqb c "_" then
            if prev then int_digits false acc s' else None
          else None
      end
  end.

(** [int(s)] in base 10; [None] is the [ValueError] of an invalid literal. *)
Definition int (s : string) : option Z :=
  match rstrip_by int_space (lstrip_by int_space s) with
  | String "-" s' => Z.opp <$> int_digits false 0 s'
  | String "+" s' => int_digits false 0 s'
  | s' => int_digits false 0 s'
  end.

(** [str(z)] *)
Definition str (z : Z) : string := NilZero.string_of_int (Z.to_int z).

(** The lines of a text the way [readline] and [for line in file] give
    them: each line keeps its newline. *)
Fixpoint readlines (s : string) : list string :=
  match s with
  | "" => []
  | String c s' =>
      if Ascii.eqb c "010" then String c "" :: readlines s'
      else match readlines s' with
           | [] => [String c ""]
           | l :: ls => String c l :: ls
           end
  end.

(** [file.readline()] on an open file whose remaining lines are [ls]:
    the empty string at the end of the file. *)
Definition readline (ls : list string) : string * list string :=
  match ls with
  | [] => ("", [])
  | l :: ls' => (l, ls')
  end.

(** [open(file_path, 'r')] *)
Definition open_r (file_path : string) : M (list string) := λ w,
  match files w file_path with
  | Some text => Ok (readlines text) w
  | None => Raise FileNotFoundError w
  end.

(** [open(file_path, 'w')]: the file is created or emptied.  The empty
    path is never accepted, and no other path that the file system refuses
    (a missing directory, a directory as target, no permission): [open]
    then raises an [OSError] and nothing is created. *)
Definition open_w (file_path : string) : M unit := λ w,
  match file_path with
  | "" => Raise OSError w
  | _ =>
      if writable (files w) file_path then
        Ok () (World (heap w)
                 (Fsys (λ p, if String.eqb p file_path then Some ""
                             else files w p)
                       (writable (files w))))
      else Raise OSError w
  end.

(** [file.write(text)] on the file opened at [file_path]. *)
Definition write (file_path : string) (text : string) : M unit := λ w,
  Ok () (World (heap w)
           (Fsys (λ p, if String.eqb p file_path
                       then Some (default "" (files w p) +:+ text)
                       else files w p)
                 (writable (files w)))).

(** [int(...)] and [xs[i]] as computations. *)
Definition int_ (s : string) : M Z :=
  match int s with Some z => mret z | None => raise InvalidLiteral end.

Definition index {A} (xs : list A) (i : nat) : M A :=
  match xs !! i with Some x => mret x | None => raise IndexError end.

(** ** Construction *)

(** [entry = line.strip()[1:-1].split(',')]
    [return int(entry[0]), int(entry[1]), int(entry[2])] *)
Definition parse_entry (line : string) : M (Z * Z * Z) :=
  let entry := split "," (slice_1_m1 (strip line)) in
  e0 ← index entry 0; row ← int_ e0;
  e1 ← index entry 1; col ← int_ e1;
  e2 ← index entry 2; value ← int_ e2;
  mret (row, col, value).

(** The body of the loop over the data lines of [load_matrix]. *)
Definition load_line (matrix : loc) (line : string) : M unit :=
  match strip line with
  | "" => mret ()
  | _ =>
    '(row, col, value) ← parse_entry line;
    d ← load_store matrix;
    (if dict_mem row d then mret ()
     else (r ← new (RowDict []);
           d ← load_store matrix;
           store_obj matrix (StoreDict (dict_set row r d))));;
    d ← load_store matrix;
    match dict_get row d with
    | None => raise KeyError
    | Some r => rd ← load_row r; store_obj r (RowDict (dict_set col value rd))
    end
  end.

Definition load_matrix (self : loc) (file_path : string) : M loc :=
  matrix ← new (StoreDict []);
  try_except
    (file ← open_r file_path;
     let (l1, file) := readline file in
     f1 ← index (split "=" l1) 1; rows ← int_ f1;
     let (l2, file) := readline file in
     f2 ← index (split "=" l2) 1; cols ← int_ f2;
     set_numRows self rows;;
     set_numCols self cols;;
     for_ file (load_line matrix))
    (λ e, raise (WrongFormat e));;
  mret matrix.

(** [self.matrix.get(0, {}).get(col, 0)], as [__init__] reads it. *)
Definition matrix_get_0 (self : loc) (col : Z) : M Z :=
  m ← attr matrix self;
  d ← load_store m;
  match dict_get 0 d with
  | None => mret 0%Z
  | Some r => rd ← load_row r; mret (default 0%Z (dict_get col rd))
  end.

(** [if matrix_file:] holds for a path that is given and not empty.  In
    the other mode the callers of this class pass integers. *)
Definition __init__ (self : loc) (matrix_file : option string)
    (numRows numCols : Z) : M unit :=
  match matrix_file with
  | Some (String c p) =>
      m ← load_matrix self (String c p);
      set_matrix self m;;
      r ← matrix_get_0 self 0; set_numRows self r;;
      c ← matrix_get_0 self 1; set_numCols self c
  | _ =>
      m ← new (StoreDict []);
      set_matrix self m;;
      set_numRows self numRows;;
      set_numCols self numCols
  end.

(** The call [SparseMatrix(matrix_file, numRows, numCols)]: a new instance
    without attributes, initialised by [__init__]. *)
Definition SparseMatrix (matrix_file : option string)
    (numRows numCols : Z) : M loc :=
  self ← new (Object (Instance_ None None None));
  __init__ self matrix_file numRows numCols;;
  mret self.

(** ** Arithmetic *)

Local Open Scope Z_scope.

(** [result = SparseMatrix(numRows=self.numRows, numCols=self.numCols)]
    [for row in range(self.numRows):]
    [  for col in range(self.numCols):]
    [    result.set_element(row, col, self.get_element(row, col)]
    [                                 + other_matrix.get_element(row, col))]
    [return result] *)
Definition add (self other_matrix : loc) : M loc :=
  nr ← attr numRows self;
  nc ← attr numCols self;
  result ← SparseMatrix None nr nc;
  (nr ← attr numRows self;
   for_ (range nr) (λ row,
     nc ← attr numCols self;
     for_ (range nc) (λ col,
       a ← get_element self row col;
       b ← get_element other_matrix row col;
       set_element result row col (a + b))));;
  mret result.

Definition subtract (self other_matrix : loc) : M loc :=
  nr ← attr numRows self;
  nc ← attr numCols self;
  result ← SparseMatrix None nr nc;
  (nr ← attr numRows self;
   for_ (range nr) (λ row,
     nc ← attr numCols self;
     for_ (range nc) (λ col,
       a ← get_element self row col;
       b ← get_element other_matrix row col;
       set_element result row col (a - b))));;
  mret result.

(** [col in self.matrix[row]] *)
Definition row_has (self : loc) (row col : Z) : M bool :=
  m ← attr matrix self;
  d ← load_store m;
  match dict_get row d with
  | None => raise KeyError
  | Some r => rd ← load_row r; mret (dict_mem col rd)
  end.

(** [list(self.matrix)]: the keys a loop over [self.matrix] visits.  The
    loops of this class never change the dict they run over. *)
Definition matrix_keys (self : loc) : M (list Z) :=
  m ← attr matrix self;
  d ← load_store m;
  mret (dict_keys d).

(** [if self.numCols != other_matrix.numRows: raise ValueError(...)]
    [result = SparseMatrix(numRows=self.numRows, numCols=other_matrix.numCols)]
    [for row in self.matrix:]
    [  for col in other_matrix.matrix:]
    [    if col in self.matrix[row]:]
    [      result.set_element(row, col,]
    [        sum(self.get_element(row, k) * other_matrix.get_element(k, col)]
    [            for k in range(self.numCols)))]
    [return result] *)
Definition multiply (self other_matrix : loc) : M loc :=
  nc ← attr numCols self;
  onr ← attr numRows other_matrix;
  if bool_decide (nc ≠ onr) then raise IncompatibleSizes
  else
    nr ← attr numRows self;
    onc ← attr numCols other_matrix;
    result ← SparseMatrix None nr onc;
    rows ← matrix_keys self;
    for_ rows (λ row,
      cols ← matrix_keys other_matrix;
      for_ cols (λ col,
        b ← row_has self row col;
        if (b : bool) then
          nc ← attr numCols self;
          s ← sum_ (range nc) (λ k,
                 a ← get_element self row k;
                 b ← get_element other_matrix k col;
                 mret (a * b)) 0;
          set_element result row col s
        else mret ()));;
    mret result.

(** ** Saving *)

(** The items of [self.matrix[row]]. *)
Definition row_items (self : loc) (row : Z) : M (dict Z) :=
  m ← attr matrix self;
  d ← load_store m;
  match dict_get row d with
  | None => raise KeyError
  | Some r => load_row r
  end.

(** [f"({row}, {col}, {value})\n"] *)
Definition entry_line (row col value : Z) : string :=
  "(" +:+ str row +:+ ", " +:+ str col +:+ ", " +:+ str value +:+ ")" +:+ "
".

(** [with open(file_path, 'w') as file:]
    [  file.write(f"rows={self.numRows}\n")]
    [  file.write(f"cols={self.numCols}\n")]
    [  for row in self.matrix:]
    [    for col, value in self.matrix[row].items():]
    [      file.write(f"({row}, {col}, {value})\n")] *)
Definition save_to_file (self : loc) (file_path : string) : M unit :=
  open_w file_path;;
  nr ← attr numRows self;
  write file_path ("rows=" +:+ str nr +:+ "
");;
  nc ← attr numCols self;
  write file_path ("cols=" +:+ str nc +:+ "
");;
  rows ← matrix_keys self;
  for_ rows (λ row,
    items ← row_items self row;
    for_ items (λ '(col, value), write file_path (entry_line row col value))).

(** ** The main block *)

(** How a run of the program ends when it does not reach its last line. *)
Inductive crash : Type :=
| Uncaught (e : exn)   (* an exception of the class or of int() *)
| EOFError             (* input() when no line is left *)
| NameError.           (* [result] is read and was never assigned *)

(** A run of the program: what it printed, how it ended ([None] for the
    normal end) and the world it left. *)
Record run : Type := Run {
  printed : string;
  ending : option crash;
  final : world
}.

(** The four calls of [print] before the first [input]. *)
Definition menu : string := "Select a matrix operation:
1. Matrix Addition
2. Matrix Subtraction
3. Matrix Multiplication
".

Definition choice_prompt : string := "Enter your choice (1/2/3): ".

Definition invalid_message : string := "Invalid input. Please select 1, 2, or 3.
".

Definition path_prompt : string :=
  "Please provide the file path where you'd like to save the result: ".

(** The branch the choice selects: the method to call and the line to
    print after it; [None] in the [else] branch, which leaves [result]
    unassigned. *)
Definition operation (choice : Z) (matrix1 matrix2 : loc)
    : option (M loc * string) :=
  if choice =? 1 then
    Some (add matrix1 matrix2, "The matrices have been successfully added!
")
  else if choice =? 2 then
    Some (subtract matrix1 matrix2, "The matrices have been successfully subtracted!
")
  else if choice =? 3 then
    Some (multiply matrix1 matrix2, "The matrices have been successfully multiplied!
")
  else None.

(** The block under [if __name__ == "__main__":].  [stdin] holds the lines
    the user types, without their newlines, as [input] returns them; an
    exception nobody catches ends the program. *)
Definition main (stdin : list string) (w : world) : run :=
  match SparseMatrix (Some "./easy_sample_02_3.txt") 0 0 w with
  | Raise e w => Run "" (Some (Uncaught e)) w
  | Ok matrix1 w =>
  match SparseMatrix (Some "./easy_sample_03_2.txt") 0 0 w with
  | Raise e w => Run "" (Some (Uncaught e)) w
  | Ok matrix2 w =>
  let out := menu +:+ choice_prompt in
  match stdin with
  | [] => Run out (Some EOFError) w
  | line :: stdin =>
  match int line with
  | None => Run out (Some (Uncaught InvalidLiteral)) w
  | Some choice =>
  match operation choice matrix1 matrix2 with
  | None =>
      let out := out +:+ invalid_message +:+ path_prompt in
      match stdin with
      | [] => Run out (Some EOFError) w
      | output_file :: _ => Run out (Some NameError) w
      end
  | Some (method, message) =>
      match method w with
      | Raise e w => Run out (Some (Uncaught e)) w
      | Ok result w =>
          let out := out +:+ message +:+ path_prompt in
          match stdin with
          | [] => Run out (Some EOFError) w
          | output_file :: _ =>
              match save_to_file result output_file w with
              | Raise e w => Run out (Some (Uncaught e)) w
              | Ok _ w => Run out None w
              end
          end
      end
  end
  end
  end
  end
  end.

(** * The vocabulary of the properties *)

(** ** Views of a heap *)

(** The outer dict of the instance at [self]. *)
Definition store_of (h : list obj) (self : loc) : option (dict loc) :=
  match h !! self with
  | Some (Object i) =>
      match matrix i with
      | Some m => match h !! m with Some (StoreDict d) => Some d | _ => None end
      | None => None
      end
  | _ => None
  end.

Definition row_of (h : list obj) (r : loc) : option (dict Z) :=
  match h !! r with Some (RowDict rd) => Some rd | _ => None end.

(** The value an outer dict [d] holds at a position. *)
Definition store_cell (h : list obj) (d : dict loc) (row col : Z) : option Z :=
  r ← dict_get row d; rd ← row_of h r; dict_get col rd.

(** The value stored at a position, [None] when the position has no entry. *)
Definition cell (h : list obj) (self : loc) (row col : Z) : option Z :=
  d ← store_of h self; store_cell h d row col.

(** The logical value at a position: absent entries read as zero. *)
Definition value_at (h : list obj) (self : loc) (row col : Z) : Z :=
  default 0 (cell h self row col).

(** The dimensions held by the instance. *)
Definition dims (h : list obj) (self : loc) : option (Z * Z) :=
  match h !! self with
  | Some (Object i) => nr ← numRows i; nc ← numCols i; Some (nr, nc)
  | _ => None
  end.

(** All stored entries [(row, col, value)], in iteration order. *)
Definition entries (h : list obj) (self : loc) : list (Z * Z * Z) :=
  d ← default [] (store_of h self);
  (λ cv, (d.1, cv.1, cv.2)) <$> default [] (row_of h d.2).

(** The keys of the outer dict of an instance: the rows that have a dict. *)
Definition row_keys (h : list obj) (self : loc) : list Z :=
  dict_keys (default [] (store_of h self)).

(** [sum(a.get_element(i, k) * b.get_element(k, j) for k in range(n))] *)
Definition dot (h : list obj) (a b : loc) (i j n : Z) : Z :=
  foldr Z.add 0 ((λ k, value_at h a i k * value_at h b k j) <$> range n).

(** The locations an instance owns: itself, its outer dict, its rows. *)
Definition footprint (h : list obj) (self : loc) : list loc :=
  match h !! self with
  | Some (Object i) =>
      match matrix i with
      | Some m => self :: m :: (default [] (store_of h self)).*2
      | None => [self]
      end
  | _ => []
  end.

Definition wf_row (h : list obj) (r : loc) : bool :=
  match row_of h r with
  | Some rd => bool_decide (NoDup rd.*1)
  | None => false
  end.

(** A fully initialised instance: its attributes are set, its outer dict
    exists and maps its keys to distinct inner dicts, and no dict has a key
    twice. *)
Definition wf (h : list obj) (self : loc) : bool :=
  match dims h self, store_of h self with
  | Some _, Some d =>
      forallb (wf_row h) d.*2 && bool_decide (NoDup d.*2)
      && bool_decide (NoDup d.*1)
  | _, _ => false
  end.

(** ** The heap after an update *)

(** The heap after [self.set_element(row, col, v)], for an instance whose
    outer dict [d] lives at [m]: the row's dict is updated in place, or a
    new row dict is allocated and entered last in the outer dict. *)
Definition set_cell_heap (h : list obj) (m : loc) (d : dict loc)
    (row col v : Z) : list obj :=
  match dict_get row d with
  | Some r => <[r := RowDict (dict_set col v (default [] (row_of h r)))]> h
  | None =>
      <[m := StoreDict (dict_set row (length h) d)]> h ++ [RowDict [(col, v)]]
  end.

(** The outer dict after [set_element]. *)
Definition set_cell_store (h : list obj) (d : dict loc) (row : Z) : dict loc :=
  match dict_get row d with
  | Some _ => d
  | None => dict_set row (length h) d
  end.

(** The two objects [SparseMatrix(numRows=nr, numCols=nc)] allocates. *)
Definition fresh_matrix (h : list obj) (nr nc : Z) : list obj :=
  [Object (Instance_ (Some nr) (Some nc) (Some (S (length h)))); StoreDict []].

(** The loop nest that [add] and [subtract] share, up to the operator. *)
Definition grid (op : Z → Z → Z) (self other_matrix result : loc) : M unit :=
  nr ← attr numRows self;
  for_ (range nr) (λ row,
    nc ← attr numCols self;
    for_ (range nc) (λ col,
      a ← get_element self row col;
      b ← get_element other_matrix row col;
      set_element result row col (op a b))).

(** The value the loop nest puts at a position. *)
Definition grid_value (op : Z → Z → Z) (h0 : list obj)
    (self other_matrix : loc) (i j : Z) : Z :=
  op (value_at h0 self i j) (value_at h0 other_matrix i j).

(** ** Invariants and frames *)

(** A well-formed outer dict [d] at [m]: its values are distinct inner
    dicts, and no dict has a key twice. *)
Record wf_store_at (h : list obj) (m : loc) (d : dict loc) : Prop := {
  st_store : h !! m = Some (StoreDict d);
  st_rows : ∀ r, r ∈ d.*2 → ∃ rd, h !! r = Some (RowDict rd) ∧ NoDup rd.*1;
  st_distinct : NoDup d.*2;
  st_keys : NoDup d.*1
}.
Arguments st_store {h m d}.
Arguments st_rows {h m d}.
Arguments st_distinct {h m d}.
Arguments st_keys {h m d}.

(** What [wf] says, unfolded. *)
Record wf_at (h : list obj) (self : loc) (nr nc : Z) (m : loc)
    (d : dict loc) : Prop := {
  wf_self : h !! self = Some (Object (Instance_ (Some nr) (Some nc) (Some m)));
  wf_store : h !! m = Some (StoreDict d);
  wf_rows : ∀ r, r ∈ d.*2 → ∃ rd, h !! r = Some (RowDict rd) ∧ NoDup rd.*1;
  wf_distinct : NoDup d.*2;
  wf_keys : NoDup d.*1
}.
Arguments wf_self {h self nr nc m d}.
Arguments wf_store {h self nr nc m d}.
Arguments wf_rows {h self nr nc m d}.
Arguments wf_distinct {h self nr nc m d}.
Arguments wf_keys {h self nr nc m d}.

(** [h] keeps every object of [h0] as it was. *)
Definition keeps (h0 h : list obj) : Prop :=
  ∀ l, (l < length h0)%nat → h !! l = h0 !! l.

(** The instance at [result] was built after [h0]: everything it owns lies
    beyond [h0], and [h0] is kept. *)
Record owned (h0 h : list obj) (result : loc) (nr nc : Z) (m : loc)
    (d : dict loc) : Prop := {
  own_keeps : keeps h0 h;
  own_wf : wf_at h result nr nc m d;
  own_self : (length h0 ≤ result)%nat;
  own_store : (length h0 ≤ m)%nat;
  own_rows : ∀ r, r ∈ d.*2 → (length h0 ≤ r)%nat
}.
Arguments own_keeps {h0 h result nr nc m d}.
Arguments own_wf {h0 h result nr nc m d}.
Arguments own_self {h0 h result nr nc m d}.
Arguments own_store {h0 h result nr nc m d}.
Arguments own_rows {h0 h result nr nc m d}.

(** The instance at [self] is under construction on top of [hb]: its outer
    dict and its rows were allocated after [hb], and [hb] is kept. *)
Record loading (hb h : list obj) (self : loc) (i : instance) (m : loc)
    (d : dict loc) : Prop := {
  ld_keeps : keeps hb h;
  ld_self : h !! self = Some (Object i);
  ld_st : wf_store_at h m d;
  ld_self_new : (length hb ≤ self)%nat;
  ld_store_new : (length hb ≤ m)%nat;
  ld_rows_new : ∀ r, r ∈ d.*2 → (length hb ≤ r)%nat
}.
Arguments ld_keeps {hb h self i m d}.
Arguments ld_self {hb h self i m d}.
Arguments ld_st {hb h self i m d}.
Arguments ld_self_new {hb h self i m d}.
Arguments ld_store_new {hb h self i m d}.
Arguments ld_rows_new {hb h self i m d}.

(** An outer dict [d] at [m] is under construction on top of [hb]: it and
    its rows were allocated after [hb], and [hb] is kept. *)
Record building (hb h : list obj) (m : loc) (d : dict loc) : Prop := {
  bd_keeps : keeps hb h;
  bd_st : wf_store_at h m d;
  bd_store_new : (length hb ≤ m)%nat;
  bd_rows_new : ∀ r, r ∈ d.*2 → (length hb ≤ r)%nat
}.
Arguments bd_keeps {hb h m d}.
Arguments bd_st {hb h m d}.
Arguments bd_store_new {hb h m d}.
Arguments bd_rows_new {hb h m d}.

(** The positions in [P] hold the values [f], no other position is stored. *)
Definition filled (h : list obj) (result : loc) (P : Z → Z → Prop)
    (f : Z → Z → Z) : Prop :=
  ∀ i j, (P i j → cell h result i j = Some (f i j))
         ∧ (¬ P i j → cell h result i j = None).

(** The instance at [a], with its dimensions, its entries and every object
    it owns, is in [w'] what it was in [w]. *)
Definition unchanged (w w' : world) (a : loc) : Prop :=
  dims (heap w') a = dims (heap w) a
  ∧ entries (heap w') a = entries (heap w) a
  ∧ footprint (heap w') a = footprint (heap w) a
  ∧ ∀ l, l ∈ footprint (heap w) a → heap w' !! l = heap w !! l.

(** What an arithmetic method may do to operands [a] and [b]: when it
    returns, the result is a well-formed instance that did not exist in [w]
    and owns only objects that did not exist in [w], so none of an operand;
    every object of [w] is kept, the files are kept; when it raises, the
    world is the one it was called in. *)
Definition result_is_new (w : world) (a b : loc) (o : outcome loc) : Prop :=
  match o with
  | Ok res w' =>
      take (length (heap w)) (heap w') = heap w
      ∧ files w' = files w
      ∧ heap w !! res = None
      ∧ wf (heap w') res = true
      ∧ (∀ l, l ∈ footprint (heap w') res →
           (heap w !! l = None)
           ∧ (l ∉ footprint (heap w') a) ∧ (l ∉ footprint (heap w') b))
      ∧ unchanged w w' a
      ∧ unchanged w w' b
  | Raise _ w' => w' = w
  end.

(** [m] raises in [w]. *)
Definition raises {A} (m : M A) (w : world) : Prop := ∃ e w', m w = Raise e w'.

(** ** Text files *)

(** The fields of a data line, as [parse_entry] cuts them. *)
Definition entry_fields (line : string) : list string :=
  split "," (slice_1_m1 (strip line)).

(** A header line that [load_matrix] cannot read: it has no ['='], or the
    text after the first ['='] (up to the next one) is no integer. *)
Definition bad_header (line : string) : Prop :=
  ∀ f, split "=" line !! 1%nat = Some f → int f = None.

(** A data line that [load_matrix] cannot read: it is not blank, and one of
    its first three fields is missing or is no integer. *)
Definition bad_entry (line : string) : Prop :=
  strip line ≠ ""
  ∧ ∃ i, (i < 3)%nat ∧ ∀ f, entry_fields line !! i = Some f → int f = None.

(** A text that [load_matrix] cannot read.  A missing line reads as the
    empty string. *)
Definition bad_text (text : string) : Prop :=
  let ls := readlines text in
  bad_header (default "" (ls !! 0%nat))
  ∨ bad_header (default "" (ls !! 1%nat))
  ∨ ∃ line, line ∈ drop 2 ls ∧ bad_entry line.

(** [int(fields[i])]: the integer, or the exception. *)
Definition field_int (fields : list string) (i : nat) : exn + Z :=
  match fields !! i with
  | None => inl IndexError
  | Some f => match int f with None => inl InvalidLiteral | Some z => inr z end
  end.

(** What a header line gives: [int(line.split('=')[1])]. *)
Definition header_value (line : string) : exn + Z :=
  field_int (split "=" line) 1.

(** What [parse_entry] gives on a line. *)
Definition entry_value (line : string) : exn + Z * Z * Z :=
  let entry := entry_fields line in
  match field_int entry 0 with
  | inl e => inl e
  | inr row =>
      match field_int entry 1 with
      | inl e => inl e
      | inr col =>
          match field_int entry 2 with
          | inl e => inl e
          | inr value => inr (row, col, value)
          end
      end
  end.

(** What the loop over the data lines does: the exception that ends it, if
    one does, and the heap and the outer dict it leaves. *)
Fixpoint load_lines (h : list obj) (m : loc) (d : dict loc)
    (ls : list string) : option exn * (list obj * dict loc) :=
  match ls with
  | [] => (None, (h, d))
  | line :: ls' =>
      match strip line with
      | "" => load_lines h m d ls'
      | _ =>
          match entry_value line with
          | inr (row, col, v) =>
              load_lines (set_cell_heap h m d row col v) m
                (set_cell_store h d row) ls'
          | inl e => (Some e, (h, d))
          end
      end
  end.

(** A data line that [load_matrix] reads: it is blank or gives three
    integers. *)
Definition good_entry (line : string) : Prop :=
  strip line = "" ∨ ∃ t, entry_value line = inr t.

(** A text that [load_matrix] reads: both header lines give an integer and
    every data line is good. *)
Definition readable (text : string) : Prop :=
  let ls := readlines text in
  (∃ rows, header_value (default "" (ls !! 0%nat)) = inr rows)
  ∧ (∃ cols, header_value (default "" (ls !! 1%nat)) = inr cols)
  ∧ Forall good_entry (drop 2 ls).

(** Every character of [s] satisfies [p]. *)
Fixpoint string_forall (p : ascii → bool) (s : string) : bool :=
  match s with
  | "" => true
  | String c s' => p c && string_forall p s'
  end.

(** The characters of a printed integer. *)
Definition num_char (c : ascii) : bool :=
  match digit_of c with Some _ => true | None => Ascii.eqb c "-" end.

(** The value of the digits [u] read after [acc]. *)
Fixpoint uint_acc (u : Decimal.uint) (acc : Z) : Z :=
  match u with
  | Decimal.Nil => acc
  | Decimal.D0 u' => uint_acc u' (10 * acc + 0)
  | Decimal.D1 u' => uint_acc u' (10 * acc + 1)
  | Decimal.D2 u' => uint_acc u' (10 * acc + 2)
  | Decimal.D3 u' => uint_acc u' (10 * acc + 3)
  | Decimal.D4 u' => uint_acc u' (10 * acc + 4)
  | Decimal.D5 u' => uint_acc u' (10 * acc + 5)
  | Decimal.D6 u' => uint_acc u' (10 * acc + 6)
  | Decimal.D7 u' => uint_acc u' (10 * acc + 7)
  | Decimal.D8 u' => uint_acc u' (10 * acc + 8)
  | Decimal.D9 u' => uint_acc u' (10 * acc + 9)
  end.

(** The texts [f x] for the elements of [l], one after the other. *)
Definition concat_map {A} (f : A → string) (l : list A) : string :=
  foldr (λ x acc, f x +:+ acc) "" l.

(** From [w] to [w'] the text [txt] was appended to the file at [path], and
    nothing else changed. *)
Definition appended (path txt : string) (w w' : world) : Prop :=
  heap w' = heap w
  ∧ files w' path = Some (default "" (files w path) +:+ txt)
  ∧ (∀ p, p ≠ path → files w' p = files w p)
  ∧ writable (files w') = writable (files w).

(** The entries of one row, in the order of its dict. *)
Definition row_entries (h : list obj) (d : dict loc) (row : Z)
    : list (Z * Z * Z) :=
  match dict_get row d with
  | Some r => (λ cv, (row, cv.1, cv.2)) <$> default [] (row_of h r)
  | None => []
  end.

(** The line [save_to_file] writes for an entry. *)
Definition entry_text (e : Z * Z * Z) : string := entry_line e.1.1 e.1.2 e.2.

(** The text between the parentheses of a written entry. *)
Definition entry_body (row col value : Z) : string :=
  str row +:+ String "," (String " " (str col +:+ String "," (String " " (str value)))).

(** The value the last of the entries [es] gives to a position. *)
Fixpoint last_write (es : list (Z * Z * Z)) (row col : Z) : option Z :=
  match es with
  | [] => None
  | (r, c, v) :: es' =>
      match last_write es' row col with
      | Some x => Some x
      | None => if Z.eqb r row && Z.eqb c col then Some v else None
      end
  end.

(** The entries the data lines of a file give, in the order of the lines;
    blank lines give none. *)
Definition data_entries (ls : list string) : list (Z * Z * Z) :=
  ls ≫= λ line,
    match strip line with
    | "" => []
    | _ => match entry_value line with inr t => [t] | inl _ => [] end
    end.

(** A file with the header keys [k1] and [k2], the header values [nr] and
    [nc], and one line for each of the entries [es]. *)
Definition file_text (k1 k2 : string) (nr nc : Z) (es : list (Z * Z * Z))
    : string :=
  (k1 +:+ String "=" (str nr +:+ String "010" ""))
  +:+ (k2 +:+ String "=" (str nc +:+ String "010" ""))
  +:+ concat_map entry_text es.

(** No ['='] and no newline in a header key. *)
Definition plain_key (k : string) : bool :=
  string_forall (λ c, negb (Ascii.eqb c "=") && negb (Ascii.eqb c "010")) k.

(** ** Test worlds *)

(** A test world without files, where every path may be written: a 2x2
    instance at 0 with four entries, a 2x2 instance at 4 with two entries,
    an empty 3x2 instance at 8. *)
Definition demo : world :=
  World [Object (Instance_ (Some 2) (Some 2) (Some 1%nat));
         StoreDict [(0, 2%nat); (1, 3%nat)];
         RowDict [(0, 1); (1, 2)];
         RowDict [(0, 3); (1, 4)];
         Object (Instance_ (Some 2) (Some 2) (Some 5%nat));
         StoreDict [(0, 6%nat); (1, 7%nat)];
         RowDict [(0, 5)];
         RowDict [(1, 6)];
         Object (Instance_ (Some 3) (Some 2) (Some 9%nat));
         StoreDict []]
        (Fsys (λ _, None) (λ _, true)).

(** The file loaded as [A] in the scenario of the specification. *)
Definition file_A : string := "rows=2
cols=2
(0,0,1)
(0,1,2)
(1,0,3)
(1,1,4)
".

(** The file loaded as [B]. *)
Definition file_B : string := "rows=2
cols=2
(0,0,5)
(1,1,6)
".

(** A world with no objects and the two files of the scenario. *)
Definition scenario : world :=
  World [] (Fsys (λ p, if String.eqb p "A.txt" then Some file_A
                       else if String.eqb p "B.txt" then Some file_B else None)
                 (λ _, true)).

(** [A = SparseMatrix("A.txt"); B = SparseMatrix("B.txt")] *)
Definition load_A_B : M (loc * loc) :=
  a ← SparseMatrix (Some "A.txt") 0 0;
  b ← SparseMatrix (Some "B.txt") 0 0;
  mret (a, b).

(** A 2x2 matrix with two non-zero entries, saved and constructed again
    from the saved file. *)
Definition save_and_reload : M (loc * loc) :=
  m ← SparseMatrix None 2 2;
  set_element m 0 0 7;;
  set_element m 1 1 3;;
  save_to_file m "out.txt";;
  m' ← SparseMatrix (Some "out.txt") 0 0;
  mret (m, m').

(** A data line with four fields. *)
Definition file_four : string := "rows=2
cols=2
(1,2,3,4)
".

(** A data line with two fields. *)
Definition file_two : string := "rows=2
cols=2
(1,2)
".

(** A world with no objects and these two files. *)
Definition malformed : world :=
  World [] (Fsys (λ p, if String.eqb p "four.txt" then Some file_four
                       else if String.eqb p "two.txt" then Some file_two
                       else None)
                 (λ _, true)).

(** Two lines for one position and a blank line between them. *)
Definition file_twice : string := "rows=3
cols=3
(0, 1, 5)

(0, 1, 8)
".

(** A file whose header lines have other keys, one of them empty. *)
Definition file_odd : string :=
  file_text "height" "" 7 (-1) [(0, 0, 4); (0, 1, 6); (2, 5, -3)].

(** The objects of [demo] next to three files; there is no directory
    [nodir], so that nothing can be written at [nodir/out.txt]. *)
Definition shelf : world :=
  World (heap demo)
    (Fsys (λ p, if String.eqb p "twice.txt" then Some file_twice
                else if String.eqb p "odd.txt" then Some file_odd
                else if String.eqb p "two.txt" then Some file_two else None)
          (λ p, negb (String.eqb p "nodir/out.txt"))).

(** A world with the two files the program reads. *)
Definition samples : world :=
  World [] (Fsys (λ p, if String.eqb p "./easy_sample_02_3.txt" then Some file_A
                       else if String.eqb p "./easy_sample_03_2.txt"
                            then Some file_B
                       else None)
                 (λ _, true)).

(** * Lemmas and theorems *)

(** ** Dicts *)

Section dict.
Context {V : Type}.
Implicit Types (d : dict V) (k : Z) (v : V).

Lemma dict_get_set_eq k v d : dict_get k (dict_set k v d) = Some v.
Proof.
  induction d as [|[k' v'] d IH]; simpl.
  - by rewrite Z.eqb_refl.
  - destruct (Z.eqb_spec k k') as [->|Hne]; simpl.
    + by rewrite Z.eqb_refl.
    + by destruct (Z.eqb_spec k k').
Qed.

Lemma dict_get_set_ne k k' v d :
  k ≠ k' → dict_get k' (dict_set k v d) = dict_get k' d.
Proof.
  intros Hne. induction d as [|[k0 v0] d IH]; simpl.
  - by destruct (Z.eqb_spec k' k); [subst|].
  - destruct (Z.eqb_spec k k0) as [->|Hk]; simpl.
    + by destruct (Z.eqb_spec k' k0); [subst|].
    + by rewrite IH.
Qed.

Lemma dict_get_None k d : dict_get k d = None ↔ k ∉ d.*1.
Proof.
  induction d as [|[k' v'] d IH]; simpl.
  - split; [intros _; apply not_elem_of_nil | done].
  - rewrite not_elem_of_cons. destruct (Z.eqb_spec k k') as [->|Hne].
    + split; [done | by intros [? _]].
    + rewrite IH. split; [by intros ? | by intros [_ ?]].
Qed.

Lemma dict_get_Some_elem k v d : dict_get k d = Some v → (k, v) ∈ d.
Proof.
  induction d as [|[k' v'] d IH]; simpl; [done|].
  destruct (Z.eqb_spec k k') as [->|Hne].
  - intros [= ->]. left.
  - intros H. right. auto.
Qed.

Lemma dict_set_new k v d : dict_get k d = None → dict_set k v d = d ++ [(k, v)].
Proof.
  induction d as [|[k' v'] d IH]; simpl; [done|].
  destruct (Z.eqb_spec k k'); [done|]. intros H. by rewrite IH.
Qed.

Lemma dict_set_keys_old k v d :
  is_Some (dict_get k d) → (dict_set k v d).*1 = d.*1.
Proof.
  induction d as [|[k' v'] d IH]; simpl.
  - by intros [? ?].
  - destruct (Z.eqb_spec k k'); [done|]. intros H. simpl. f_equal. by apply IH.
Qed.

Lemma dict_set_NoDup k v d : NoDup d.*1 → NoDup (dict_set k v d).*1.
Proof.
  intros Hnd. destruct (dict_get k d) as [v0|] eqn:Hget.
  - by rewrite dict_set_keys_old.
  - rewrite dict_set_new by done. rewrite fmap_app. simpl.
    apply NoDup_app. split_and!; [done| |apply NoDup_singleton].
    intros x Hx ->%list_elem_of_singleton. by apply dict_get_None in Hget.
Qed.

Lemma dict_mem_true k d : dict_mem k d = true ↔ is_Some (dict_get k d).
Proof.
  unfold dict_mem. destruct (dict_get k d); split; eauto; try done.
Qed.

Lemma dict_mem_false k d : dict_mem k d = false ↔ dict_get k d = None.
Proof. unfold dict_mem. by destruct (dict_get k d). Qed.
End dict.

(** ** Running the primitives *)

Lemma bind_ok {A B} (m : M A) (f : A → M B) w a w' :
  m w = Ok a w' → (m ≫= f) w = f a w'.
Proof. unfold mbind, M_bind. by intros ->. Qed.

Lemma bind_raise {A B} (m : M A) (f : A → M B) w e w' :
  m w = Raise e w' → (m ≫= f) w = Raise e w'.
Proof. unfold mbind, M_bind. by intros ->. Qed.

Lemma wf_at_st h self nr nc m d : wf_at h self nr nc m d → wf_store_at h m d.
Proof. intros [Hs Hm Hr Hnd Hk]. by split. Qed.

Lemma wf_at_intro h self nr nc m d :
  h !! self = Some (Object (Instance_ (Some nr) (Some nc) (Some m))) →
  wf_store_at h m d → wf_at h self nr nc m d.
Proof. intros Hs [Hm Hr Hnd Hk]. by split. Qed.

Lemma wf_row_spec h r :
  wf_row h r = true ↔ ∃ rd, h !! r = Some (RowDict rd) ∧ NoDup rd.*1.
Proof.
  unfold wf_row, row_of. destruct (h !! r) as [[rd| |]|].
  - rewrite bool_decide_eq_true. split.
    + intros Hnd. by exists rd.
    + by intros (rd' & [= <-] & Hnd).
  - split; [done | by intros (rd' & [=] & _)].
  - split; [done | by intros (rd' & [=] & _)].
  - split; [done | by intros (rd' & [=] & _)].
Qed.

Lemma wf_spec h self :
  wf h self = true ↔ ∃ nr nc m d, wf_at h self nr nc m d.
Proof.
  unfold wf, dims, store_of. split.
  - destruct (h !! self) as [[| |[[nr|] [nc|] [m|]]]|] eqn:Hs; simpl; try done.
    destruct (h !! m) as [[|d|]|] eqn:Hm; try done.
    rewrite !andb_true_iff, !bool_decide_eq_true, forallb_forall.
    intros [[Hrows Hnd] Hk]. exists nr, nc, m, d. split; try done.
    intros r Hr. apply wf_row_spec, Hrows. by apply list_elem_of_In.
  - intros (nr & nc & m & d & [Hs Hm Hrows Hnd Hk]). rewrite Hs. simpl.
    rewrite Hm. rewrite !andb_true_iff, !bool_decide_eq_true, forallb_forall.
    split_and!; try done.
    intros r Hr. apply wf_row_spec, Hrows. by apply list_elem_of_In.
Qed.

Section run.
Context {h : list obj} {self : loc} {nr nc : Z} {m : loc} {d : dict loc}.
Context (Hwf : wf_at h self nr nc m d).
Implicit Types (w : world) (fs : fsys).

Lemma store_of_wf : store_of h self = Some d.
Proof. unfold store_of. rewrite (wf_self Hwf). simpl. by rewrite (wf_store Hwf). Qed.

Lemma dims_wf : dims h self = Some (nr, nc).
Proof. unfold dims. by rewrite (wf_self Hwf). Qed.

Lemma attr_numRows_run fs : attr numRows self (World h fs) = Ok nr (World h fs).
Proof.
  unfold attr, load_instance, load_obj, mbind, M_bind. simpl.
  by rewrite (wf_self Hwf).
Qed.

Lemma attr_numCols_run fs : attr numCols self (World h fs) = Ok nc (World h fs).
Proof.
  unfold attr, load_instance, load_obj, mbind, M_bind. simpl.
  by rewrite (wf_self Hwf).
Qed.

Lemma attr_matrix_run fs : attr matrix self (World h fs) = Ok m (World h fs).
Proof.
  unfold attr, load_instance, load_obj, mbind, M_bind. simpl.
  by rewrite (wf_self Hwf).
Qed.

Lemma load_store_run fs : load_store m (World h fs) = Ok d (World h fs).
Proof.
  unfold load_store, load_obj, mbind, M_bind. simpl.
  by rewrite (wf_store Hwf).
Qed.

Lemma row_lookup row r :
  dict_get row d = Some r → ∃ rd, h !! r = Some (RowDict rd) ∧ NoDup rd.*1.
Proof.
  intros Hr%dict_get_Some_elem. apply (wf_rows Hwf).
  apply list_elem_of_fmap. by exists (row, r).
Qed.

Lemma get_element_run fs row col :
  get_element self row col (World h fs)
  = Ok (value_at h self row col) (World h fs).
Proof.
  unfold get_element, value_at, cell, store_cell.
  rewrite (bind_ok _ _ _ _ _ (attr_matrix_run fs)).
  rewrite (bind_ok _ _ _ _ _ (load_store_run fs)).
  rewrite store_of_wf. simpl.
  destruct (dict_get row d) as [r|] eqn:Hrow; simpl; [|done].
  destruct (row_lookup _ _ Hrow) as (rd & Hr & _).
  unfold load_row, load_obj, row_of, mbind, M_bind. simpl. by rewrite Hr.
Qed.

Lemma matrix_keys_run fs :
  matrix_keys self (World h fs) = Ok (dict_keys d) (World h fs).
Proof.
  unfold matrix_keys.
  rewrite (bind_ok _ _ _ _ _ (attr_matrix_run fs)).
  by rewrite (bind_ok _ _ _ _ _ (load_store_run fs)).
Qed.
End run.

Lemma NoDup_snd_inj {V} (d : dict V) k1 k2 v :
  NoDup d.*2 → (k1, v) ∈ d → (k2, v) ∈ d → k1 = k2.
Proof.
  intros Hnd [i Hi]%list_elem_of_lookup [j Hj]%list_elem_of_lookup.
  assert (i = j) as ->.
  { apply (NoDup_lookup _ _ _ v Hnd); rewrite list_lookup_fmap.
    - by rewrite Hi.
    - by rewrite Hj. }
  congruence.
Qed.

Lemma dict_get_row_elem {V} (d : dict V) k r : dict_get k d = Some r → r ∈ d.*2.
Proof.
  intros Hr%dict_get_Some_elem. apply list_elem_of_fmap. by exists (k, r).
Qed.

Section set_element.
Context {h : list obj} {self : loc} {nr nc : Z} {m : loc} {d : dict loc}.
Context (Hwf : wf_at h self nr nc m d).
Context (row col v : Z).

Lemma wf_self_lt : (self < length h)%nat.
Proof. eapply lookup_lt_Some, (wf_self Hwf). Qed.

Lemma wf_store_lt : (m < length h)%nat.
Proof. eapply lookup_lt_Some, (wf_store Hwf). Qed.

Lemma wf_row_lt r : r ∈ d.*2 → (r < length h)%nat.
Proof. intros (rd & Hr & _)%(wf_rows Hwf). by eapply lookup_lt_Some. Qed.

Lemma wf_self_ne_store : self ≠ m.
Proof. intros ->. pose proof (wf_self Hwf). pose proof (wf_store Hwf). congruence. Qed.

Lemma wf_row_ne r : r ∈ d.*2 → r ≠ self ∧ r ≠ m.
Proof.
  intros (rd & Hr & _)%(wf_rows Hwf).
  pose proof (wf_self Hwf). pose proof (wf_store Hwf).
  split; intros ->; congruence.
Qed.

Lemma set_element_run fs :
  set_element self row col v (World h fs)
  = Ok () (World (set_cell_heap h m d row col v) fs).
Proof.
  unfold set_element, set_cell_heap.
  rewrite (bind_ok _ _ _ _ _ (attr_matrix_run Hwf fs)).
  rewrite (bind_ok _ _ _ _ _ (load_store_run Hwf fs)).
  unfold dict_mem. destruct (dict_get row d) as [r|] eqn:Hrow.
  - destruct (row_lookup Hwf _ _ Hrow) as (rd & Hr & _).
    unfold mbind at 1, M_bind at 1. simpl.
    rewrite (bind_ok _ _ _ _ _ (attr_matrix_run Hwf fs)).
    rewrite (bind_ok _ _ _ _ _ (load_store_run Hwf fs)).
    rewrite Hrow. unfold load_row, load_obj, row_of, store_obj, mbind, M_bind.
    simpl. by rewrite Hr.
  - pose proof wf_self_lt. pose proof wf_store_lt. pose proof wf_self_ne_store.
    unfold attr, load_instance, load_store, load_row, load_obj, store_obj,
      new, mbind, M_bind. simpl.
    rewrite (lookup_app_l _ _ self) by done. rewrite (wf_self Hwf). simpl.
    rewrite (lookup_app_l _ _ m) by done. rewrite (wf_store Hwf). simpl.
    rewrite list_lookup_insert_ne by done.
    rewrite (lookup_app_l _ _ self) by done. rewrite (wf_self Hwf). simpl.
    rewrite list_lookup_insert_eq by (rewrite length_app; simpl; lia).
    unfold mret, M_ret. simpl. rewrite dict_get_set_eq. simpl.
    rewrite list_lookup_insert_ne by lia.
    rewrite lookup_app_r by lia. rewrite Nat.sub_diag. simpl.
    f_equal. f_equal.
    rewrite insert_app_l by done.
    rewrite insert_app_r_alt by (rewrite length_insert; lia).
    rewrite length_insert, Nat.sub_diag. done.
Qed.
End set_element.

Section set_cell_store.
Context {h : list obj} {m : loc} {d : dict loc}.
Context (Hst : wf_store_at h m d).
Context (row col v : Z).

Lemma st_store_lt : (m < length h)%nat.
Proof. eapply lookup_lt_Some, (st_store Hst). Qed.

Lemma st_row_lt r : r ∈ d.*2 → (r < length h)%nat.
Proof. intros (rd & Hr & _)%(st_rows Hst). by eapply lookup_lt_Some. Qed.

Lemma st_row_ne r : r ∈ d.*2 → r ≠ m.
Proof.
  intros (rd & Hr & _)%(st_rows Hst) ->. pose proof (st_store Hst). congruence.
Qed.

Lemma st_row_lookup k r :
  dict_get k d = Some r → ∃ rd, h !! r = Some (RowDict rd) ∧ NoDup rd.*1.
Proof. intros Hr. by eapply (st_rows Hst), dict_get_row_elem. Qed.

Lemma set_cell_length : (length h ≤ length (set_cell_heap h m d row col v))%nat.
Proof.
  unfold set_cell_heap. destruct (dict_get row d).
  - by rewrite length_insert.
  - rewrite length_app, length_insert. lia.
Qed.

(** Only the outer dict, the rows and new locations are written. *)
Lemma set_cell_frame l :
  l ≠ m → l ∉ d.*2 → (l < length h)%nat → set_cell_heap h m d row col v !! l = h !! l.
Proof.
  intros Hm Hd Hl. unfold set_cell_heap.
  destruct (dict_get row d) as [r|] eqn:Hrow.
  - apply list_lookup_insert_ne. intros ->.
    apply Hd. by eapply dict_get_row_elem.
  - rewrite lookup_app_l by (by rewrite length_insert).
    by apply list_lookup_insert_ne.
Qed.

Lemma set_cell_store_rows r : r ∈ (set_cell_store h d row).*2 → r ∈ d.*2 ∨ r = length h.
Proof.
  unfold set_cell_store. destruct (dict_get row d) eqn:Hrow; [by left|].
  rewrite dict_set_new by done. rewrite fmap_app, elem_of_app. simpl.
  rewrite list_elem_of_singleton. tauto.
Qed.

Lemma set_cell_st : wf_store_at (set_cell_heap h m d row col v) m (set_cell_store h d row).
Proof.
  pose proof st_store_lt.
  unfold set_cell_heap, set_cell_store.
  destruct (dict_get row d) as [r|] eqn:Hrow.
  - pose proof (dict_get_row_elem _ _ _ Hrow) as Hr.
    pose proof (st_row_ne _ Hr) as Hrm.
    destruct (st_row_lookup _ _ Hrow) as (rd & Hrd & Hnd).
    split.
    + rewrite list_lookup_insert_ne by done. apply (st_store Hst).
    + intros r' Hr'. destruct (decide (r' = r)) as [->|Hne].
      * rewrite list_lookup_insert_eq by (by eapply lookup_lt_Some).
        eexists; split; [done|]. unfold row_of. rewrite Hrd. simpl.
        by apply dict_set_NoDup.
      * rewrite list_lookup_insert_ne by done. by apply (st_rows Hst).
    + apply (st_distinct Hst).
    + apply (st_keys Hst).
  - rewrite dict_set_new by done. split.
    + rewrite lookup_app_l by (by rewrite length_insert).
      by rewrite list_lookup_insert_eq.
    + intros r'. rewrite fmap_app, elem_of_app. simpl.
      rewrite list_elem_of_singleton. intros [Hr'| ->].
      * pose proof (st_row_lt _ Hr'). pose proof (st_row_ne _ Hr').
        rewrite lookup_app_l by (by rewrite length_insert).
        rewrite list_lookup_insert_ne by done. by apply (st_rows Hst).
      * rewrite lookup_app_r by (by rewrite length_insert).
        rewrite length_insert, Nat.sub_diag. simpl.
        eexists; split; [done|]. simpl. apply NoDup_singleton.
    + rewrite fmap_app. simpl. apply NoDup_app.
      split_and!; [apply (st_distinct Hst)| |apply NoDup_singleton].
      intros r' Hr' ->%list_elem_of_singleton.
      pose proof (st_row_lt _ Hr'). lia.
    + rewrite fmap_app. simpl. apply NoDup_app.
      split_and!; [apply (st_keys Hst)| |apply NoDup_singleton].
      intros k Hk ->%list_elem_of_singleton. by apply dict_get_None in Hrow.
Qed.

Lemma set_cell_same_st : store_cell (set_cell_heap h m d row col v) (set_cell_store h d row) row col = Some v.
Proof.
  unfold store_cell. unfold set_cell_heap, set_cell_store.
  destruct (dict_get row d) as [r|] eqn:Hrow.
  - rewrite Hrow. simpl. unfold row_of at 1.
    destruct (st_row_lookup _ _ Hrow) as (rd & Hrd & Hnd).
    rewrite list_lookup_insert_eq by (by eapply lookup_lt_Some). simpl.
    apply dict_get_set_eq.
  - rewrite dict_get_set_eq. simpl. unfold row_of.
    rewrite lookup_app_r by (by rewrite length_insert).
    rewrite length_insert, Nat.sub_diag. simpl. by rewrite Z.eqb_refl.
Qed.

Lemma set_cell_other_st r c :
  (r, c) ≠ (row, col) → store_cell (set_cell_heap h m d row col v) (set_cell_store h d row) r c
  = store_cell h d r c.
Proof.
  intros Hne. unfold store_cell.
  unfold set_cell_heap, set_cell_store.
  destruct (dict_get row d) as [r0|] eqn:Hrow.
  - destruct (dict_get r d) as [r1|] eqn:Hr; simpl; [|done].
    destruct (st_row_lookup _ _ Hrow) as (rd & Hrd & Hnd).
    destruct (decide (r1 = r0)) as [->|Hr10].
    + assert (r = row) as ->.
      { by eapply (NoDup_snd_inj d), dict_get_Some_elem;
          [apply (st_distinct Hst) | apply dict_get_Some_elem |]. }
      unfold row_of. rewrite list_lookup_insert_eq by (by eapply lookup_lt_Some).
      rewrite Hrd. simpl. apply dict_get_set_ne. congruence.
    + unfold row_of. by rewrite list_lookup_insert_ne.
  - destruct (decide (r = row)) as [->|Hr].
    + rewrite dict_get_set_eq, Hrow. simpl. unfold row_of.
      rewrite lookup_app_r by (by rewrite length_insert).
      rewrite length_insert, Nat.sub_diag. simpl.
      destruct (Z.eqb_spec c col); [congruence | done].
    + rewrite dict_get_set_ne by done.
      destruct (dict_get r d) as [r1|] eqn:Hr1; simpl; [|done].
      pose proof (dict_get_row_elem _ _ _ Hr1) as Hel.
      pose proof (st_row_lt _ Hel). pose proof (st_row_ne _ Hel).
      unfold row_of. rewrite lookup_app_l by (by rewrite length_insert).
      by rewrite list_lookup_insert_ne.
Qed.
End set_cell_store.

Section set_cell.
Context {h : list obj} {self : loc} {nr nc : Z} {m : loc} {d : dict loc}.
Context (Hwf : wf_at h self nr nc m d).
Context (row col v : Z).

Lemma set_cell_wf : wf_at (set_cell_heap h m d row col v) self nr nc m (set_cell_store h d row).
Proof.
  apply wf_at_intro; [|apply set_cell_st, (wf_at_st _ _ _ _ _ _ Hwf)].
  rewrite set_cell_frame.
  - apply (wf_self Hwf).
  - apply (wf_self_ne_store Hwf).
  - intros Hin. by destruct (wf_row_ne Hwf _ Hin).
  - apply (wf_self_lt Hwf).
Qed.

Lemma set_cell_same : cell (set_cell_heap h m d row col v) self row col = Some v.
Proof.
  unfold cell. rewrite (store_of_wf set_cell_wf). simpl.
  apply set_cell_same_st, (wf_at_st _ _ _ _ _ _ Hwf).
Qed.

Lemma set_cell_other r c :
  (r, c) ≠ (row, col) → cell (set_cell_heap h m d row col v) self r c = cell h self r c.
Proof.
  intros Hne. unfold cell.
  rewrite (store_of_wf set_cell_wf), (store_of_wf Hwf). simpl.
  apply set_cell_other_st; [exact (wf_at_st _ _ _ _ _ _ Hwf) | done].
Qed.
End set_cell.

(** ** Frames: what a method leaves alone *)

Lemma keeps_refl h : keeps h h.
Proof. by intros l _. Qed.

Lemma keeps_length h0 h : keeps h0 h → (length h0 ≤ length h)%nat.
Proof.
  intros Hk. destruct (decide (length h0 = 0)%nat) as [->|Hne]; [lia|].
  specialize (Hk (pred (length h0))).
  destruct (lookup_lt_is_Some_2 h0 (pred (length h0))) as [o Ho]; [lia|].
  rewrite Ho in Hk. apply lookup_lt_Some in Hk; lia.
Qed.

Lemma keeps_take h0 h : keeps h0 h ↔ take (length h0) h = h0.
Proof.
  split.
  - intros Hk. pose proof (keeps_length _ _ Hk). apply list_eq. intros l.
    destruct (decide (l < length h0)%nat).
    + rewrite lookup_take_lt by done. by apply Hk.
    + rewrite lookup_take_ge by lia. symmetry. apply lookup_ge_None. lia.
  - intros Ht l Hl. transitivity (take (length h0) h !! l).
    + symmetry. by apply lookup_take_lt.
    + by rewrite Ht.
Qed.

Lemma keeps_lookup h0 h l o : keeps h0 h → h0 !! l = Some o → h !! l = Some o.
Proof. intros Hk Hl. rewrite Hk; [done|]. by eapply lookup_lt_Some. Qed.

Lemma keeps_wf_at h0 h self nr nc m d :
  keeps h0 h → wf_at h0 self nr nc m d → wf_at h self nr nc m d.
Proof.
  intros Hk [Hs Hm Hr Hnd Hkeys]. split; try done.
  - by eapply keeps_lookup.
  - by eapply keeps_lookup.
  - intros r (rd & Hrd & ?)%Hr. exists rd. split; [|done]. by eapply keeps_lookup.
Qed.

Lemma wf_at_cell h self nr nc m d row col :
  wf_at h self nr nc m d → cell h self row col = store_cell h d row col.
Proof. intros Hwf. unfold cell. by rewrite (store_of_wf Hwf). Qed.

Lemma keeps_cell h0 h self nr nc m d row col :
  keeps h0 h → wf_at h0 self nr nc m d →
  cell h self row col = cell h0 self row col.
Proof.
  intros Hk Hwf.
  rewrite (wf_at_cell _ _ _ _ _ _ _ _ Hwf).
  rewrite (wf_at_cell _ _ _ _ _ _ _ _ (keeps_wf_at _ _ _ _ _ _ _ Hk Hwf)).
  unfold store_cell. destruct (dict_get row d) as [r|] eqn:Hrow; simpl; [|done].
  destruct (row_lookup Hwf _ _ Hrow) as (rd & Hrd & _).
  unfold row_of. by rewrite (keeps_lookup _ _ _ _ Hk Hrd), Hrd.
Qed.

Lemma keeps_value_at h0 h self nr nc m d row col :
  keeps h0 h → wf_at h0 self nr nc m d →
  value_at h self row col = value_at h0 self row col.
Proof. intros. unfold value_at. by erewrite keeps_cell. Qed.

Lemma keeps_entries h0 h self nr nc m d :
  keeps h0 h → wf_at h0 self nr nc m d → entries h self = entries h0 self.
Proof.
  intros Hk Hwf. unfold entries.
  rewrite (store_of_wf Hwf), (store_of_wf (keeps_wf_at _ _ _ _ _ _ _ Hk Hwf)).
  simpl. pose proof (wf_rows Hwf) as Hrows. clear Hwf.
  induction d as [|[k r] d' IH]; [done|]. simpl. f_equal.
  - destruct (Hrows r) as (rd & Hrd & _); [by left|].
    unfold row_of. by rewrite (keeps_lookup _ _ _ _ Hk Hrd), Hrd.
  - apply IH. intros r0 Hr0. apply Hrows. by right.
Qed.

Lemma owned_set_cell h0 h result nr nc m d row col v :
  owned h0 h result nr nc m d →
  owned h0 (set_cell_heap h m d row col v) result nr nc m (set_cell_store h d row).
Proof.
  intros Ho. pose proof (keeps_length _ _ (own_keeps Ho)) as Hlen. split.
  - intros l Hl. rewrite <- (own_keeps Ho l Hl).
    apply set_cell_frame; [| |lia].
    + pose proof (own_store Ho). lia.
    + intros Hin%(own_rows Ho). lia.
  - apply set_cell_wf, (own_wf Ho).
  - apply (own_self Ho).
  - apply (own_store Ho).
  - intros r [Hr| ->]%set_cell_store_rows; [by apply (own_rows Ho)|done].
Qed.

(** ** Construction with dimensions *)

Lemma lookup_at_length (h : list obj) o l : (h ++ o :: l) !! length h = Some o.
Proof. by apply list_lookup_middle. Qed.

Lemma insert_at_length (h : list obj) o o' l :
  <[length h := o']> (h ++ o :: l) = h ++ o' :: l.
Proof.
  rewrite insert_app_r_alt by lia. by rewrite Nat.sub_diag.
Qed.

Lemma SparseMatrix_dims_run h fs nr nc :
  SparseMatrix None nr nc (World h fs)
  = Ok (length h) (World (h ++ fresh_matrix h nr nc) fs).
Proof.
  unfold SparseMatrix, __init__, set_matrix, set_numRows, set_numCols,
    load_instance, load_obj, store_obj, new, fresh_matrix,
    mbind, M_bind, mret, M_ret.
  simpl. rewrite <- app_assoc. simpl.
  rewrite lookup_at_length. simpl. rewrite insert_at_length.
  rewrite lookup_at_length. simpl. rewrite insert_at_length.
  rewrite lookup_at_length. simpl. rewrite insert_at_length.
  rewrite length_app. simpl. by rewrite Nat.add_1_r.
Qed.

Lemma fresh_matrix_owned h nr nc :
  owned h (h ++ fresh_matrix h nr nc) (length h) nr nc (S (length h)) [].
Proof.
  split.
  - intros l Hl. by apply lookup_app_l.
  - split.
    + apply lookup_at_length.
    + unfold fresh_matrix. rewrite (lookup_app_r h) by lia.
      by replace (S (length h) - length h)%nat with 1%nat by lia.
    + by intros r ?%elem_of_nil.
    + apply NoDup_nil_2.
    + apply NoDup_nil_2.
  - done.
  - lia.
  - by intros r ?%elem_of_nil.
Qed.

Lemma fresh_matrix_cell h nr nc row col :
  cell (h ++ fresh_matrix h nr nc) (length h) row col = None.
Proof.
  by rewrite (wf_at_cell _ _ _ _ _ _ _ _ (own_wf (fresh_matrix_owned h nr nc))).
Qed.

(** ** Loops *)

(** A [for] loop whose body cannot raise keeps an invariant that is indexed
    by the elements visited so far. *)
Lemma for_inv {A} (I : list A → world → Prop) (l : list A)
    (body : A → M unit) (w : world) :
  I [] w →
  (∀ pre x w, x ∈ l → I pre w → ∃ w', body x w = Ok () w' ∧ I (pre ++ [x]) w') →
  ∃ w', for_ l body w = Ok () w' ∧ I l w'.
Proof.
  intros H0 Hstep.
  enough (∀ post pre w, pre ++ post = l → I pre w →
            ∃ w', for_ post body w = Ok () w' ∧ I l w') as Hgen.
  { by apply (Hgen l [] w). }
  induction post as [|x post IH]; intros pre w1 Hl Hpre.
  - rewrite app_nil_r in Hl. subst pre. by exists w1.
  - destruct (Hstep pre x w1) as (w2 & Hrun & H2); [|done|].
    { subst l. rewrite elem_of_app. right. left. }
    simpl. rewrite (bind_ok _ _ _ _ _ Hrun).
    apply (IH (pre ++ [x])); [|done]. by rewrite <- app_assoc.
Qed.

(** [sum(...)] over a generator whose terms only read. *)
Lemma sum_run (l : list Z) (f : Z → M Z) (g : Z → Z) (acc : Z) (w : world) :
  (∀ k, f k w = Ok (g k) w) →
  sum_ l f acc w = Ok (acc + foldr Z.add 0 (g <$> l)) w.
Proof.
  intros Hf. revert acc. induction l as [|k l IH]; intros acc; simpl.
  - by rewrite Z.add_0_r.
  - rewrite (bind_ok _ _ _ _ _ (Hf k)), IH. by rewrite Z.add_assoc.
Qed.

(** ** Addition and subtraction *)

Lemma add_grid self other_matrix :
  add self other_matrix
  = (nr ← attr numRows self; nc ← attr numCols self;
     result ← SparseMatrix None nr nc;
     grid Z.add self other_matrix result;; mret result).
Proof. reflexivity. Qed.

Lemma subtract_grid self other_matrix :
  subtract self other_matrix
  = (nr ← attr numRows self; nc ← attr numCols self;
     result ← SparseMatrix None nr nc;
     grid Z.sub self other_matrix result;; mret result).
Proof. reflexivity. Qed.

Lemma filled_iff h result (P Q : Z → Z → Prop) f :
  (∀ i j, P i j ↔ Q i j) → filled h result P f → filled h result Q f.
Proof.
  intros HPQ Hf i j. destruct (Hf i j) as [H1 H2]. split.
  - intros HQ. by apply H1, HPQ.
  - intros HQ. apply H2. by rewrite HPQ.
Qed.

Section grid.
Context (op : Z → Z → Z) (fs : fsys).
Context {h0 : list obj} {self other_matrix result : loc}.
Context {nr nc onr onc rr rc : Z} {ms mo m : loc} {ds do : dict loc}.
Context (Hself : wf_at h0 self nr nc ms ds).
Context (Hother : wf_at h0 other_matrix onr onc mo do).

(** One cell: [result.set_element(row, col, self... op other...)]. *)
Lemma grid_cell h d (P : Z → Z → Prop) row col :
  owned h0 h result rr rc m d → filled h result P (grid_value op h0 self other_matrix) →
  ∃ h' d',
    (a ← get_element self row col;
     b ← get_element other_matrix row col;
     set_element result row col (op a b)) (World h fs) = Ok () (World h' fs)
    ∧ owned h0 h' result rr rc m d'
    ∧ filled h' result (λ i j, P i j ∨ (i = row ∧ j = col)) (grid_value op h0 self other_matrix).
Proof.
  intros Ho Hf.
  pose proof (keeps_wf_at _ _ _ _ _ _ _ (own_keeps Ho) Hself) as Hs.
  pose proof (keeps_wf_at _ _ _ _ _ _ _ (own_keeps Ho) Hother) as Hot.
  exists (set_cell_heap h m d row col ((grid_value op h0 self other_matrix) row col)), (set_cell_store h d row).
  split_and!.
  - rewrite (bind_ok _ _ _ _ _ (get_element_run Hs fs row col)).
    rewrite (bind_ok _ _ _ _ _ (get_element_run Hot fs row col)).
    rewrite (set_element_run (own_wf Ho)).
    rewrite (keeps_value_at _ _ _ _ _ _ _ row col (own_keeps Ho) Hself).
    by rewrite (keeps_value_at _ _ _ _ _ _ _ row col (own_keeps Ho) Hother).
  - by apply owned_set_cell.
  - intros i j. destruct (decide ((i, j) = (row, col))) as [[= -> ->]|Hne].
    + rewrite (set_cell_same (own_wf Ho)). split; [done|]. intros []. by right.
    + rewrite (set_cell_other (own_wf Ho)) by done.
      destruct (Hf i j) as [H1 H2]. split.
      * intros [HP|[-> ->]]; [by apply H1 | done].
      * intros HnP. apply H2. intros HP. apply HnP. by left.
Qed.

Lemma grid_run h d :
  owned h0 h result rr rc m d → filled h result (λ _ _, False) (grid_value op h0 self other_matrix) →
  ∃ h' d',
    grid op self other_matrix result (World h fs) = Ok () (World h' fs)
    ∧ owned h0 h' result rr rc m d'
    ∧ filled h' result (λ i j, 0 ≤ i < nr ∧ 0 ≤ j < nc) (grid_value op h0 self other_matrix).
Proof.
  intros Ho Hf. unfold grid.
  pose proof (keeps_wf_at _ _ _ _ _ _ _ (own_keeps Ho) Hself) as Hs.
  rewrite (bind_ok _ _ _ _ _ (attr_numRows_run Hs fs)).
  set (Irow := λ (rows : list Z) (w : world), ∃ h1 d1,
         w = World h1 fs ∧ owned h0 h1 result rr rc m d1
         ∧ filled h1 result (λ i j, i ∈ rows ∧ j ∈ range nc) (grid_value op h0 self other_matrix)).
  destruct (for_inv Irow (range nr)
    (λ row, nc ← attr numCols self;
       for_ (range nc) (λ col,
         a ← get_element self row col;
         b ← get_element other_matrix row col;
         set_element result row col (op a b))) (World h fs))
    as (w' & Hrun & (h' & d' & -> & Ho' & Hf')).
  - exists h, d. split_and!; [done..|].
    eapply filled_iff; [|done]. intros i j. split; [done|].
    by intros [?%elem_of_nil _].
  - intros rows row w _ (h1 & d1 & -> & Ho1 & Hf1).
    pose proof (keeps_wf_at _ _ _ _ _ _ _ (own_keeps Ho1) Hself) as Hs1.
    rewrite (bind_ok _ _ _ _ _ (attr_numCols_run Hs1 fs)).
    set (Icol := λ (cols : list Z) (w : world), ∃ h2 d2,
           w = World h2 fs ∧ owned h0 h2 result rr rc m d2
           ∧ filled h2 result
               (λ i j, (i ∈ rows ∧ j ∈ range nc) ∨ (i = row ∧ j ∈ cols)) (grid_value op h0 self other_matrix)).
    destruct (for_inv Icol (range nc)
      (λ col, a ← get_element self row col;
         b ← get_element other_matrix row col;
         set_element result row col (op a b)) (World h1 fs))
      as (w2 & Hrun2 & (h2 & d2 & -> & Ho2 & Hf2)).
    + exists h1, d1. split_and!; [done..|].
      eapply filled_iff; [|done]. intros i j. split; [by left|].
      by intros [?|[_ ?%elem_of_nil]].
    + intros cols col w _ (h3 & d3 & -> & Ho3 & Hf3).
      destruct (grid_cell h3 d3 _ row col Ho3 Hf3) as (h4 & d4 & Hr4 & Ho4 & Hf4).
      exists (World h4 fs). split; [done|]. exists h4, d4. split_and!; [done..|].
      eapply filled_iff; [|done]. intros i j. simpl.
      rewrite elem_of_app, list_elem_of_singleton. split.
      * intros [[?|[-> ?]]|[-> ->]]; [by left|right..]; auto.
      * intros [?|[-> [?| ->]]]; [left; by left|left; right|right]; auto.
    + exists (World h2 fs). split; [done|]. exists h2, d2. split_and!; [done..|].
      eapply filled_iff; [|done]. intros i j. simpl.
      rewrite elem_of_app, list_elem_of_singleton. split.
      * intros [[? ?]|[-> ?]]; auto.
      * intros [[?| ->] ?]; auto.
  - exists h', d'. split_and!; [done..|].
    eapply filled_iff; [|done]. intros i j. simpl. unfold range.
    rewrite !elem_of_seqZ. lia.
Qed.
End grid.

Section add_subtract.
Context (op : Z → Z → Z) (fs : fsys).
Context {h : list obj} {self other_matrix : loc}.
Context {nr nc onr onc : Z} {ms mo : loc} {ds do : dict loc}.
Context (Hself : wf_at h self nr nc ms ds).
Context (Hother : wf_at h other_matrix onr onc mo do).

(** [add] and [subtract], run on well-formed operands. *)
Lemma combine_run :
  ∃ h' m d,
    (nr ← attr numRows self; nc ← attr numCols self;
     result ← SparseMatrix None nr nc;
     grid op self other_matrix result;; mret result) (World h fs)
    = Ok (length h) (World h' fs)
    ∧ owned h h' (length h) nr nc m d
    ∧ filled h' (length h) (λ i j, 0 ≤ i < nr ∧ 0 ≤ j < nc)
        (λ i j, op (value_at h self i j) (value_at h other_matrix i j)).
Proof.
  rewrite (bind_ok _ _ _ _ _ (attr_numRows_run Hself fs)).
  rewrite (bind_ok _ _ _ _ _ (attr_numCols_run Hself fs)).
  rewrite (bind_ok _ _ _ _ _ (SparseMatrix_dims_run h fs nr nc)).
  destruct (grid_run op fs Hself Hother _ _ (fresh_matrix_owned h nr nc))
    as (h' & d' & Hrun & Ho & Hf).
  { intros i j. split; [done|]. intros _. apply fresh_matrix_cell. }
  exists h', (S (length h)), d'. split_and!; [|done..].
  by rewrite (bind_ok _ _ _ _ _ Hrun).
Qed.
End add_subtract.

(** ** Multiplication *)

Lemma row_has_run h self nr nc m d fs row col :
  wf_at h self nr nc m d → row ∈ dict_keys d →
  ∃ b, row_has self row col (World h fs) = Ok b (World h fs).
Proof.
  intros Hwf Hrow. unfold row_has.
  rewrite (bind_ok _ _ _ _ _ (attr_matrix_run Hwf fs)).
  rewrite (bind_ok _ _ _ _ _ (load_store_run Hwf fs)).
  destruct (dict_get row d) as [r|] eqn:Hget.
  - destruct (row_lookup Hwf _ _ Hget) as (rd & Hrd & _).
    exists (dict_mem col rd).
    unfold load_row, load_obj, mbind, M_bind. simpl. by rewrite Hrd.
  - by apply dict_get_None in Hget.
Qed.

Section multiply.
Context (fs : fsys).
Context {h : list obj} {self other_matrix : loc}.
Context {nr nc onr onc : Z} {ms mo : loc} {ds do : dict loc}.
Context (Hself : wf_at h self nr nc ms ds).
Context (Hother : wf_at h other_matrix onr onc mo do).

(** The guard: nothing is allocated or written before it raises. *)
Lemma multiply_raise :
  nc ≠ onr → multiply self other_matrix (World h fs) = Raise IncompatibleSizes (World h fs).
Proof.
  intros Hne. unfold multiply.
  rewrite (bind_ok _ _ _ _ _ (attr_numCols_run Hself fs)).
  rewrite (bind_ok _ _ _ _ _ (attr_numRows_run Hother fs)).
  by rewrite bool_decide_eq_true_2.
Qed.

Lemma multiply_run :
  nc = onr →
  ∃ h' m d,
    multiply self other_matrix (World h fs) = Ok (length h) (World h' fs)
    ∧ owned h h' (length h) nr onc m d.
Proof.
  intros Heq. unfold multiply.
  rewrite (bind_ok _ _ _ _ _ (attr_numCols_run Hself fs)).
  rewrite (bind_ok _ _ _ _ _ (attr_numRows_run Hother fs)).
  rewrite bool_decide_eq_false_2 by (by intros ?).
  rewrite (bind_ok _ _ _ _ _ (attr_numRows_run Hself fs)).
  rewrite (bind_ok _ _ _ _ _ (attr_numCols_run Hother fs)).
  rewrite (bind_ok _ _ _ _ _ (SparseMatrix_dims_run h fs nr onc)).
  pose proof (fresh_matrix_owned h nr onc) as Ho0.
  pose proof (keeps_wf_at _ _ _ _ _ _ _ (own_keeps Ho0) Hself) as Hs0.
  rewrite (bind_ok _ _ _ _ _ (matrix_keys_run Hs0 fs)).
  set (I := λ (_ : list Z) (w : world), ∃ h1 d1,
         w = World h1 fs ∧ owned h h1 (length h) nr onc (S (length h)) d1).
  match goal with |- context [for_ ?l ?body] =>
    destruct (for_inv I l body (World (h ++ fresh_matrix h nr onc) fs))
      as (w' & Hrun & (h' & d' & -> & Ho')) end.
  - by exists (h ++ fresh_matrix h nr onc), [].
  - intros pre row w Hrow (h1 & d1 & -> & Ho1).
    pose proof (keeps_wf_at _ _ _ _ _ _ _ (own_keeps Ho1) Hself) as Hs1.
    pose proof (keeps_wf_at _ _ _ _ _ _ _ (own_keeps Ho1) Hother) as Hot1.
    rewrite (bind_ok _ _ _ _ _ (matrix_keys_run Hot1 fs)).
    match goal with |- context [for_ ?l ?body] =>
      destruct (for_inv I l body (World h1 fs))
        as (w2 & Hrun2 & (h2 & d2 & -> & Ho2)) end.
    + by exists h1, d1.
    + intros pre' col w _ (h3 & d3 & -> & Ho3).
      pose proof (keeps_wf_at _ _ _ _ _ _ _ (own_keeps Ho3) Hself) as Hs3.
      pose proof (keeps_wf_at _ _ _ _ _ _ _ (own_keeps Ho3) Hother) as Hot3.
      destruct (row_has_run _ _ _ _ _ _ fs row col Hs3 Hrow) as [b Hb].
      rewrite (bind_ok _ _ _ _ _ Hb). destruct b.
      * rewrite (bind_ok _ _ _ _ _ (attr_numCols_run Hs3 fs)).
        erewrite bind_ok; last first.
        { apply (sum_run _ _ (λ k, value_at h3 self row k
                                    * value_at h3 other_matrix k col)).
          intros k.
          rewrite (bind_ok _ _ _ _ _ (get_element_run Hs3 fs row k)).
          by rewrite (bind_ok _ _ _ _ _ (get_element_run Hot3 fs k col)). }
        rewrite (set_element_run (own_wf Ho3)).
        eexists. split; [done|]. eexists _, _. split; [done|].
        by apply owned_set_cell.
      * exists (World h3 fs). split; [done|]. by exists h3, d3.
    + exists (World h2 fs). split; [done|]. by exists h2, d2.
  - exists h', (S (length h)), d'. split; [|done].
    by rewrite (bind_ok _ _ _ _ _ Hrun).
Qed.
End multiply.

(** ** Properties of the methods *)

Lemma wf_dims h self r c :
  wf h self = true → dims h self = Some (r, c) → ∃ m d, wf_at h self r c m d.
Proof.
  intros (nr & nc & m & d & Hwf)%wf_spec Hd.
  rewrite (dims_wf Hwf) in Hd. injection Hd as -> ->. by exists m, d.
Qed.

Lemma wf_at_wf h self nr nc m d : wf_at h self nr nc m d → wf h self = true.
Proof. intros Hwf. apply wf_spec. by exists nr, nc, m, d. Qed.

Lemma footprint_wf h self nr nc m d :
  wf_at h self nr nc m d → footprint h self = self :: m :: d.*2.
Proof.
  intros Hwf. unfold footprint. rewrite (store_of_wf Hwf).
  by rewrite (wf_self Hwf).
Qed.

Lemma footprint_lt h self l :
  wf h self = true → l ∈ footprint h self → (l < length h)%nat.
Proof.
  intros (nr & nc & m & d & Hwf)%wf_spec. rewrite (footprint_wf _ _ _ _ _ _ Hwf).
  rewrite !elem_of_cons. intros [->|[->|Hl]].
  - apply (wf_self_lt Hwf).
  - apply (wf_store_lt Hwf).
  - by apply (wf_row_lt Hwf).
Qed.

(** C8: [set_element(row, col, v)] followed by [get_element(row, col)]
    returns [v], for all integers [row], [col] and every value [v], zero
    included; the value is held as an explicit entry, so that assigning zero
    stores a zero rather than removing the key. *)
Theorem set_then_get w self row col v :
  wf (heap w) self = true →
  ∃ w', set_element self row col v w = Ok () w'
        ∧ get_element self row col w' = Ok v w'
        ∧ cell (heap w') self row col = Some v.
Proof.
  intros (nr & nc & m & d & Hwf)%wf_spec. destruct w as [h fs]. simpl in *.
  exists (World (set_cell_heap h m d row col v) fs).
  pose proof (set_cell_wf Hwf row col v) as Hwf'.
  split_and!.
  - apply (set_element_run Hwf).
  - rewrite (get_element_run Hwf'). unfold value_at.
    by rewrite (set_cell_same Hwf).
  - apply (set_cell_same Hwf).
Qed.

Lemma set_then_get_witness :
  ∃ w', set_element 0%nat 5 7 0 demo = Ok () w'
        ∧ get_element 0%nat 5 7 w' = Ok 0 w'
        ∧ cell (heap w') 0%nat 5 7 = Some 0.
Proof. apply (set_then_get demo 0%nat 5 7 0). reflexivity. Defined.

(** C10: [set_element(row, col, value)] changes the targeted cell only:
    at every other position [get_element] returns what it returned before
    the call, and [numRows] and [numCols] are as before. *)
Theorem set_element_only_target w self row col v :
  wf (heap w) self = true →
  ∃ w', set_element self row col v w = Ok () w'
        ∧ (∀ r c, (r, c) ≠ (row, col) →
             ∃ x, get_element self r c w = Ok x w
                  ∧ get_element self r c w' = Ok x w')
        ∧ dims (heap w') self = dims (heap w) self.
Proof.
  intros (nr & nc & m & d & Hwf)%wf_spec. destruct w as [h fs]. simpl in *.
  exists (World (set_cell_heap h m d row col v) fs).
  pose proof (set_cell_wf Hwf row col v) as Hwf'.
  split_and!.
  - apply (set_element_run Hwf).
  - intros r c Hne. exists (value_at h self r c). split.
    + apply (get_element_run Hwf).
    + rewrite (get_element_run Hwf'). unfold value_at.
      by rewrite (set_cell_other Hwf).
  - simpl. by rewrite (dims_wf Hwf), (dims_wf Hwf').
Qed.

Lemma set_element_only_target_witness :
  ∃ w', set_element 0%nat 1 1 9 demo = Ok () w'
        ∧ (∀ r c, (r, c) ≠ (1, 1) →
             ∃ x, get_element 0%nat r c demo = Ok x demo
                  ∧ get_element 0%nat r c w' = Ok x w')
        ∧ dims (heap w') 0%nat = dims (heap demo) 0%nat.
Proof. apply (set_element_only_target demo 0%nat 1 1 9). reflexivity. Defined.

(** C3: for [A] and [B] of equal dimensions [(r, c)] and every position
    with [0 <= i < r] and [0 <= j < c], [A.add(B).get_element(i, j)] is
    [A.get_element(i, j) + B.get_element(i, j)]. *)
Theorem add_pointwise w a b r c :
  wf (heap w) a = true → wf (heap w) b = true →
  dims (heap w) a = Some (r, c) → dims (heap w) b = Some (r, c) →
  ∃ res w', add a b w = Ok res w'
    ∧ ∀ i j, 0 ≤ i < r → 0 ≤ j < c →
        ∃ x y, get_element a i j w' = Ok x w'
               ∧ get_element b i j w' = Ok y w'
               ∧ get_element res i j w' = Ok (x + y) w'.
Proof.
  intros Ha Hb Hda Hdb. destruct w as [h fs]. simpl in *.
  destruct (wf_dims _ _ _ _ Ha Hda) as (ma & da & Hwa).
  destruct (wf_dims _ _ _ _ Hb Hdb) as (mb & db & Hwb).
  destruct (combine_run Z.add fs Hwa Hwb) as (h' & m & d & Hrun & Ho & Hf).
  exists (length h), (World h' fs). split; [by rewrite add_grid|].
  intros i j Hi Hj.
  exists (value_at h a i j), (value_at h b i j). split_and!.
  - rewrite (get_element_run (keeps_wf_at _ _ _ _ _ _ _ (own_keeps Ho) Hwa)).
    by rewrite (keeps_value_at _ _ _ _ _ _ _ i j (own_keeps Ho) Hwa).
  - rewrite (get_element_run (keeps_wf_at _ _ _ _ _ _ _ (own_keeps Ho) Hwb)).
    by rewrite (keeps_value_at _ _ _ _ _ _ _ i j (own_keeps Ho) Hwb).
  - rewrite (get_element_run (own_wf Ho)). unfold value_at at 1.
    destruct (Hf i j) as [Hc _]. by rewrite Hc.
Qed.

Lemma add_pointwise_witness :
  ∃ res w', add 0%nat 4%nat demo = Ok res w'
    ∧ ∀ i j, 0 ≤ i < 2 → 0 ≤ j < 2 →
        ∃ x y, get_element 0%nat i j w' = Ok x w'
               ∧ get_element 4%nat i j w' = Ok y w'
               ∧ get_element res i j w' = Ok (x + y) w'.
Proof. apply (add_pointwise demo 0%nat 4%nat 2 2); reflexivity. Defined.

(** C7: whatever the dimensions of the two operands, [add] and [subtract]
    check nothing and return an instance with the dimensions of [self] in
    which every cell of the grid [0, numRows) x [0, numCols) is stored
    explicitly, zeros included; where [other_matrix] stores nothing it is
    read as zero. *)
Theorem add_subtract_dense w a b nr nc :
  wf (heap w) a = true → wf (heap w) b = true →
  dims (heap w) a = Some (nr, nc) →
  (∃ res w', add a b w = Ok res w'
     ∧ dims (heap w') res = Some (nr, nc)
     ∧ ∀ i j, 0 ≤ i < nr → 0 ≤ j < nc →
         cell (heap w') res i j
         = Some (value_at (heap w) a i j + value_at (heap w) b i j)
         ∧ (cell (heap w) b i j = None →
            cell (heap w') res i j = Some (value_at (heap w) a i j)))
  ∧ (∃ res w', subtract a b w = Ok res w'
     ∧ dims (heap w') res = Some (nr, nc)
     ∧ ∀ i j, 0 ≤ i < nr → 0 ≤ j < nc →
         cell (heap w') res i j
         = Some (value_at (heap w) a i j - value_at (heap w) b i j)
         ∧ (cell (heap w) b i j = None →
            cell (heap w') res i j = Some (value_at (heap w) a i j))).
Proof.
  intros Ha Hb Hda. destruct w as [h fs]. simpl in *.
  destruct (wf_dims _ _ _ _ Ha Hda) as (ma & da & Hwa).
  apply wf_spec in Hb as (br & bc & mb & db & Hwb).
  split.
  - destruct (combine_run Z.add fs Hwa Hwb) as (h' & m & d & Hrun & Ho & Hf).
    exists (length h), (World h' fs). split_and!; [by rewrite add_grid|..].
    + apply (dims_wf (own_wf Ho)).
    + intros i j Hi Hj. simpl. destruct (Hf i j) as [Hc _].
      rewrite Hc by done. split; [done|]. intros Hn. unfold value_at. rewrite Hn. simpl. by rewrite Z.add_0_r.
  - destruct (combine_run Z.sub fs Hwa Hwb) as (h' & m & d & Hrun & Ho & Hf).
    exists (length h), (World h' fs). split_and!; [by rewrite subtract_grid|..].
    + apply (dims_wf (own_wf Ho)).
    + intros i j Hi Hj. simpl. destruct (Hf i j) as [Hc _].
      rewrite Hc by done. split; [done|]. intros Hn. unfold value_at. rewrite Hn. simpl. by rewrite Z.sub_0_r.
Qed.

Lemma add_subtract_dense_witness :
  (∃ res w', add 0%nat 8%nat demo = Ok res w'
     ∧ dims (heap w') res = Some (2, 2)
     ∧ ∀ i j, 0 ≤ i < 2 → 0 ≤ j < 2 →
         cell (heap w') res i j
         = Some (value_at (heap demo) 0%nat i j + value_at (heap demo) 8%nat i j)
         ∧ (cell (heap demo) 8%nat i j = None →
            cell (heap w') res i j = Some (value_at (heap demo) 0%nat i j)))
  ∧ (∃ res w', subtract 0%nat 8%nat demo = Ok res w'
     ∧ dims (heap w') res = Some (2, 2)
     ∧ ∀ i j, 0 ≤ i < 2 → 0 ≤ j < 2 →
         cell (heap w') res i j
         = Some (value_at (heap demo) 0%nat i j - value_at (heap demo) 8%nat i j)
         ∧ (cell (heap demo) 8%nat i j = None →
            cell (heap w') res i j = Some (value_at (heap demo) 0%nat i j))).
Proof. apply (add_subtract_dense demo 0%nat 8%nat 2 2); reflexivity. Defined.

(** C4: [multiply] raises its size error exactly when [self.numCols] differs
    from [other_matrix.numRows]; it raises before anything is computed, in
    the state it was called in; when the two are equal it returns. *)
Theorem multiply_guard w a b ar ac br bc :
  wf (heap w) a = true → wf (heap w) b = true →
  dims (heap w) a = Some (ar, ac) → dims (heap w) b = Some (br, bc) →
  (ac ≠ br → multiply a b w = Raise IncompatibleSizes w)
  ∧ (ac = br → ∃ res w', multiply a b w = Ok res w').
Proof.
  intros Ha Hb Hda Hdb. destruct w as [h fs]. simpl in *.
  destruct (wf_dims _ _ _ _ Ha Hda) as (ma & da & Hwa).
  destruct (wf_dims _ _ _ _ Hb Hdb) as (mb & db & Hwb).
  split.
  - apply (multiply_raise fs Hwa Hwb).
  - intros Heq.
    destruct (multiply_run fs Hwa Hwb Heq) as (h' & m & d & Hrun & _).
    by exists (length h), (World h' fs).
Qed.

Lemma multiply_guard_witness :
  (2 ≠ 3 → multiply 0%nat 8%nat demo = Raise IncompatibleSizes demo)
  ∧ (2 = 3 → ∃ res w', multiply 0%nat 8%nat demo = Ok res w').
Proof. apply (multiply_guard demo 0%nat 8%nat 2 2 3 2); reflexivity. Defined.

Lemma keeps_unchanged h h' fs fs' a :
  keeps h h' → wf h a = true → unchanged (World h fs) (World h' fs') a.
Proof.
  intros Hk Hwf. pose proof Hwf as (nr & nc & m & d & Hat)%wf_spec.
  pose proof (keeps_wf_at _ _ _ _ _ _ _ Hk Hat) as Hat'.
  unfold unchanged. simpl. split_and!.
  - by rewrite (dims_wf Hat), (dims_wf Hat').
  - by eapply keeps_entries.
  - by rewrite (footprint_wf _ _ _ _ _ _ Hat), (footprint_wf _ _ _ _ _ _ Hat').
  - intros l Hl. apply Hk. by eapply footprint_lt.
Qed.

Lemma owned_result_is_new h h' fs res nr nc m d a b :
  owned h h' res nr nc m d → wf h a = true → wf h b = true →
  result_is_new (World h fs) a b (Ok res (World h' fs)).
Proof.
  intros Ho Ha Hb. simpl.
  assert (∀ l, l ∈ footprint h' res → (length h ≤ l)%nat) as Hnew.
  { intros l. rewrite (footprint_wf _ _ _ _ _ _ (own_wf Ho)), !elem_of_cons.
    intros [->|[->|Hl]].
    - apply (own_self Ho).
    - apply (own_store Ho).
    - by apply (own_rows Ho). }
  pose proof (keeps_unchanged _ _ fs fs _ (own_keeps Ho) Ha) as Hua.
  pose proof (keeps_unchanged _ _ fs fs _ (own_keeps Ho) Hb) as Hub.
  pose proof Hua as (_ & _ & Hfa & _). pose proof Hub as (_ & _ & Hfb & _).
  simpl in Hfa, Hfb.
  split_and!; try done.
  - by apply keeps_take, (own_keeps Ho).
  - apply lookup_ge_None, (own_self Ho).
  - by eapply wf_at_wf, (own_wf Ho).
  - intros l Hl%Hnew. split_and!.
    + by apply lookup_ge_None.
    + rewrite Hfa. intros Hin%footprint_lt; [lia|done].
    + rewrite Hfb. intros Hin%footprint_lt; [lia|done].
Qed.

(** C9: [add], [subtract] and [multiply] return a newly constructed
    instance and leave both operands as they were: [numRows], [numCols] and
    the whole entry store of each operand are the same before and after the
    call, and the result shares no dict with an operand.  [add] and
    [subtract] always return; [multiply] returns or raises in an unchanged
    world. *)
Theorem operands_unchanged w a b :
  wf (heap w) a = true → wf (heap w) b = true →
  (∃ res w', add a b w = Ok res w')
  ∧ result_is_new w a b (add a b w)
  ∧ (∃ res w', subtract a b w = Ok res w')
  ∧ result_is_new w a b (subtract a b w)
  ∧ result_is_new w a b (multiply a b w).
Proof.
  intros Ha Hb. destruct w as [h fs]. simpl in *.
  pose proof Ha as (ar & ac & ma & da & Hwa)%wf_spec.
  pose proof Hb as (br & bc & mb & db & Hwb)%wf_spec.
  destruct (combine_run Z.add fs Hwa Hwb) as (h1 & m1 & d1 & Hadd & Ho1 & _).
  destruct (combine_run Z.sub fs Hwa Hwb) as (h2 & m2 & d2 & Hsub & Ho2 & _).
  rewrite add_grid, subtract_grid, Hadd, Hsub. split_and!.
  - by eexists _, _.
  - by eapply owned_result_is_new.
  - by eexists _, _.
  - by eapply owned_result_is_new.
  - destruct (decide (ac = br)) as [Heq|Hne].
    + destruct (multiply_run fs Hwa Hwb Heq) as (h3 & m3 & d3 & -> & Ho3).
      by eapply owned_result_is_new.
    + by rewrite (multiply_raise fs Hwa Hwb Hne).
Qed.

Lemma operands_unchanged_witness :
  (∃ res w', add 0%nat 4%nat demo = Ok res w')
  ∧ result_is_new demo 0%nat 4%nat (add 0%nat 4%nat demo)
  ∧ (∃ res w', subtract 0%nat 4%nat demo = Ok res w')
  ∧ result_is_new demo 0%nat 4%nat (subtract 0%nat 4%nat demo)
  ∧ result_is_new demo 0%nat 4%nat (multiply 0%nat 4%nat demo).
Proof. apply (operands_unchanged demo 0%nat 4%nat); reflexivity. Defined.

(** ** Construction from a file *)

Lemma bind_inv {A B} (m : M A) (f : A → M B) w b w'' :
  (m ≫= f) w = Ok b w'' → ∃ a w', m w = Ok a w' ∧ f a w' = Ok b w''.
Proof.
  unfold mbind, M_bind. destruct (m w) as [a w'|e w']; [|done].
  intros H. by exists a, w'.
Qed.

Lemma load_obj_inv l w o w' :
  load_obj l w = Ok o w' → w' = w ∧ heap w !! l = Some o.
Proof.
  unfold load_obj. destruct (heap w !! l); [|done]. by intros [= -> ->].
Qed.

Lemma load_instance_inv l w i w' :
  load_instance l w = Ok i w' → w' = w ∧ heap w !! l = Some (Object i).
Proof.
  intros (o & w1 & [-> Ho]%load_obj_inv & H)%bind_inv.
  destruct o; try done. by injection H as -> ->.
Qed.

Lemma load_store_inv l w d w' :
  load_store l w = Ok d w' → w' = w ∧ heap w !! l = Some (StoreDict d).
Proof.
  intros (o & w1 & [-> Ho]%load_obj_inv & H)%bind_inv.
  destruct o; try done. by injection H as -> ->.
Qed.

Lemma load_row_inv l w d w' :
  load_row l w = Ok d w' → w' = w ∧ heap w !! l = Some (RowDict d).
Proof.
  intros (o & w1 & [-> Ho]%load_obj_inv & H)%bind_inv.
  destruct o; try done. by injection H as -> ->.
Qed.

Lemma attr_inv {A} (f : instance → option A) self w a w' :
  attr f self w = Ok a w' →
  w' = w ∧ ∃ i, heap w !! self = Some (Object i) ∧ f i = Some a.
Proof.
  intros (i & w1 & [-> Hi]%load_instance_inv & H)%bind_inv.
  destruct (f i) eqn:Hf; [|done]. injection H as -> ->. eauto.
Qed.

(** What [__init__] reads back is the logical value at [(0, col)]. *)
Lemma matrix_get_0_inv self col w x w' :
  matrix_get_0 self col w = Ok x w' →
  w' = w ∧ x = value_at (heap w) self 0 col.
Proof.
  intros (m & w1 & [-> (i & Hi & Hm)]%attr_inv & H)%bind_inv.
  apply bind_inv in H as (d & w1 & [-> Hd]%load_store_inv & H).
  unfold value_at, cell, store_cell, store_of. rewrite Hi, Hm, Hd. simpl.
  destruct (dict_get 0 d) as [r|]; simpl.
  - apply bind_inv in H as (rd & w1 & [-> Hrd]%load_row_inv & H).
    injection H as <- <-. unfold row_of. by rewrite Hrd.
  - by injection H as <- <-.
Qed.

(** Assigning [numRows] or [numCols] changes no entry. *)
Lemma cell_update_attrs h self i i' a row col :
  h !! self = Some (Object i) → matrix i' = matrix i →
  cell (<[self := Object i']> h) a row col = cell h a row col.
Proof.
  intros Hi Hm. pose proof (lookup_lt_Some _ _ _ Hi) as Hlt.
  assert (∀ l, match <[self := Object i']> h !! l with
               | Some (StoreDict d) => Some d | _ => None end
               = match h !! l with Some (StoreDict d) => Some d | _ => None end)
    as Hst.
  { intros l. destruct (decide (l = self)) as [->|Hne].
    - by rewrite list_lookup_insert_eq, Hi.
    - by rewrite list_lookup_insert_ne. }
  assert (∀ l, row_of (<[self := Object i']> h) l = row_of h l) as Hrow.
  { intros l. unfold row_of. destruct (decide (l = self)) as [->|Hne].
    - by rewrite list_lookup_insert_eq, Hi.
    - by rewrite list_lookup_insert_ne. }
  assert (store_of (<[self := Object i']> h) a = store_of h a) as Hs.
  { unfold store_of. destruct (decide (a = self)) as [->|Hne].
    - rewrite list_lookup_insert_eq, Hi, Hm by done.
      destruct (matrix i); [apply Hst | done].
    - rewrite list_lookup_insert_ne by done.
      destruct (h !! a) as [[| |j]|]; try done.
      destruct (matrix j); [apply Hst | done]. }
  unfold cell, store_cell. rewrite Hs.
  destruct (store_of h a) as [d|]; simpl; [|done].
  destruct (dict_get row d); simpl; [|done]. by rewrite Hrow.
Qed.

Lemma set_numRows_inv self v w w' :
  set_numRows self v w = Ok () w' →
  ∃ i, heap w !! self = Some (Object i)
       ∧ w' = World (<[self := Object (Instance_ (Some v) (numCols i) (matrix i))]>
                       (heap w)) (files w).
Proof.
  intros (i & w1 & [-> Hi]%load_instance_inv & H)%bind_inv.
  exists i. split; [done|]. unfold store_obj in H. by injection H as <-.
Qed.

Lemma set_numCols_inv self v w w' :
  set_numCols self v w = Ok () w' →
  ∃ i, heap w !! self = Some (Object i)
       ∧ w' = World (<[self := Object (Instance_ (numRows i) (Some v) (matrix i))]>
                       (heap w)) (files w).
Proof.
  intros (i & w1 & [-> Hi]%load_instance_inv & H)%bind_inv.
  exists i. split; [done|]. unfold store_obj in H. by injection H as <-.
Qed.

(** C2: after a construction from a file has succeeded, [numRows] is the
    value stored at position (0, 0), or 0 when nothing is stored there, and
    [numCols] is the value stored at (0, 1), or 0; the header's values,
    which [load_matrix] had assigned, are overwritten. *)
Theorem file_mode_dimensions w path nr0 nc0 self w' :
  path ≠ "" →
  SparseMatrix (Some path) nr0 nc0 w = Ok self w' →
  dims (heap w') self
  = Some (value_at (heap w') self 0 0, value_at (heap w') self 0 1).
Proof.
  intros Hp Hrun. destruct path as [|c p]; [done|].
  apply bind_inv in Hrun as (self' & w1 & _ & H).
  apply bind_inv in H as ([] & w2 & H & Hret). injection Hret as -> ->.
  unfold __init__ in H.
  apply bind_inv in H as (m & w3 & _ & H).
  apply bind_inv in H as ([] & w4 & _ & H).
  apply bind_inv in H as (r & w5 & [-> ->]%matrix_get_0_inv & H).
  apply bind_inv in H as ([] & w6 & (i & Hi & ->)%set_numRows_inv & H).
  apply bind_inv in H as (c' & w7 & [-> ->]%matrix_get_0_inv & H).
  apply set_numCols_inv in H as (j & Hj & ->). simpl in *.
  pose proof (lookup_lt_Some _ _ _ Hi) as Hlt.
  rewrite list_lookup_insert_eq in Hj by done. injection Hj as <-. simpl.
  unfold dims. rewrite list_lookup_insert_eq by (by rewrite length_insert).
  simpl. unfold value_at. f_equal. f_equal.
  - erewrite cell_update_attrs; [| by apply list_lookup_insert_eq | done].
    by erewrite !cell_update_attrs.
  - erewrite (cell_update_attrs (<[self:=_]> (heap w4)));
      [| by apply list_lookup_insert_eq | done].
    done.
Qed.

(** ** The scenario of the specification *)

Lemma file_mode_dimensions_witness :
  ∃ w', SparseMatrix (Some "A.txt") 0 0 scenario = Ok 0%nat w'
        ∧ dims (heap w') 0%nat
          = Some (value_at (heap w') 0%nat 0 0, value_at (heap w') 0%nat 0 1)
        ∧ dims (heap w') 0%nat = Some (1, 2).
Proof.
  eexists. split; [reflexivity|]. split; [|reflexivity].
  apply (file_mode_dimensions scenario "A.txt" 0 0); [done | reflexivity].
Defined.

(** C1, evaluated on the code: with the two files of the scenario, [A] is
    built with dimensions (1, 2) and [B] with dimensions (5, 0), the values
    of their entries at (0, 0) and (0, 1), although both headers say 2 and
    2.  Hence [A.add(B)] holds the two entries of row 0 only, and
    [A.multiply(B)] raises the size error; the four entries of each file are
    loaded as written. *)
Theorem scenario_on_the_code :
  ∃ a b w,
    load_A_B scenario = Ok (a, b) w
    ∧ entries (heap w) a = [(0, 0, 1); (0, 1, 2); (1, 0, 3); (1, 1, 4)]
    ∧ entries (heap w) b = [(0, 0, 5); (1, 1, 6)]
    ∧ dims (heap w) a = Some (1, 2)
    ∧ dims (heap w) b = Some (5, 0)
    ∧ (∃ r w', add a b w = Ok r w'
               ∧ dims (heap w') r = Some (1, 2)
               ∧ entries (heap w') r = [(0, 0, 6); (0, 1, 2)])
    ∧ multiply a b w = Raise IncompatibleSizes w.
Proof.
  eexists _, _, _. split; [vm_compute; reflexivity|].
  split_and!; try reflexivity.
  eexists _, _. split; [vm_compute; reflexivity|]. split; reflexivity.
Qed.

(** With the dimensions of the headers assigned by hand ([A.numRows = 2] and
    so on), the methods give what the scenario expects: the overwrite in
    [__init__] is the only reason for the results above. *)
Lemma scenario_with_header_dimensions :
  ∃ a b w,
    (ab ← load_A_B;
     set_numRows ab.1 2;; set_numCols ab.1 2;;
     set_numRows ab.2 2;; set_numCols ab.2 2;; mret ab) scenario = Ok (a, b) w
    ∧ (∃ r w', add a b w = Ok r w'
               ∧ entries (heap w') r = [(0, 0, 6); (0, 1, 2); (1, 0, 3); (1, 1, 10)])
    ∧ (∃ r w', multiply a b w = Ok r w'
               ∧ entries (heap w') r = [(0, 0, 5); (0, 1, 12); (1, 0, 15); (1, 1, 24)]).
Proof.
  eexists _, _, _. split; [vm_compute; reflexivity|].
  split; eexists _, _; (split; [vm_compute; reflexivity | reflexivity]).
Qed.

(** ** Saving and loading again *)

(** C5, evaluated on the code: the file holds the dimensions (2, 2) and the
    two entries, the matrix constructed from it has the same entries but the
    dimensions (7, 0): the value at (0, 0) and the absent value at (0, 1). *)
Theorem round_trip_on_the_code :
  ∃ m m' w,
    save_and_reload (World [] (Fsys (λ _, None) (λ _, true))) = Ok (m, m') w
    ∧ files w "out.txt" = Some "rows=2
cols=2
(0, 0, 7)
(1, 1, 3)
"
    ∧ dims (heap w) m = Some (2, 2)
    ∧ entries (heap w) m = [(0, 0, 7); (1, 1, 3)]
    ∧ entries (heap w) m' = [(0, 0, 7); (1, 1, 3)]
    ∧ dims (heap w) m' = Some (7, 0).
Proof.
  eexists _, _, _. split; [vm_compute; reflexivity|].
  split_and!; reflexivity.
Qed.

(** ** Malformed files *)

Lemma raises_bind_l {A B} (m : M A) (f : A → M B) w :
  raises m w → raises (m ≫= f) w.
Proof. intros (e & w' & H). exists e, w'. by apply bind_raise. Qed.

Lemma raises_bind_r {A B} (m : M A) (f : A → M B) w :
  (∀ a w', m w = Ok a w' → raises (f a) w') → raises (m ≫= f) w.
Proof.
  intros H. destruct (m w) as [a w'|e w'] eqn:Hm.
  - destruct (H a w' eq_refl) as (e & w'' & Hf). exists e, w''.
    by rewrite (bind_ok _ _ _ _ _ Hm).
  - exists e, w'. by apply bind_raise.
Qed.

Lemma bind_raise_inv {A B} (m : M A) (f : A → M B) w e w'' :
  (m ≫= f) w = Raise e w'' →
  m w = Raise e w'' ∨ ∃ a w', m w = Ok a w' ∧ f a w' = Raise e w''.
Proof.
  unfold mbind, M_bind. destruct (m w) as [a w'|e' w']; intros H.
  - right. by exists a, w'.
  - injection H as -> ->. by left.
Qed.

Lemma try_except_raise {A} (b : M A) (h : exn → M A) w e w' :
  b w = Raise e w' → try_except b h w = h e w'.
Proof. unfold try_except. by intros ->. Qed.

Lemma raises_try_except {A} (b : M A) (h : exn → M A) w :
  raises b w → (∀ e w', raises (h e) w') → raises (try_except b h) w.
Proof.
  intros (e & w' & H) Hh. unfold raises.
  rewrite (try_except_raise _ _ _ _ _ H). apply Hh.
Qed.

(** A loop raises as soon as the body raises for one element, whatever the
    state it is reached in. *)
Lemma for_raises {A} (l : list A) (body : A → M unit) x :
  x ∈ l → (∀ w, raises (body x) w) → ∀ w, raises (for_ l body) w.
Proof.
  intros Hx Hbody. induction l as [|y l IH]; [by apply elem_of_nil in Hx|].
  intros w. simpl. apply elem_of_cons in Hx as [<-|Hx].
  - apply raises_bind_l, Hbody.
  - apply raises_bind_r. intros _ w' _. by apply IH.
Qed.

Lemma field_raises (fields : list string) (i : nat) {B} (k : Z → M B) w :
  (∀ f, fields !! i = Some f → int f = None) →
  raises (f ← index fields i; v ← int_ f; k v) w.
Proof.
  intros Hbad. unfold index, int_. destruct (fields !! i) as [f|] eqn:Hf.
  - apply raises_bind_r. intros f' w' [= <- <-].
    apply raises_bind_l. rewrite (Hbad f eq_refl). by eexists _, _.
  - apply raises_bind_l. by eexists _, _.
Qed.

Lemma parse_entry_raises line w :
  (∃ i, (i < 3)%nat ∧ ∀ f, entry_fields line !! i = Some f → int f = None) →
  raises (parse_entry line) w.
Proof.
  intros (i & Hi & Hbad). unfold parse_entry. fold (entry_fields line).
  destruct i as [|[|[|i]]]; [..|lia].
  - by apply field_raises.
  - apply raises_bind_r. intros e0 w0 _. apply raises_bind_r. intros r w1 _.
    by apply field_raises.
  - apply raises_bind_r. intros e0 w0 _. apply raises_bind_r. intros r w1 _.
    apply raises_bind_r. intros e1 w2 _. apply raises_bind_r. intros c w3 _.
    by apply field_raises.
Qed.

Lemma load_line_raises matrix line w :
  bad_entry line → raises (load_line matrix line) w.
Proof.
  intros [Hblank Hbad]. unfold load_line.
  destruct (strip line) eqn:Hs; [done|].
  apply raises_bind_l. by apply parse_entry_raises.
Qed.

(** Whatever is raised while a file is read is raised again as the one
    wrong-format error that wraps it. *)
Lemma load_matrix_uniform self path w e w' :
  load_matrix self path w = Raise e w' → ∃ cause, e = WrongFormat cause.
Proof.
  unfold load_matrix.
  intros [H|(m & w1 & _ & [H|(u & w2 & _ & H)]%bind_raise_inv)]%bind_raise_inv;
    try done.
  unfold try_except, raise in H.
  match type of H with match ?b with _ => _ end = _ =>
    destruct b as [[] w3|e1 w3] end; [done|].
  injection H as <- <-. by exists e1.
Qed.

Lemma load_matrix_raises self path w :
  (files w path = None ∨ ∃ text, files w path = Some text ∧ bad_text text) →
  ∃ cause w', load_matrix self path w = Raise (WrongFormat cause) w'.
Proof.
  intros Hbad.
  enough (raises (load_matrix self path) w) as (e & w' & H).
  { destruct (load_matrix_uniform _ _ _ _ _ H) as [cause ->]. eauto. }
  unfold load_matrix. apply raises_bind_r. intros m w1 [= <- <-].
  apply raises_bind_l.
  apply raises_try_except; [|intros e w2; by eexists _, _].
  destruct Hbad as [Hnone|(text & Htext & Hbad)].
  - apply raises_bind_l. unfold raises, open_r. simpl. rewrite Hnone.
    by eexists _, _.
  - apply raises_bind_r. unfold open_r. simpl. rewrite Htext.
    intros file w2 [= <- <-].
    destruct Hbad as [H1|[H2|(line & Hin & Hline)]].
    + destruct (readlines text) as [|l1 ls]; simpl in *; by apply field_raises.
    + destruct (readlines text) as [|l1 [|l2 ls]]; simpl in *;
        (apply raises_bind_r; intros f1 w3 _; apply raises_bind_r; intros rows w4 _;
         by apply field_raises).
    + destruct (readlines text) as [|l1 [|l2 ls]]; simpl in *;
        try by apply elem_of_nil in Hin.
      apply raises_bind_r; intros f1 w3 _; apply raises_bind_r; intros rows w4 _.
      apply raises_bind_r; intros f2 w5 _; apply raises_bind_r; intros cols w6 _.
      apply raises_bind_r; intros [] w7 _. apply raises_bind_r; intros [] w8 _.
      eapply for_raises; [done|]. intros w9. by apply load_line_raises.
Qed.

(** ** Readable files *)

Lemma field_run (fields : list string) (i : nat) {B} (k : Z → M B) w :
  (f ← index fields i; v ← int_ f; k v) w
  = match field_int fields i with inl e => Raise e w | inr z => k z w end.
Proof.
  unfold field_int, index, int_, mbind, M_bind.
  destruct (fields !! i) as [f|]; [|done]. simpl. by destruct (int f).
Qed.

Lemma parse_entry_run line w :
  parse_entry line w
  = match entry_value line with inl e => Raise e w | inr t => Ok t w end.
Proof.
  unfold parse_entry, entry_value. fold (entry_fields line).
  rewrite field_run. destruct (field_int _ 0) as [e|row]; [done|].
  rewrite field_run. destruct (field_int _ 1) as [e|col]; [done|].
  rewrite field_run. by destruct (field_int _ 2) as [e|value].
Qed.

Section load_line.
Context {h : list obj} {m : loc} {d : dict loc}.
Context (Hst : wf_store_at h m d).
Context (fs : fsys).

Lemma load_store_st : load_store m (World h fs) = Ok d (World h fs).
Proof.
  unfold load_store, load_obj, mbind, M_bind. simpl.
  by rewrite (st_store Hst).
Qed.

(** The two statements that enter a parsed entry in the dict. *)
Lemma enter_run row col v :
  (d0 ← load_store m;
   (if dict_mem row d0 then mret ()
    else (r ← new (RowDict []);
          d1 ← load_store m;
          store_obj m (StoreDict (dict_set row r d1))));;
   d2 ← load_store m;
   match dict_get row d2 with
   | None => raise KeyError
   | Some r => rd ← load_row r; store_obj r (RowDict (dict_set col v rd))
   end) (World h fs)
  = Ok () (World (set_cell_heap h m d row col v) fs).
Proof.
  unfold set_cell_heap.
  rewrite (bind_ok _ _ _ _ _ load_store_st).
  unfold dict_mem. destruct (dict_get row d) as [r|] eqn:Hrow.
  - destruct (st_row_lookup Hst _ _ Hrow) as (rd & Hr & _).
    unfold mbind at 1, M_bind at 1. simpl.
    rewrite (bind_ok _ _ _ _ _ load_store_st).
    rewrite Hrow. unfold load_row, load_obj, row_of, store_obj, mbind, M_bind.
    simpl. by rewrite Hr.
  - pose proof (st_store_lt Hst).
    unfold load_store, load_row, load_obj, store_obj, new, mbind, M_bind. simpl.
    rewrite (lookup_app_l _ _ m) by done. rewrite (st_store Hst). simpl.
    rewrite list_lookup_insert_eq by (rewrite length_app; simpl; lia).
    unfold mret, M_ret. simpl. rewrite dict_get_set_eq. simpl.
    rewrite list_lookup_insert_ne by lia.
    rewrite lookup_app_r by lia. rewrite Nat.sub_diag. simpl.
    f_equal. f_equal.
    rewrite insert_app_l by done.
    rewrite insert_app_r_alt by (rewrite length_insert; lia).
    rewrite length_insert, Nat.sub_diag. done.
Qed.

Lemma load_line_run line :
  load_line m line (World h fs)
  = match strip line with
    | "" => Ok () (World h fs)
    | _ =>
        match entry_value line with
        | inr (row, col, v) => Ok () (World (set_cell_heap h m d row col v) fs)
        | inl e => Raise e (World h fs)
        end
    end.
Proof.
  unfold load_line. destruct (strip line) as [|c s]; [done|].
  unfold mbind at 1, M_bind at 1. rewrite parse_entry_run.
  destruct (entry_value line) as [e|[[row col] v]]; [done|].
  apply enter_run.
Qed.
End load_line.

Lemma load_lines_run h m d fs ls :
  wf_store_at h m d →
  for_ ls (load_line m) (World h fs)
  = match load_lines h m d ls with
    | (None, (h', _)) => Ok () (World h' fs)
    | (Some e, (h', _)) => Raise e (World h' fs)
    end.
Proof.
  revert h d. induction ls as [|line ls IH]; intros h d Hst; simpl; [done|].
  unfold mbind, M_bind. rewrite (load_line_run Hst).
  destruct (strip line) as [|c s]; [by apply IH|].
  destruct (entry_value line) as [e|[[row col] v]]; [done|].
  apply IH, set_cell_st, Hst.
Qed.

Lemma loading_self_not_row hb h self i m d :
  loading hb h self i m d → self ≠ m ∧ self ∉ d.*2.
Proof.
  intros Hl. pose proof (ld_self Hl) as Hs. split.
  - intros ->. pose proof (st_store (ld_st Hl)). congruence.
  - intros (rd & Hr & _)%(st_rows (ld_st Hl)). congruence.
Qed.

Lemma loading_set_cell hb h self i m d row col v :
  loading hb h self i m d →
  loading hb (set_cell_heap h m d row col v) self i m (set_cell_store h d row).
Proof.
  intros Hl. pose proof (keeps_length _ _ (ld_keeps Hl)) as Hlen.
  destruct (loading_self_not_row _ _ _ _ _ _ Hl) as [Hsm Hsr].
  split.
  - intros l Hlt. rewrite <- (ld_keeps Hl l Hlt).
    apply set_cell_frame; [| |lia].
    + pose proof (ld_store_new Hl). lia.
    + intros Hin%(ld_rows_new Hl). lia.
  - rewrite set_cell_frame; [apply (ld_self Hl)|done..|].
    eapply lookup_lt_Some, (ld_self Hl).
  - apply set_cell_st, (ld_st Hl).
  - apply (ld_self_new Hl).
  - apply (ld_store_new Hl).
  - intros r [Hr| ->]%set_cell_store_rows; [by apply (ld_rows_new Hl)|done].
Qed.

Lemma load_lines_loading hb self i m ls h d :
  loading hb h self i m d →
  loading hb (load_lines h m d ls).2.1 self i m (load_lines h m d ls).2.2.
Proof.
  revert h d. induction ls as [|line ls IH]; intros h d Hl; simpl; [done|].
  destruct (strip line) as [|c s]; [by apply IH|].
  destruct (entry_value line) as [e|[[row col] v]]; [done|].
  by apply IH, loading_set_cell.
Qed.

(** Assigning an attribute of the instance under construction. *)
Lemma loading_set_attr hb h self i i' m d :
  loading hb h self i m d →
  loading hb (<[self := Object i']> h) self i' m d.
Proof.
  intros Hl. destruct (loading_self_not_row _ _ _ _ _ _ Hl) as [Hsm Hsr].
  pose proof (lookup_lt_Some _ _ _ (ld_self Hl)) as Hlt.
  split.
  - intros l Hl'. rewrite list_lookup_insert_ne; [by apply (ld_keeps Hl)|].
    pose proof (ld_self_new Hl). lia.
  - by apply list_lookup_insert_eq.
  - destruct (ld_st Hl) as [Hm Hr Hnd Hk]. split; try done.
    + by rewrite list_lookup_insert_ne.
    + intros r Hin. rewrite list_lookup_insert_ne; [by apply Hr|].
      by intros <-.
  - apply (ld_self_new Hl).
  - apply (ld_store_new Hl).
  - apply (ld_rows_new Hl).
Qed.

Lemma loading_owned hb h self nr nc m d :
  loading hb h self (Instance_ (Some nr) (Some nc) (Some m)) m d →
  owned hb h self nr nc m d.
Proof.
  intros Hl. split.
  - apply (ld_keeps Hl).
  - apply wf_at_intro; [apply (ld_self Hl) | apply (ld_st Hl)].
  - apply (ld_self_new Hl).
  - apply (ld_store_new Hl).
  - apply (ld_rows_new Hl).
Qed.

(** [load_matrix], run: the outer dict is allocated, the headers are read
    and assigned, the data lines are entered; any exception on the way
    comes out wrapped. *)
Lemma load_matrix_run h fs self i path :
  h !! self = Some (Object i) →
  load_matrix self path (World h fs)
  = let h1 := h ++ [StoreDict []] in
    match fs path with
    | None => Raise (WrongFormat FileNotFoundError) (World h1 fs)
    | Some text =>
        let (l1, file) := readline (readlines text) in
        match header_value l1 with
        | inl e => Raise (WrongFormat e) (World h1 fs)
        | inr rows =>
            let (l2, file) := readline file in
            match header_value l2 with
            | inl e => Raise (WrongFormat e) (World h1 fs)
            | inr cols =>
                let h2 := <[self := Object (Instance_ (Some rows) (Some cols)
                                              (matrix i))]> h1 in
                match load_lines h2 (length h) [] file with
                | (None, (h', _)) => Ok (length h) (World h' fs)
                | (Some e, (h', _)) => Raise (WrongFormat e) (World h' fs)
                end
            end
        end
    end.
Proof.
  intros Hs. pose proof (lookup_lt_Some _ _ _ Hs) as Hlt.
  unfold load_matrix. unfold new at 1. unfold mbind at 1, M_bind at 1. simpl.
  unfold mbind at 1, M_bind at 1. unfold try_except.
  unfold open_r at 1. unfold mbind at 1, M_bind at 1. simpl.
  destruct (fs path) as [text|]; [|done].
  destruct (readline (readlines text)) as [l1 file1].
  unfold header_value. rewrite field_run.
  destruct (field_int (split "=" l1) 1) as [e|rows]; [done|].
  destruct (readline file1) as [l2 file2].
  rewrite field_run.
  destruct (field_int (split "=" l2) 1) as [e|cols]; [done|].
  unfold set_numRows, set_numCols, load_instance, load_obj, store_obj.
  unfold mbind at 1 2 3 4 5 6, M_bind at 1 2 3 4 5 6. simpl.
  rewrite lookup_app_l by done. rewrite Hs. simpl.
  rewrite list_lookup_insert_eq by (rewrite length_app; simpl; lia). simpl.
  rewrite list_insert_insert_eq.
  rewrite (load_lines_run _ (length h) []).
  - by destruct (load_lines _ _ _ _) as [[e|] [h' d']].
  - split.
    + rewrite list_lookup_insert_ne by lia. apply lookup_at_length.
    + by intros r ?%elem_of_nil.
    + apply NoDup_nil_2.
    + apply NoDup_nil_2.
Qed.

Lemma set_numRows_run h fs self i v :
  h !! self = Some (Object i) →
  set_numRows self v (World h fs)
  = Ok () (World (<[self := Object (Instance_ (Some v) (numCols i) (matrix i))]> h) fs).
Proof.
  intros Hs. unfold set_numRows, load_instance, load_obj, store_obj, mbind, M_bind.
  simpl. by rewrite Hs.
Qed.

Lemma set_numCols_run h fs self i v :
  h !! self = Some (Object i) →
  set_numCols self v (World h fs)
  = Ok () (World (<[self := Object (Instance_ (numRows i) (Some v) (matrix i))]> h) fs).
Proof.
  intros Hs. unfold set_numCols, load_instance, load_obj, store_obj, mbind, M_bind.
  simpl. by rewrite Hs.
Qed.

Lemma set_matrix_run h fs self i m :
  h !! self = Some (Object i) →
  set_matrix self m (World h fs)
  = Ok () (World (<[self := Object (Instance_ (numRows i) (numCols i) (Some m))]> h) fs).
Proof.
  intros Hs. unfold set_matrix, load_instance, load_obj, store_obj, mbind, M_bind.
  simpl. by rewrite Hs.
Qed.

Lemma attr_run {A} (f : instance → option A) h self i a fs :
  h !! self = Some (Object i) → f i = Some a →
  attr f self (World h fs) = Ok a (World h fs).
Proof.
  intros Hs Hf. unfold attr, load_instance, load_obj, mbind, M_bind. simpl.
  rewrite Hs. simpl. by rewrite Hf.
Qed.

Lemma matrix_get_0_run hb h fs self i m d col :
  loading hb h self i m d → matrix i = Some m →
  matrix_get_0 self col (World h fs)
  = Ok (default 0 (store_cell h d 0 col)) (World h fs).
Proof.
  intros Hl Hm. unfold matrix_get_0.
  rewrite (bind_ok _ _ _ _ _ (attr_run _ _ _ _ _ fs (ld_self Hl) Hm)).
  rewrite (bind_ok _ _ _ _ _ (load_store_st (ld_st Hl) fs)).
  unfold store_cell. destruct (dict_get 0 d) as [r|] eqn:Hr; simpl; [|done].
  destruct (st_row_lookup (ld_st Hl) _ _ Hr) as (rd & Hrd & _).
  unfold load_row, load_obj, row_of, mbind, M_bind. simpl. by rewrite Hrd.
Qed.

Lemma field_int_inl fields i e :
  field_int fields i = inl e → ∀ f, fields !! i = Some f → int f = None.
Proof.
  unfold field_int. intros H f Hf. rewrite Hf in H. by destruct (int f).
Qed.

Lemma field_int_inr fields i z :
  field_int fields i = inr z → ∃ f, fields !! i = Some f ∧ int f = Some z.
Proof.
  unfold field_int. destruct (fields !! i) as [f|]; [|done].
  destruct (int f) as [z'|] eqn:Hf; [|done]. intros [= <-]. by exists f.
Qed.

Lemma header_value_inl l e : header_value l = inl e → bad_header l.
Proof. unfold header_value, bad_header. apply field_int_inl. Qed.

Lemma header_value_inr l z : header_value l = inr z → ¬ bad_header l.
Proof.
  intros (f & Hf & Hz)%field_int_inr Hbad. specialize (Hbad f Hf). congruence.
Qed.

Lemma entry_value_inl line e :
  entry_value line = inl e →
  ∃ i, (i < 3)%nat ∧ ∀ f, entry_fields line !! i = Some f → int f = None.
Proof.
  unfold entry_value.
  destruct (field_int (entry_fields line) 0) as [e0|row] eqn:H0.
  { intros _. exists 0%nat. split; [lia|]. by eapply field_int_inl. }
  destruct (field_int (entry_fields line) 1) as [e1|col] eqn:H1.
  { intros _. exists 1%nat. split; [lia|]. by eapply field_int_inl. }
  destruct (field_int (entry_fields line) 2) as [e2|v] eqn:H2; [|done].
  intros _. exists 2%nat. split; [lia|]. by eapply field_int_inl.
Qed.

Lemma entry_value_inr line t :
  entry_value line = inr t →
  ¬ ∃ i, (i < 3)%nat ∧ ∀ f, entry_fields line !! i = Some f → int f = None.
Proof.
  unfold entry_value. intros H (i & Hi & Hbad).
  destruct (field_int (entry_fields line) 0) as [e0|row] eqn:H0; [done|].
  destruct (field_int (entry_fields line) 1) as [e1|col] eqn:H1; [done|].
  destruct (field_int (entry_fields line) 2) as [e2|v] eqn:H2; [done|].
  destruct i as [|[|[|i]]]; [..|lia].
  - apply field_int_inr in H0 as (f & Hf & Hz). specialize (Hbad f Hf). congruence.
  - apply field_int_inr in H1 as (f & Hf & Hz). specialize (Hbad f Hf). congruence.
  - apply field_int_inr in H2 as (f & Hf & Hz). specialize (Hbad f Hf). congruence.
Qed.

Lemma good_entry_not_bad line : good_entry line → ¬ bad_entry line.
Proof.
  intros [Hblank|[t Ht]] [Hne Hbad]; [done|]. by eapply entry_value_inr.
Qed.

(** The loop ends without an exception exactly on good lines. *)
Lemma load_lines_None h m d ls :
  (load_lines h m d ls).1 = None → Forall good_entry ls.
Proof.
  revert h d. induction ls as [|line ls IH]; intros h d; simpl; [done|].
  destruct (strip line) as [|c s] eqn:Hs.
  - intros H. constructor; [by left | by eapply IH].
  - destruct (entry_value line) as [e|[[row col] v]] eqn:Hv; [done|].
    intros H. constructor; [right; by eexists | by eapply IH].
Qed.

Lemma load_lines_Some h m d ls e :
  (load_lines h m d ls).1 = Some e → ∃ line, line ∈ ls ∧ bad_entry line.
Proof.
  revert h d. induction ls as [|line ls IH]; intros h d; simpl; [done|].
  destruct (strip line) as [|c s] eqn:Hs.
  - intros (l & Hin & Hbad)%IH. exists l. split; [by right | done].
  - destruct (entry_value line) as [e'|[[row col] v]] eqn:Hv.
    + intros _. exists line. split; [by left|]. split; [by rewrite Hs|].
      by eapply entry_value_inl.
    + intros (l & Hin & Hbad)%IH. exists l. split; [by right | done].
Qed.

Lemma readable_not_bad text : readable text → ¬ bad_text text.
Proof.
  intros ([rows Hr] & [cols Hc] & Hgood) [H1|[H2|(line & Hin & Hbad)]].
  - by apply (header_value_inr _ _ Hr).
  - by apply (header_value_inr _ _ Hc).
  - rewrite Forall_forall in Hgood. by apply (good_entry_not_bad line); [apply Hgood|].
Qed.

Lemma store_cell_update_attrs h self i i' d row col :
  h !! self = Some (Object i) →
  store_cell (<[self := Object i']> h) d row col = store_cell h d row col.
Proof.
  intros Hi. pose proof (lookup_lt_Some _ _ _ Hi) as Hlt.
  unfold store_cell. destruct (dict_get row d) as [r|]; simpl; [|done].
  unfold row_of. destruct (decide (r = self)) as [->|Hne].
  - by rewrite list_lookup_insert_eq, Hi.
  - by rewrite list_lookup_insert_ne.
Qed.

(** The construction from a file, whatever the file: on a readable file it
    returns a new well-formed instance on top of a heap that is kept; on
    any other it raises the wrong-format error, and the heap is kept. *)
Lemma SparseMatrix_file_outcome h fs path a b :
  path ≠ "" →
  match SparseMatrix (Some path) a b (World h fs) with
  | Ok self w' =>
      ∃ h' nr nc m d text,
        self = length h ∧ w' = World h' fs ∧ owned h h' self nr nc m d
        ∧ fs path = Some text ∧ readable text
        ∧ ∃ h2 h1,
            wf_store_at h2 m []
            ∧ load_lines h2 m [] (drop 2 (readlines text)) = (None, (h1, d))
            ∧ (∀ row col, cell h' self row col = store_cell h1 d row col)
            ∧ nr = default 0 (store_cell h1 d 0 0)
            ∧ nc = default 0 (store_cell h1 d 0 1)
  | Raise e w' =>
      ∃ h' cause,
        e = WrongFormat cause ∧ w' = World h' fs ∧ keeps h h'
        ∧ (fs path = None ∨ ∃ text, fs path = Some text ∧ bad_text text)
  end.
Proof.
  intros Hp. destruct path as [|c p]; [done|].
  unfold SparseMatrix. unfold new at 1. unfold mbind at 1, M_bind at 1. simpl.
  unfold mbind at 1, M_bind at 1. unfold mbind at 1, M_bind at 1.
  set (blank := Instance_ None None None).
  rewrite (load_matrix_run _ _ _ blank) by apply lookup_at_length.
  assert (keeps h ((h ++ [Object blank]) ++ [StoreDict []])) as Hk1.
  { intros l Hl. rewrite <- app_assoc. by apply lookup_app_l. }
  cbv zeta. destruct (fs (String c p)) as [text|] eqn:Htext;
    [|eexists _, _; split_and!; [done..|by left]].
  assert (∃ l1 l2 file, readline (readlines text) = (l1, (readline (readlines text)).2)
            ∧ readline (readline (readlines text)).2 = (l2, file)
            ∧ l1 = default "" (readlines text !! 0%nat)
            ∧ l2 = default "" (readlines text !! 1%nat)
            ∧ file = drop 2 (readlines text)) as (l1 & l2 & file2 & E1 & E2 & -> & -> & ->).
  { destruct (readlines text) as [|x [|y ls]]; by eexists _, _, _. }
  rewrite E1. destruct (header_value _) as [e|rows] eqn:Hrows.
  { eexists _, _. split_and!; [done..|]. right. exists text. split; [done|].
    left. by eapply header_value_inl. }
  rewrite E2. destruct (header_value (default "" (_ !! 1%nat))) as [e|cols] eqn:Hcols.
  { eexists _, _. split_and!; [done..|]. right. exists text. split; [done|].
    right. left. by eapply header_value_inl. }
  rewrite length_app. simpl. rewrite Nat.add_1_r.
  match goal with |- context [load_lines ?h2 ?m [] _] =>
    assert (loading h h2 (length h) (Instance_ (Some rows) (Some cols) None) m [])
      as Hl0 end.
  { apply (loading_set_attr _ _ _ blank). split.
    - done.
    - rewrite <- app_assoc. apply lookup_at_length.
    - split.
      + rewrite <- app_assoc. simpl. rewrite lookup_app_r by lia.
        by replace (S (length h) - length h)%nat with 1%nat by lia.
      + by intros r ?%elem_of_nil.
      + apply NoDup_nil_2.
      + apply NoDup_nil_2.
    - done.
    - lia.
    - by intros r ?%elem_of_nil. }
  pose proof (load_lines_loading _ _ _ _ (drop 2 (readlines text)) _ _ Hl0) as Hl1.
  destruct (load_lines _ _ _ (drop 2 (readlines text))) as [[e|] [h1 d1]] eqn:Hlines;
    simpl in Hl1.
  { eexists _, _. split_and!; [done..|apply (ld_keeps Hl1)|].
    right. exists text. split; [done|]. right. right.
    eapply load_lines_Some. by rewrite Hlines. }
  rewrite (bind_ok _ _ _ _ _ (set_matrix_run _ _ _ _ _ (ld_self Hl1))). simpl.
  pose proof (loading_set_attr _ _ _ _
    (Instance_ (Some rows) (Some cols) (Some (S (length h)))) _ _ Hl1) as Hl2.
  rewrite (bind_ok _ _ _ _ _ (matrix_get_0_run _ _ _ _ _ _ _ 0 Hl2 eq_refl)).
  rewrite (bind_ok _ _ _ _ _ (set_numRows_run _ _ _ _ _ (ld_self Hl2))). simpl.
  match goal with |- context [<[length h := Object ?i3]> (<[_ := _]> h1)] =>
    pose proof (loading_set_attr _ _ _ _ i3 _ _ Hl2) as Hl3 end.
  rewrite (bind_ok _ _ _ _ _ (matrix_get_0_run _ _ _ _ _ _ _ 1 Hl3 eq_refl)).
  rewrite (set_numCols_run _ _ _ _ _ (ld_self Hl3)). simpl.
  match goal with |- context [<[length h := Object ?i4]> (<[_ := _]> (<[_ := _]> h1))] =>
    pose proof (loading_set_attr _ _ _ _ i4 _ _ Hl3) as Hl4 end.
  pose proof (loading_owned _ _ _ _ _ _ _ Hl4) as Ho.
  eexists _, _, _, _, _, text. split_and!; [done..| |].
  - split_and!; [by eexists..|].
    eapply load_lines_None. by rewrite Hlines.
  - eexists _, h1. split_and!; [apply (ld_st Hl0)|done|..].
    + intros row col. rewrite (wf_at_cell _ _ _ _ _ _ _ _ (own_wf Ho)).
      rewrite (store_cell_update_attrs _ _ _ _ _ _ _ (ld_self Hl3)).
      rewrite (store_cell_update_attrs _ _ _ _ _ _ _ (ld_self Hl2)).
      by rewrite (store_cell_update_attrs _ _ _ _ _ _ _ (ld_self Hl1)).
    + by rewrite (store_cell_update_attrs _ _ _ _ _ _ _ (ld_self Hl1)).
    + rewrite (store_cell_update_attrs _ _ _ _ _ _ _ (ld_self Hl2)).
      by rewrite (store_cell_update_attrs _ _ _ _ _ _ _ (ld_self Hl1)).
Qed.

(** Every text is readable or bad. *)
Lemma readable_or_bad text : readable text ∨ bad_text text.
Proof.
  unfold readable, bad_text. cbv zeta.
  destruct (header_value (default "" (readlines text !! 0%nat))) as [e|rows] eqn:H1.
  { right. left. by eapply header_value_inl. }
  destruct (header_value (default "" (readlines text !! 1%nat))) as [e|cols] eqn:H2.
  { right. right. left. by eapply header_value_inl. }
  destruct (load_lines [] 0%nat [] (drop 2 (readlines text))).1 as [e|] eqn:Hl.
  - right. right. right. by eapply load_lines_Some.
  - left. split_and!; [by eexists..|]. by eapply load_lines_None.
Qed.

(** X12: a readable file is loaded: the construction returns a new
    well-formed instance, and every object and every file of before is
    kept. *)
Lemma readable_loads w path text a b :
  path ≠ "" → files w path = Some text → readable text →
  ∃ w', SparseMatrix (Some path) a b w = Ok (length (heap w)) w'
        ∧ wf (heap w') (length (heap w)) = true
        ∧ take (length (heap w)) (heap w') = heap w
        ∧ files w' = files w.
Proof.
  intros Hp Htext Hread. destruct w as [h fs]. simpl in *.
  pose proof (SparseMatrix_file_outcome h fs path a b Hp) as Hout.
  destruct (SparseMatrix (Some path) a b (World h fs)) as [self w'|e w'].
  - destruct Hout as (h' & nr & nc & m & d & _ & -> & -> & Ho & _).
    exists (World h' fs). split_and!; [done| |by apply keeps_take, (own_keeps Ho)|done].
    by eapply wf_at_wf, (own_wf Ho).
  - destruct Hout as (h' & cause & _ & _ & _ & [Hnone|(text' & Ht & Hbad)]).
    + congruence.
    + rewrite Htext in Ht. injection Ht as <-. by apply readable_not_bad in Hbad.
Qed.

(** ** Printing and reading integers *)

Lemma int_digits_uint u prev acc :
  u ≠ Decimal.Nil ∨ prev = true →
  int_digits prev acc (NilEmpty.string_of_uint u) = Some (uint_acc u acc).
Proof.
  revert prev acc. induction u; intros prev acc Hne; simpl;
    try (apply IHu; by right).
  destruct Hne as [?| ->]; done.
Qed.

Lemma uint_acc_pos u p :
  uint_acc u (Z.pos p) = Z.pos (Pos.of_uint_acc u p).
Proof.
  revert p. induction u; intros p; simpl; try done;
    rewrite <- IHu; f_equal; lia.
Qed.

Lemma uint_acc_0 u : uint_acc u 0 = Z.of_N (Pos.of_uint u).
Proof.
  induction u; simpl; try done;
    match goal with |- uint_acc _ ?z = _ =>
      change z with (Z.pos (Z.to_pos z)); by rewrite uint_acc_pos end.
Qed.

Lemma int_digits_pos p :
  int_digits false 0 (NilEmpty.string_of_uint (Pos.to_uint p)) = Some (Z.pos p).
Proof.
  rewrite int_digits_uint by (left; apply DecimalPos.Unsigned.to_uint_nonnil).
  by rewrite uint_acc_0, DecimalPos.Unsigned.of_to.
Qed.

Lemma string_of_uint_digits u :
  string_forall (λ c, bool_decide (is_Some (digit_of c)))
    (NilEmpty.string_of_uint u) = true.
Proof. induction u; simpl; try done. Qed.

Lemma nilzero_string_of_pos p :
  NilZero.string_of_uint (Pos.to_uint p) = NilEmpty.string_of_uint (Pos.to_uint p).
Proof.
  pose proof (DecimalPos.Unsigned.to_uint_nonnil p).
  by destruct (Pos.to_uint p).
Qed.

(** [int] reads a printed integer back, once the white space is off. *)
Lemma int_of_str s z :
  rstrip_by int_space (lstrip_by int_space s) = str z → int s = Some z.
Proof.
  intros Hs. unfold int. rewrite Hs. unfold str. destruct z as [|p|p]; simpl.
  - done.
  - rewrite nilzero_string_of_pos. pose proof (int_digits_pos p) as Hp.
    pose proof (DecimalPos.Unsigned.to_uint_nonnil p).
    destruct (Pos.to_uint p); try done.
  - rewrite nilzero_string_of_pos. by rewrite int_digits_pos.
Qed.

Lemma string_forall_app p s t :
  string_forall p (s +:+ t) = string_forall p s && string_forall p t.
Proof. induction s as [|c s IH]; simpl; [done|]. by rewrite IH, andb_assoc. Qed.

Lemma string_forall_impl (p q : ascii → bool) s :
  (∀ c, p c = true → q c = true) →
  string_forall p s = true → string_forall q s = true.
Proof.
  intros Hpq. induction s as [|c s IH]; simpl; [done|].
  intros [Hc Hs]%andb_true_iff. by rewrite (Hpq c Hc), IH.
Qed.

Lemma str_num_char z : string_forall num_char (str z) = true.
Proof.
  assert (∀ u, string_forall num_char (NilEmpty.string_of_uint u) = true) as Hu.
  { intros u. eapply string_forall_impl; [|apply string_of_uint_digits].
    intros c Hc%bool_decide_eq_true. unfold num_char. by destruct Hc as [? ->]. }
  unfold str. destruct z as [|p|p]; simpl; [done|..];
    rewrite nilzero_string_of_pos; apply Hu.
Qed.

(** A printed integer has no white space and no separator in it. *)
Lemma num_char_plain c :
  num_char c = true →
  isspace c = false ∧ int_space c = false ∧ Ascii.eqb c "," = false
  ∧ Ascii.eqb c "=" = false ∧ Ascii.eqb c "010" = false.
Proof.
  destruct c as [[] [] [] [] [] [] [] []]; vm_compute; intros H;
    try discriminate H; done.
Qed.

Lemma str_forall (q : ascii → bool) z :
  (∀ c, num_char c = true → q c = true) → string_forall q (str z) = true.
Proof. intros Hq. eapply string_forall_impl; [done|apply str_num_char]. Qed.

(** ** Cutting text that was written with separators *)

Lemma lstrip_by_forall sp s :
  string_forall (λ c, negb (sp c)) s = true → lstrip_by sp s = s.
Proof.
  destruct s as [|c s]; simpl; [done|].
  intros [Hc _]%andb_true_iff. by destruct (sp c).
Qed.

Lemma rstrip_by_forall sp s :
  string_forall (λ c, negb (sp c)) s = true → rstrip_by sp s = s.
Proof.
  induction s as [|c s IH]; simpl; [done|].
  intros [Hc Hs]%andb_true_iff. rewrite (IH Hs).
  destruct s; [by destruct (sp c) | done].
Qed.

Lemma rstrip_by_space sp t : string_forall sp t = true → rstrip_by sp t = "".
Proof.
  induction t as [|c t IH]; simpl; [done|].
  intros [Hc Ht]%andb_true_iff. by rewrite (IH Ht), Hc.
Qed.

Lemma rstrip_by_app_space sp s t :
  string_forall sp t = true → rstrip_by sp (s +:+ t) = rstrip_by sp s.
Proof.
  intros Ht. induction s as [|c s IH]; simpl.
  - by apply rstrip_by_space.
  - by rewrite IH.
Qed.

Lemma split_no_sep sep s :
  string_forall (λ c, negb (Ascii.eqb c sep)) s = true → split sep s = [s].
Proof.
  induction s as [|c s IH]; simpl; [done|].
  intros [Hc Hs]%andb_true_iff. rewrite (IH Hs).
  by destruct (Ascii.eqb c sep).
Qed.

Lemma split_app sep s t :
  string_forall (λ c, negb (Ascii.eqb c sep)) s = true →
  split sep (s +:+ String sep t) = s :: split sep t.
Proof.
  induction s as [|c s IH]; simpl.
  - by rewrite Ascii.eqb_refl.
  - intros [Hc Hs]%andb_true_iff. rewrite (IH Hs).
    by destruct (Ascii.eqb c sep).
Qed.

Lemma drop_last_app s c : drop_last (s +:+ String c "") = s.
Proof.
  induction s as [|c' s IH]; simpl; [done|]. rewrite IH.
  by destruct s.
Qed.

Lemma readlines_app s t :
  string_forall (λ c, negb (Ascii.eqb c "010")) s = true →
  readlines (s +:+ String "010" t) = (s +:+ String "010" "") :: readlines t.
Proof.
  induction s as [|c s IH]; simpl; [done|].
  intros [Hc Hs]%andb_true_iff. rewrite (IH Hs).
  by destruct (Ascii.eqb c "010").
Qed.

Lemma append_assoc_ (s t u : string) : (s +:+ t) +:+ u = s +:+ (t +:+ u).
Proof. induction s as [|c s IH]; [done|]. exact (f_equal (String c) IH). Qed.

Lemma append_cons c (s t : string) : String c s +:+ t = String c (s +:+ t).
Proof. reflexivity. Qed.

Lemma append_nil_l (s : string) : "" +:+ s = s.
Proof. reflexivity. Qed.

Lemma append_nil_r (s : string) : s +:+ "" = s.
Proof. induction s as [|c s IH]; [done|]. exact (f_equal (String c) IH). Qed.

Lemma lstrip_by_app sp c s t :
  sp c = false → lstrip_by sp (String c s +:+ t) = String c s +:+ t.
Proof.
  intros Hc. change (String c s +:+ t) with (String c (s +:+ t)).
  simpl. by rewrite Hc.
Qed.

Lemma rstrip_by_keep sp s c t :
  sp c = false → string_forall sp t = true →
  rstrip_by sp (s +:+ String c t) = s +:+ String c "".
Proof.
  intros Hc Ht. induction s as [|c' s IH].
  - change ("" +:+ String c t) with (String c t). simpl.
    by rewrite (rstrip_by_space _ _ Ht), Hc.
  - change (rstrip_by sp (String c' (s +:+ String c t))
            = String c' (s +:+ String c "")).
    simpl. rewrite IH. by destruct s.
Qed.

Lemma str_first z : ∃ c s, str z = String c s ∧ num_char c = true.
Proof.
  pose proof (str_num_char z) as Hz. destruct (str z) as [|c s] eqn:E.
  - unfold str in E. destruct z as [|p|p]; simpl in E; try done.
    rewrite nilzero_string_of_pos in E.
    pose proof (DecimalPos.Unsigned.to_uint_nonnil p).
    by destruct (Pos.to_uint p).
  - simpl in Hz. apply andb_true_iff in Hz as [Hc _]. by exists c, s.
Qed.

Lemma int_str z : int (str z) = Some z.
Proof.
  apply int_of_str. rewrite lstrip_by_forall, rstrip_by_forall; [done|..];
    apply str_forall; intros c Hc; apply num_char_plain in Hc as (_ & -> & _);
    done.
Qed.

(** What [save_to_file] writes after a comma: a blank, then the integer. *)
Lemma int_blank_str z : int (String " " (str z)) = Some z.
Proof.
  apply int_of_str. simpl. rewrite lstrip_by_forall, rstrip_by_forall; [done|..];
    apply str_forall; intros c Hc; apply num_char_plain in Hc as (_ & -> & _);
    done.
Qed.

(** What [save_to_file] writes in a header: the integer, then a newline. *)
Lemma int_str_newline z : int (str z +:+ String "010" "") = Some z.
Proof.
  apply int_of_str. destruct (str_first z) as (c & s & E & Hc).
  pose proof Hc as (_ & Hsp & _)%num_char_plain.
  rewrite E, lstrip_by_app by done. rewrite <- E.
  rewrite rstrip_by_app_space by done.
  apply rstrip_by_forall, str_forall. intros c' Hc'.
  by apply num_char_plain in Hc' as (_ & -> & _).
Qed.

(** A header line, as [save_to_file] writes it, reads back. *)
Lemma header_value_written (key : string) z :
  string_forall (λ c, negb (Ascii.eqb c "=")) key = true →
  header_value (key +:+ String "=" (str z +:+ String "010" "")) = inr z.
Proof.
  intros Hkey. unfold header_value, field_int.
  rewrite split_app by done. rewrite split_no_sep.
  - simpl. by rewrite int_str_newline.
  - rewrite string_forall_app. simpl. rewrite andb_true_r.
    apply str_forall. intros c Hc.
    by apply num_char_plain in Hc as (_ & _ & _ & -> & _).
Qed.

Lemma entry_line_body row col value :
  entry_line row col value
  = String "(" (entry_body row col value +:+ String ")" (String "010" "")).
Proof.
  unfold entry_line, entry_body.
  by repeat (rewrite append_assoc_ || rewrite append_cons
             || rewrite append_nil_l).
Qed.

Lemma strip_entry_line row col value :
  strip (entry_line row col value)
  = String "(" (entry_body row col value +:+ String ")" "").
Proof.
  rewrite entry_line_body. unfold strip.
  change (lstrip_by isspace (String "(" ?s)) with (String "(" s).
  change (String "(" (?b +:+ ?t)) with (String "(" b +:+ t).
  by rewrite rstrip_by_keep.
Qed.

Lemma entry_fields_written row col value :
  entry_fields (entry_line row col value)
  = [str row; String " " (str col); String " " (str value)].
Proof.
  assert (∀ z, string_forall (λ c, negb (Ascii.eqb c ",")) (str z) = true) as Hz.
  { intros z. apply str_forall. intros c Hc.
    by apply num_char_plain in Hc as (_ & _ & -> & _). }
  unfold entry_fields. rewrite strip_entry_line. unfold slice_1_m1.
  rewrite drop_last_app. unfold entry_body.
  rewrite split_app by done.
  change (String " " (?s +:+ ?t)) with (String " " s +:+ t).
  rewrite split_app by (simpl; apply Hz).
  rewrite split_no_sep by (simpl; apply Hz). done.
Qed.

(** An entry line, as [save_to_file] writes it, reads back. *)
Lemma entry_value_written row col value :
  entry_value (entry_line row col value) = inr (row, col, value).
Proof.
  unfold entry_value. rewrite entry_fields_written. unfold field_int. simpl.
  by rewrite int_str, !int_blank_str.
Qed.

Lemma strip_entry_line_nonempty row col value :
  strip (entry_line row col value) ≠ "".
Proof. by rewrite strip_entry_line. Qed.

(** ** What [save_to_file] writes *)

Lemma appended_trans path t1 t2 w w1 w2 :
  appended path t1 w w1 → appended path t2 w1 w2 →
  appended path (t1 +:+ t2) w w2.
Proof.
  intros (Hh1 & Hf1 & Ho1 & Hw1) (Hh2 & Hf2 & Ho2 & Hw2). split_and!.
  - congruence.
  - rewrite Hf2, Hf1. simpl. by rewrite append_assoc_.
  - intros p Hp. by rewrite Ho2, Ho1.
  - congruence.
Qed.

Lemma write_appended path txt w :
  ∃ w', write path txt w = Ok () w' ∧ appended path txt w w'.
Proof.
  eexists. split; [done|]. split_and!; simpl.
  - done.
  - by rewrite String.eqb_refl.
  - intros p Hp. by apply String.eqb_neq in Hp as ->.
  - done.
Qed.

(** A loop whose body appends [f x] for each element appends them all. *)
Lemma for_appended {A} (h0 : list obj) path (f : A → string) (l : list A)
    (body : A → M unit) w :
  heap w = h0 → is_Some (files w path) →
  (∀ x w, x ∈ l → heap w = h0 → is_Some (files w path) →
     ∃ w', body x w = Ok () w' ∧ appended path (f x) w w') →
  ∃ w', for_ l body w = Ok () w' ∧ appended path (concat_map f l) w w'.
Proof.
  revert w. induction l as [|x l IH]; intros w Hh [t Hfile] Hbody; simpl.
  - exists w. split; [done|]. split_and!; [done| |done..].
    by rewrite append_nil_r, Hfile.
  - destruct (Hbody x w) as (w1 & Hrun & Happ); [by left|done|by eexists|].
    destruct (IH w1) as (w2 & Hrun2 & Happ2).
    + destruct Happ as (-> & _). done.
    + destruct Happ as (_ & -> & _). by eexists.
    + intros y w' Hy. apply Hbody. by right.
    + exists w2. split; [by rewrite (bind_ok _ _ _ _ _ Hrun)|].
      by eapply appended_trans.
Qed.

Lemma entries_rows h self nr nc m d :
  wf_at h self nr nc m d →
  entries h self = dict_keys d ≫= row_entries h d.
Proof.
  intros Hwf. unfold entries. rewrite (store_of_wf Hwf). simpl.
  pose proof (wf_keys Hwf) as Hnd. clear Hwf. unfold dict_keys.
  induction d as [|[k r] d IH]; [done|]. apply NoDup_cons in Hnd as [Hk Hnd].
  cbn [fmap list_fmap mbind list_bind fst snd]. f_equal.
  - unfold row_entries. simpl. by rewrite Z.eqb_refl.
  - rewrite IH by done. clear IH.
    assert (∀ ks, k ∉ ks →
      ks ≫= row_entries h d = ks ≫= row_entries h ((k, r) :: d)) as Hks.
    { induction ks as [|k' ks IHks]; [done|]. intros [Hne Hks]%not_elem_of_cons.
      cbn [mbind list_bind]. rewrite IHks by done. f_equal.
      unfold row_entries. simpl. by destruct (Z.eqb_spec k' k). }
    by apply Hks.
Qed.

Lemma concat_map_app {A} (f : A → string) (l1 l2 : list A) :
  concat_map f (l1 ++ l2) = concat_map f l1 +:+ concat_map f l2.
Proof.
  unfold concat_map. induction l1 as [|x l1 IH]; [done|].
  cbn [app foldr]. by rewrite IH, append_assoc_.
Qed.

Lemma concat_map_bind {A B} (f : B → string) (g : A → list B) (l : list A) :
  concat_map (λ x, concat_map f (g x)) l = concat_map f (l ≫= g).
Proof.
  induction l as [|x l IH]; [done|].
  cbn [mbind list_bind]. rewrite concat_map_app. unfold concat_map at 1.
  cbn [foldr]. by f_equal.
Qed.

Section save.
Context {h : list obj} {self : loc} {nr nc : Z} {m : loc} {d : dict loc}.
Context (Hwf : wf_at h self nr nc m d).
Context (path : string).

Lemma row_items_run fs row :
  row ∈ dict_keys d →
  ∃ rd, row_items self row (World h fs) = Ok rd (World h fs)
        ∧ row_entries h d row = (λ cv, (row, cv.1, cv.2)) <$> rd.
Proof.
  intros Hrow. unfold row_items, row_entries.
  rewrite (bind_ok _ _ _ _ _ (attr_matrix_run Hwf fs)).
  rewrite (bind_ok _ _ _ _ _ (load_store_run Hwf fs)).
  destruct (dict_get row d) as [r|] eqn:Hget.
  - destruct (row_lookup Hwf _ _ Hget) as (rd & Hrd & _). exists rd.
    unfold load_row, load_obj, row_of, mbind, M_bind. simpl. by rewrite Hrd.
  - by apply dict_get_None in Hget.
Qed.

Lemma entry_text_row row (rd : dict Z) :
  concat_map entry_text ((λ cv, (row, cv.1, cv.2)) <$> rd)
  = concat_map (λ cv : Z * Z, entry_line row cv.1 cv.2) rd.
Proof.
  induction rd as [|[c v] rd IH]; [done|].
  unfold concat_map in *. cbn [fmap list_fmap foldr]. by rewrite IH.
Qed.

(** The loop over the rows appends the lines of all entries. *)
Lemma save_rows_run w :
  heap w = h → is_Some (files w path) →
  ∃ w',
    (rows ← matrix_keys self;
     for_ rows (λ row,
       items ← row_items self row;
       for_ items (λ '(col, value),
         write path (entry_line row col value)))) w = Ok () w'
    ∧ appended path (concat_map entry_text (entries h self)) w w'.
Proof.
  destruct w as [h0 fs]. simpl. intros -> Hfile.
  rewrite (bind_ok _ _ _ _ _ (matrix_keys_run Hwf fs)).
  rewrite (entries_rows _ _ _ _ _ _ Hwf), <- concat_map_bind.
  apply (for_appended h); [done..|].
  intros row [h1 fs1] Hrow Hh1 Hfile1. simpl in Hh1. subst h1.
  destruct (row_items_run fs1 row Hrow) as (rd & Hitems & Hrd).
  rewrite (bind_ok _ _ _ _ _ Hitems). rewrite Hrd, entry_text_row.
  apply (for_appended h); [done..|].
  intros [col value] w _ _ _. apply write_appended.
Qed.

(** [save_to_file] on a path that [open] accepts writes the two headers
    and one line for each entry, in the order of the dicts, and changes
    nothing else. *)
Lemma save_to_file_run fs :
  path ≠ "" → writable fs path = true →
  ∃ fs',
    save_to_file self path (World h fs) = Ok () (World h fs')
    ∧ fs' path = Some (("rows" +:+ String "=" (str nr +:+ String "010" ""))
                       +:+ ("cols" +:+ String "=" (str nc +:+ String "010" ""))
                       +:+ concat_map entry_text (entries h self))
    ∧ (∀ p, p ≠ path → fs' p = fs p)
    ∧ writable fs' = writable fs.
Proof.
  intros Hpath Hwr.
  unfold save_to_file. unfold open_w at 1. unfold mbind at 1, M_bind at 1.
  cbn [heap files]. rewrite Hwr.
  destruct path as [|c0 path0] eqn:Epath; [done|]. rewrite <- Epath in *.
  set (fs0 := Fsys (λ p, if String.eqb p path then Some "" else fs p)
                (writable fs)).
  rewrite (bind_ok _ _ _ _ _ (attr_numRows_run Hwf fs0)).
  destruct (write_appended path ("rows=" +:+ str nr +:+ "
") (World h fs0)) as ([h1 fs1] & Hw1 & Ha1).
  rewrite (bind_ok _ _ _ _ _ Hw1).
  pose proof Ha1 as (Hh1 & Hf1 & _). simpl in Hh1. subst h1.
  rewrite (bind_ok _ _ _ _ _ (attr_numCols_run Hwf fs1)).
  destruct (write_appended path ("cols=" +:+ str nc +:+ "
") (World h fs1)) as ([h2 fs2] & Hw2 & Ha2).
  rewrite (bind_ok _ _ _ _ _ Hw2).
  pose proof Ha2 as (Hh2 & Hf2 & _). simpl in Hh2. subst h2.
  destruct (save_rows_run (World h fs2)) as ([h3 fs3] & Hrun & Ha3);
    [done|by eexists|].
  pose proof Ha3 as (Hh3 & _). simpl in Hh3. subst h3.
  exists fs3. split; [done|].
  destruct (appended_trans _ _ _ _ _ _ (appended_trans _ _ _ _ _ _ Ha1 Ha2) Ha3)
    as (_ & Hf & Ho & Hw). simpl in Hf, Ho, Hw. split_and!.
  - rewrite Hf. subst fs0. simpl. rewrite String.eqb_refl. simpl.
    by repeat (rewrite append_assoc_ || rewrite append_cons
               || rewrite append_nil_l).
  - intros p Hp. rewrite Ho by done. subst fs0. simpl.
    by apply String.eqb_neq in Hp as ->.
  - done.
Qed.
End save.

(** ** Reading back what was written *)

Lemma readlines_line s t :
  string_forall (λ c, negb (Ascii.eqb c "010")) s = true →
  readlines ((s +:+ String "010" "") +:+ t) = (s +:+ String "010" "") :: readlines t.
Proof.
  intros Hs. rewrite append_assoc_, append_cons, append_nil_l.
  by apply readlines_app.
Qed.

Lemma str_no_newline z :
  string_forall (λ c, negb (Ascii.eqb c "010")) (str z) = true.
Proof.
  apply str_forall. intros c Hc.
  by apply num_char_plain in Hc as (_ & _ & _ & _ & ->).
Qed.

Lemma header_line_split (key : string) z :
  key +:+ String "=" (str z +:+ String "010" "")
  = (key +:+ String "=" (str z)) +:+ String "010" "".
Proof. by rewrite append_assoc_, append_cons. Qed.

Lemma entry_text_split e :
  ∃ s, entry_text e = s +:+ String "010" ""
       ∧ string_forall (λ c, negb (Ascii.eqb c "010")) s = true.
Proof.
  destruct e as [[row col] value]. unfold entry_text. simpl.
  exists (String "(" (entry_body row col value +:+ String ")" "")). split.
  - rewrite entry_line_body.
    by repeat (rewrite append_assoc_ || rewrite append_cons
               || rewrite append_nil_l).
  - unfold entry_body. cbn [string_forall].
    rewrite !string_forall_app. cbn [string_forall].
    rewrite !string_forall_app. cbn [string_forall].
    by rewrite !str_no_newline.
Qed.

Lemma readlines_entries es :
  readlines (concat_map entry_text es) = entry_text <$> es.
Proof.
  induction es as [|e es IH]; [done|].
  destruct (entry_text_split e) as (s & Hs & Hnl).
  unfold concat_map in *. cbn [foldr fmap list_fmap].
  rewrite Hs at 1. rewrite readlines_line by done. by rewrite IH, Hs.
Qed.

Lemma readlines_written (k1 k2 : string) nr nc es :
  string_forall (λ c, negb (Ascii.eqb c "010")) k1 = true →
  string_forall (λ c, negb (Ascii.eqb c "010")) k2 = true →
  readlines ((k1 +:+ String "=" (str nr +:+ String "010" ""))
             +:+ (k2 +:+ String "=" (str nc +:+ String "010" ""))
             +:+ concat_map entry_text es)
  = (k1 +:+ String "=" (str nr +:+ String "010" ""))
    :: (k2 +:+ String "=" (str nc +:+ String "010" ""))
    :: (entry_text <$> es).
Proof.
  intros H1 H2. rewrite !header_line_split.
  rewrite readlines_line.
  - rewrite readlines_line.
    + by rewrite readlines_entries.
    + rewrite string_forall_app. cbn [string_forall].
      by rewrite H2, str_no_newline.
  - rewrite string_forall_app. cbn [string_forall].
    by rewrite H1, str_no_newline.
Qed.

(** ** The entries a loaded dict holds *)

(** Loading written entries: no line fails, and every position holds what
    the last entry for it says, or what it held before. *)
Lemma load_lines_written h m d es e h' d' :
  wf_store_at h m d →
  load_lines h m d (entry_text <$> es) = (e, (h', d')) →
  e = None
  ∧ wf_store_at h' m d'
  ∧ ∀ row col,
      store_cell h' d' row col
      = match last_write es row col with
        | Some x => Some x
        | None => store_cell h d row col
        end.
Proof.
  revert h d. induction es as [|[[r c] v] es IH]; intros h d Hst.
  { intros [= <- <- <-]. done. }
  cbn [fmap list_fmap load_lines].
  replace (entry_text (r, c, v)) with (entry_line r c v) by done.
  pose proof (strip_entry_line_nonempty r c v) as Hne.
  destruct (strip (entry_line r c v)) as [|c0 s0]; [done|].
  rewrite entry_value_written. intros Hrun.
  destruct (IH _ _ (set_cell_st Hst r c v) Hrun) as (He & Hst' & Hcell).
  split_and!; [done..|]. intros row col. rewrite Hcell.
  cbn [last_write]. destruct (last_write es row col) as [x|]; [done|].
  destruct (Z.eqb_spec r row) as [->|Hr]; simpl.
  - destruct (Z.eqb_spec c col) as [->|Hc].
    + by apply set_cell_same_st.
    + apply set_cell_other_st; [done|congruence].
  - apply set_cell_other_st; [done|congruence].
Qed.

Lemma last_write_app es1 es2 row col :
  last_write (es1 ++ es2) row col
  = match last_write es2 row col with
    | Some x => Some x
    | None => last_write es1 row col
    end.
Proof.
  induction es1 as [|[[r c] v] es1 IH]; simpl.
  - by destruct (last_write es2 row col).
  - rewrite IH. by destruct (last_write es2 row col).
Qed.

Lemma last_write_row k (rd : dict Z) row col :
  NoDup rd.*1 →
  last_write ((λ cv, (k, cv.1, cv.2)) <$> rd) row col
  = if Z.eqb k row then dict_get col rd else None.
Proof.
  intros Hnd. induction rd as [|[c v] rd IH].
  - simpl. by destruct (Z.eqb k row).
  - rewrite fmap_cons in Hnd. apply NoDup_cons in Hnd as [Hc Hnd].
    cbn [fst] in Hc.
    cbn [fmap list_fmap last_write dict_get fst snd]. rewrite (IH Hnd).
    destruct (Z.eqb_spec k row) as [->|Hk]; simpl; [|done].
    destruct (Z.eqb_spec col c) as [->|Hcol].
    + apply dict_get_None in Hc. rewrite Hc. by rewrite Z.eqb_refl.
    + destruct (dict_get col rd); [done|].
      by destruct (Z.eqb_spec c col); [congruence|].
Qed.

(** In a well-formed instance the entries name each position once: the last
    entry for a position is the stored one. *)
Lemma last_write_entries h self nr nc m d row col :
  wf_at h self nr nc m d →
  last_write (entries h self) row col = cell h self row col.
Proof.
  intros Hwf. unfold entries, cell, store_cell.
  rewrite (store_of_wf Hwf). simpl.
  pose proof (wf_keys Hwf) as Hnd. pose proof (wf_rows Hwf) as Hrows.
  clear Hwf. induction d as [|[k r] d IH]; [done|].
  rewrite fmap_cons in Hnd. apply NoDup_cons in Hnd as [Hk Hnd].
  cbn [fst] in Hk.
  cbn [mbind list_bind fst snd dict_get]. rewrite last_write_app.
  rewrite IH; [|done|intros r' Hr'; apply Hrows; by right].
  destruct (Hrows r) as (rd & Hrd & Hndr); [by left|].
  assert (row_of h r = Some rd) as Hrow by (unfold row_of; by rewrite Hrd).
  rewrite Hrow. cbn [default]. rewrite last_write_row by done.
  destruct (Z.eqb_spec row k) as [->|Hne].
  - apply dict_get_None in Hk. rewrite Hk, Z.eqb_refl. simpl. by rewrite Hrow.
  - destruct (Z.eqb_spec k row); [congruence|].
    by destruct (dict_get row d ≫= _).
Qed.

(** ** Saving, then constructing from the saved file *)

Lemma written_readable (k1 k2 : string) nr nc es :
  string_forall (λ c, negb (Ascii.eqb c "=") && negb (Ascii.eqb c "010")) k1 = true →
  string_forall (λ c, negb (Ascii.eqb c "=") && negb (Ascii.eqb c "010")) k2 = true →
  let text := (k1 +:+ String "=" (str nr +:+ String "010" ""))
              +:+ (k2 +:+ String "=" (str nc +:+ String "010" ""))
              +:+ concat_map entry_text es in
  readable text ∧ drop 2 (readlines text) = entry_text <$> es.
Proof.
  intros H1 H2 text.
  assert (readlines text
          = (k1 +:+ String "=" (str nr +:+ String "010" ""))
            :: (k2 +:+ String "=" (str nc +:+ String "010" ""))
            :: (entry_text <$> es)) as Hlines.
  { apply readlines_written.
    - eapply string_forall_impl; [|exact H1]. by intros c [_ ?]%andb_true_iff.
    - eapply string_forall_impl; [|exact H2]. by intros c [_ ?]%andb_true_iff. }
  unfold readable. cbv zeta. rewrite Hlines. simpl. split; [|done].
  split_and!.
  - exists nr. apply header_value_written.
    eapply string_forall_impl; [|exact H1]. by intros c [? _]%andb_true_iff.
  - exists nc. apply header_value_written.
    eapply string_forall_impl; [|exact H2]. by intros c [? _]%andb_true_iff.
  - apply Forall_fmap, Forall_forall. intros [[r c] v] _. right.
    exists (r, c, v). apply entry_value_written.
Qed.

(** X8: the round trip as the code makes it: a matrix that is saved at a
    path [open] accepts and constructed again from the saved file comes
    back with every stored entry, and with the values at (0, 0) and (0, 1)
    as its dimensions. *)
Lemma save_then_load w a path x y :
  wf (heap w) a = true → path ≠ "" → writable (files w) path = true →
  ∃ w1 w2,
    save_to_file a path w = Ok () w1
    ∧ SparseMatrix (Some path) x y w1 = Ok (length (heap w)) w2
    ∧ wf (heap w2) (length (heap w)) = true
    ∧ (∀ row col,
         cell (heap w2) (length (heap w)) row col = cell (heap w) a row col)
    ∧ dims (heap w2) (length (heap w))
      = Some (value_at (heap w) a 0 0, value_at (heap w) a 0 1).
Proof.
  intros Ha Hp Hwr. destruct w as [h fs]. simpl in *.
  apply wf_spec in Ha as (nr & nc & m & d & Hwf).
  destruct (save_to_file_run Hwf path fs Hp Hwr) as (fs' & Hsave & Htext & _).
  destruct (written_readable "rows" "cols" nr nc (entries h a) eq_refl eq_refl)
    as [Hread Hdata].
  exists (World h fs').
  pose proof (SparseMatrix_file_outcome h fs' path x y Hp) as Hout.
  destruct (SparseMatrix (Some path) x y (World h fs')) as [self w2|e w2].
  - destruct Hout as (h' & r & c & m' & d' & text & -> & -> & Ho & Ht & _
                      & h2 & h1 & Hst & Hlines & Hcell & -> & ->).
    rewrite Htext in Ht. injection Ht as <-. rewrite Hdata in Hlines.
    destruct (load_lines_written _ _ _ _ _ _ _ Hst Hlines) as (_ & _ & Hload).
    assert (∀ row col, store_cell h1 d' row col = cell h a row col) as Hsame.
    { intros row col. rewrite Hload, (last_write_entries _ _ _ _ _ _ _ _ Hwf).
      by destruct (cell h a row col). }
    exists (World h' fs'). split_and!; [done..| | |].
    + by eapply wf_at_wf, (own_wf Ho).
    + intros row col. simpl. by rewrite Hcell.
    + simpl. rewrite (dims_wf (own_wf Ho)). unfold value_at.
      by rewrite !Hsame.
  - destruct Hout as (h' & cause & _ & _ & _ & [Hnone|(text & Ht & Hbad)]).
    + congruence.
    + rewrite Htext in Ht. injection Ht as <-. by apply readable_not_bad in Hbad.
Qed.

(** ** A failing load, on a new and on an existing instance *)

Lemma building_set_cell hb h m d row col v :
  building hb h m d →
  building hb (set_cell_heap h m d row col v) m (set_cell_store h d row).
Proof.
  intros Hb. pose proof (keeps_length _ _ (bd_keeps Hb)) as Hlen. split.
  - intros l Hlt. rewrite <- (bd_keeps Hb l Hlt).
    apply set_cell_frame; [| |lia].
    + pose proof (bd_store_new Hb). lia.
    + intros Hin%(bd_rows_new Hb). lia.
  - apply set_cell_st, (bd_st Hb).
  - apply (bd_store_new Hb).
  - intros r [Hr| ->]%set_cell_store_rows; [by apply (bd_rows_new Hb)|done].
Qed.

Lemma load_lines_building hb m ls h d :
  building hb h m d →
  building hb (load_lines h m d ls).2.1 m (load_lines h m d ls).2.2.
Proof.
  revert h d. induction ls as [|line ls IH]; intros h d Hb; simpl; [done|].
  destruct (strip line) as [|c s]; [by apply IH|].
  destruct (entry_value line) as [e|[[row col] v]]; [done|].
  by apply IH, building_set_cell.
Qed.

(** [load_matrix] on an instance and a file it cannot read: it raises the
    wrong-format error; every other object of before is kept, and the
    instance is as it was or has the two header values as its dimensions,
    which are assigned before the data lines are read. *)
Lemma load_matrix_failure h (fs : fsys) self i path :
  h !! self = Some (Object i) →
  (fs path = None ∨ ∃ text, fs path = Some text ∧ bad_text text) →
  ∃ cause h',
    load_matrix self path (World h fs) = Raise (WrongFormat cause) (World h' fs)
    ∧ (∀ l, (l < length h)%nat → l ≠ self → h' !! l = h !! l)
    ∧ (h' !! self = Some (Object i)
       ∨ ∃ text rows cols,
           fs path = Some text
           ∧ header_value (default "" (readlines text !! 0%nat)) = inr rows
           ∧ header_value (default "" (readlines text !! 1%nat)) = inr cols
           ∧ h' !! self
             = Some (Object (Instance_ (Some rows) (Some cols) (matrix i)))).
Proof.
  intros Hs Hbad. pose proof (lookup_lt_Some _ _ _ Hs) as Hlt.
  rewrite (load_matrix_run _ _ _ _ _ Hs). cbv zeta.
  assert (∀ l, (l < length h)%nat → (h ++ [StoreDict []]) !! l = h !! l) as Hold.
  { intros l Hl. by apply lookup_app_l. }
  destruct (fs path) as [text|] eqn:Htext.
  2:{ eexists _, _. split_and!; [done| |left].
      - intros l Hl _. by apply Hold.
      - by rewrite Hold. }
  destruct Hbad as [Hnone|(text' & Ht & Hbad)]; [done|]. injection Ht as <-.
  assert (∃ l1 l2 file, readline (readlines text) = (l1, (readline (readlines text)).2)
            ∧ readline (readline (readlines text)).2 = (l2, file)
            ∧ l1 = default "" (readlines text !! 0%nat)
            ∧ l2 = default "" (readlines text !! 1%nat)
            ∧ file = drop 2 (readlines text)) as (l1 & l2 & file2 & E1 & E2 & -> & -> & ->).
  { clear. destruct (readlines text) as [|x [|y ls]]; by eexists _, _, _. }
  rewrite E1. destruct (header_value _) as [e|rows] eqn:Hrows.
  { eexists _, _. split_and!; [done| |left].
    - intros l Hl _. by apply Hold.
    - by rewrite Hold. }
  rewrite E2.
  destruct (header_value (default "" (_ !! 1%nat))) as [e|cols] eqn:Hcols.
  { eexists _, _. split_and!; [done| |left].
    - intros l Hl _. by apply Hold.
    - by rewrite Hold. }
  set (i' := Instance_ (Some rows) (Some cols) (matrix i)).
  assert (<[self := Object i']> (h ++ [StoreDict []])
          = <[self := Object i']> h ++ [StoreDict []]) as Hins.
  { by rewrite insert_app_l. }
  rewrite Hins.
  assert (building (<[self := Object i']> h)
            (<[self := Object i']> h ++ [StoreDict []]) (length h) []) as Hb0.
  { split.
    - intros l Hl. by apply lookup_app_l.
    - split.
      + replace (length h) with (length (<[self := Object i']> h))
          by apply length_insert.
        apply lookup_at_length.
      + by intros r ?%elem_of_nil.
      + apply NoDup_nil_2.
      + apply NoDup_nil_2.
    - by rewrite length_insert.
    - by intros r ?%elem_of_nil. }
  pose proof (load_lines_building _ _ (drop 2 (readlines text)) _ _ Hb0) as Hb1.
  destruct (load_lines _ _ _ (drop 2 (readlines text))) as [[e|] [h' d']] eqn:Hlines;
    simpl in Hb1.
  - exists e, h'. split_and!; [done| |right].
    + intros l Hl Hne. rewrite (bd_keeps Hb1) by (by rewrite length_insert).
      by apply list_lookup_insert_ne.
    + exists text, rows, cols. split_and!; [done..|].
      rewrite (bd_keeps Hb1) by (by rewrite length_insert).
      by apply list_lookup_insert_eq.
  - exfalso. destruct Hbad as [Hb|[Hb|(line & Hin & Hb)]].
    + by apply (header_value_inr _ _ Hrows).
    + by apply (header_value_inr _ _ Hcols).
    + pose proof (load_lines_None (<[self := Object i']> h ++ [StoreDict []])
                    (length h) [] (drop 2 (readlines text))) as Hgood.
      rewrite Hlines in Hgood. specialize (Hgood eq_refl).
      rewrite Forall_forall in Hgood.
      by destruct (good_entry_not_bad line (Hgood line Hin)).
Qed.

(** C6 as stated fails: a data line with four components is cut into four
    fields, and the file loads; the entry is made of the first three. *)
Lemma four_fields_accepted :
  length (entry_fields "(1,2,3,4)
") = 4%nat
  ∧ ∃ m w', SparseMatrix (Some "four.txt") 0 0 malformed = Ok m w'
            ∧ entries (heap w') m = [(1, 2, 3)].
Proof.
  split; [reflexivity|]. eexists _, _. split; [vm_compute; reflexivity|].
  reflexivity.
Qed.

(** C6, amended: a load raises the wrong-format error, which wraps the
    cause, whenever the file cannot be opened, a header line is missing,
    has no ['='] or no integer after it, or a data line that is not blank
    lacks one of its first three comma-separated fields or has a
    non-integer among them (fields after the third are not looked at); the
    first failure ends the load, and nothing but this one error comes out
    of [load_matrix].  When the construction from the file fails this way,
    no instance is returned and every object and every file of before is
    as it was.  When [load_matrix] is called on an existing instance and
    fails this way, every file and every other object of before is as it
    was, and the instance keeps its [matrix]; its [numRows] and [numCols]
    are as they were or, when both header lines were good and a data line
    failed, are already the two header values. *)
Theorem wrong_format_uniform w path nr nc :
  path ≠ "" →
  (files w path = None ∨ ∃ text, files w path = Some text ∧ bad_text text) →
  (∃ cause w', SparseMatrix (Some path) nr nc w = Raise (WrongFormat cause) w'
               ∧ take (length (heap w)) (heap w') = heap w
               ∧ files w' = files w)
  ∧ (∀ self i, heap w !! self = Some (Object i) →
       ∃ cause w', load_matrix self path w = Raise (WrongFormat cause) w'
         ∧ files w' = files w
         ∧ (∀ l, (l < length (heap w))%nat → l ≠ self →
              heap w' !! l = heap w !! l)
         ∧ (heap w' !! self = Some (Object i)
            ∨ ∃ text rows cols,
                files w path = Some text
                ∧ header_value (default "" (readlines text !! 0%nat)) = inr rows
                ∧ header_value (default "" (readlines text !! 1%nat)) = inr cols
                ∧ heap w' !! self
                  = Some (Object (Instance_ (Some rows) (Some cols) (matrix i)))))
  ∧ (∀ self w0 e w',
       load_matrix self path w0 = Raise e w' → ∃ cause, e = WrongFormat cause).
Proof.
  intros Hp Hbad. destruct w as [h fs]. simpl in *. split_and!.
  - pose proof (SparseMatrix_file_outcome h fs path nr nc Hp) as Hout.
    destruct (SparseMatrix (Some path) nr nc (World h fs)) as [self w'|e w'].
    + destruct Hout as (h' & r & c & m & d & text & _ & _ & _ & Htext & Hread & _).
      destruct Hbad as [Hnone|(text' & Ht & Hbad)]; [congruence|].
      rewrite Htext in Ht. injection Ht as <-. by apply readable_not_bad in Hbad.
    + destruct Hout as (h' & cause & -> & -> & Hk & _).
      exists cause, (World h' fs). split_and!; [done| |done].
      by apply keeps_take.
  - intros self i Hs.
    destruct (load_matrix_failure h fs self i path Hs Hbad)
      as (cause & h' & Hrun & Hframe & Hself).
    exists cause, (World h' fs). by split_and!.
  - intros self w0 e w'. apply load_matrix_uniform.
Qed.

Lemma wrong_format_uniform_witness :
  (∃ cause w', SparseMatrix (Some "two.txt") 0 0 shelf
               = Raise (WrongFormat cause) w'
               ∧ take (length (heap shelf)) (heap w') = heap shelf
               ∧ files w' = files shelf)
  ∧ (∀ self i, heap shelf !! self = Some (Object i) →
       ∃ cause w', load_matrix self "two.txt" shelf = Raise (WrongFormat cause) w'
         ∧ files w' = files shelf
         ∧ (∀ l, (l < length (heap shelf))%nat → l ≠ self →
              heap w' !! l = heap shelf !! l)
         ∧ (heap w' !! self = Some (Object i)
            ∨ ∃ text rows cols,
                files shelf "two.txt" = Some text
                ∧ header_value (default "" (readlines text !! 0%nat)) = inr rows
                ∧ header_value (default "" (readlines text !! 1%nat)) = inr cols
                ∧ heap w' !! self
                  = Some (Object (Instance_ (Some rows) (Some cols) (matrix i)))))
  ∧ (∀ self w0 e w',
       load_matrix self "two.txt" w0 = Raise e w' → ∃ cause, e = WrongFormat cause).
Proof.
  apply (wrong_format_uniform shelf "two.txt" 0 0); [done|].
  right. exists file_two. split; [reflexivity|].
  right. right. exists "(1,2)
". split.
  - vm_compute. left.
  - split; [by vm_compute|]. exists 2%nat. split; [lia|].
    intros f Hf. vm_compute in Hf. discriminate Hf.
Defined.

(** * Further properties of the methods *)

(** ** Construction with dimensions, reading, assignment *)

(** X1: [SparseMatrix(numRows=nr, numCols=nc)] always returns, for any two
    integers (no sign or size check): the result is a new well-formed
    instance with these dimensions and no entry, [get_element] gives 0 at
    every position of it, and every older object and every file is kept. *)
Theorem dimension_mode_all_zero w nr nc :
  ∃ w', SparseMatrix None nr nc w = Ok (length (heap w)) w'
    ∧ wf (heap w') (length (heap w)) = true
    ∧ dims (heap w') (length (heap w)) = Some (nr, nc)
    ∧ entries (heap w') (length (heap w)) = []
    ∧ (∀ row col, get_element (length (heap w)) row col w' = Ok 0 w')
    ∧ take (length (heap w)) (heap w') = heap w
    ∧ files w' = files w.
Proof.
  destruct w as [h fs]. simpl. rewrite SparseMatrix_dims_run.
  eexists. split; [reflexivity|]. simpl.
  pose proof (fresh_matrix_owned h nr nc) as Ho.
  pose proof (own_wf Ho) as Hwf. split_and!.
  - by eapply wf_at_wf.
  - apply (dims_wf Hwf).
  - unfold entries. by rewrite (store_of_wf Hwf).
  - intros row col. rewrite (get_element_run Hwf). unfold value_at.
    by rewrite fresh_matrix_cell.
  - apply keeps_take, (own_keeps Ho).
  - done.
Qed.

(** X2: on a well-formed instance [get_element] never raises and never
    changes anything, whatever the two integers are (negative ones and ones
    beyond the dimensions included): it returns the stored value, and 0 when
    the row or the column has no entry; no row is created by the read. *)
Theorem get_element_total w self row col :
  wf (heap w) self = true →
  get_element self row col w
  = Ok (match cell (heap w) self row col with Some v => v | None => 0 end) w.
Proof.
  intros (nr & nc & m & d & Hwf)%wf_spec. destruct w as [h fs]. simpl in *.
  by rewrite (get_element_run Hwf).
Qed.

Lemma get_element_total_witness :
  get_element 0%nat (-1) 5 demo
  = Ok (match cell (heap demo) 0%nat (-1) 5 with Some v => v | None => 0 end) demo.
Proof. apply (get_element_total demo 0%nat (-1) 5). reflexivity. Defined.

(** A heap that agrees with [h] on everything an instance owns holds the
    same instance. *)
Lemma agree_wf_at h h' a nr nc m d :
  wf_at h a nr nc m d → (∀ l, l ∈ footprint h a → h' !! l = h !! l) →
  wf_at h' a nr nc m d.
Proof.
  intros Hwf Hag. rewrite (footprint_wf _ _ _ _ _ _ Hwf) in Hag.
  destruct Hwf as [Hs Hm Hr Hnd Hkeys]. split; try done.
  - rewrite Hag; [done|]. left.
  - rewrite Hag; [done|]. right. left.
  - intros r Hin. destruct (Hr r Hin) as (rd & Hrd & ?). exists rd.
    split; [|done]. rewrite Hag; [done|]. by do 2 right.
Qed.

Lemma agree_unchanged h h' fs fs' a :
  wf h a = true → (∀ l, l ∈ footprint h a → h' !! l = h !! l) →
  unchanged (World h fs) (World h' fs') a ∧ wf h' a = true.
Proof.
  intros Hwf Hag. pose proof Hwf as (nr & nc & m & d & Hat)%wf_spec.
  pose proof (agree_wf_at _ _ _ _ _ _ _ Hat Hag) as Hat'.
  split; [|by eapply wf_at_wf].
  unfold unchanged. simpl. split_and!.
  - by rewrite (dims_wf Hat), (dims_wf Hat').
  - unfold entries. rewrite (store_of_wf Hat), (store_of_wf Hat'). simpl.
    rewrite (footprint_wf _ _ _ _ _ _ Hat) in Hag.
    assert (∀ r, r ∈ d.*2 → row_of h' r = row_of h r) as Hrows.
    { intros r Hr. unfold row_of. rewrite Hag; [done|]. by do 2 right. }
    clear Hat Hat' Hag. induction d as [|[k r] d' IH]; [done|]. simpl. f_equal.
    + rewrite Hrows; [done|]. by left.
    + apply IH. intros r0 Hr0. apply Hrows. by right.
  - by rewrite (footprint_wf _ _ _ _ _ _ Hat), (footprint_wf _ _ _ _ _ _ Hat').
  - done.
Qed.

(** X3: [set_element] keeps the invariant of the class and touches only
    the instance it is called on: the instance is well-formed afterwards,
    and any other well-formed instance that shares no dict with it keeps its
    dimensions, its entries and every object it owns; no file changes. *)
Theorem set_element_keeps_others w self b row col v :
  wf (heap w) self = true → wf (heap w) b = true →
  (∀ l, l ∈ footprint (heap w) self → l ∉ footprint (heap w) b) →
  ∃ w', set_element self row col v w = Ok () w'
        ∧ wf (heap w') self = true
        ∧ wf (heap w') b = true
        ∧ unchanged w w' b
        ∧ files w' = files w.
Proof.
  intros Hs Hb Hdis. destruct w as [h fs]. simpl in *.
  pose proof Hs as (nr & nc & m & d & Hwf)%wf_spec.
  rewrite (set_element_run Hwf). eexists. split; [reflexivity|]. simpl.
  rewrite (footprint_wf _ _ _ _ _ _ Hwf) in Hdis.
  assert (∀ l, l ∈ footprint h b → set_cell_heap h m d row col v !! l = h !! l)
    as Hag.
  { intros l Hl. apply set_cell_frame.
    - intros ->. apply (Hdis m); [right; left|done].
    - intros Hin. apply (Hdis l); [by do 2 right|done].
    - by eapply footprint_lt. }
  destruct (agree_unchanged h _ fs fs b Hb Hag) as [Hun Hwfb]. split_and!.
  - eapply wf_at_wf, set_cell_wf, Hwf.
  - done.
  - done.
  - done.
Qed.

Lemma set_element_keeps_others_witness :
  ∃ w', set_element 0%nat 7 7 1 demo = Ok () w'
        ∧ wf (heap w') 0%nat = true
        ∧ wf (heap w') 4%nat = true
        ∧ unchanged demo w' 4%nat
        ∧ files w' = files demo.
Proof.
  apply (set_element_keeps_others demo 0%nat 4%nat 7 7 1); [reflexivity..|].
  intros l Hl Hb. vm_compute in Hl, Hb.
  repeat (apply elem_of_cons in Hl as [->|Hl]);
    repeat (apply elem_of_cons in Hb as [Hb|Hb]); try discriminate;
    by apply elem_of_nil in Hb || by apply elem_of_nil in Hl.
Defined.

(** ** Addition and subtraction, beyond the grid and composed *)

(** X4: the result of [add] and of [subtract] has no entry outside the
    rows [0 .. numRows-1] and columns [0 .. numCols-1] of [self]: whatever
    the operands hold there (entries set beyond the declared dimensions, or
    a larger second operand) is dropped, and the result reads 0 there. *)
Theorem add_subtract_nothing_outside w a b nr nc :
  wf (heap w) a = true → wf (heap w) b = true →
  dims (heap w) a = Some (nr, nc) →
  (∃ res w', add a b w = Ok res w'
     ∧ ∀ i j, ¬ (0 ≤ i < nr ∧ 0 ≤ j < nc) →
         cell (heap w') res i j = None ∧ get_element res i j w' = Ok 0 w')
  ∧ (∃ res w', subtract a b w = Ok res w'
     ∧ ∀ i j, ¬ (0 ≤ i < nr ∧ 0 ≤ j < nc) →
         cell (heap w') res i j = None ∧ get_element res i j w' = Ok 0 w').
Proof.
  intros Ha Hb Hd. destruct w as [h fs]. simpl in *.
  destruct (wf_dims _ _ _ _ Ha Hd) as (ma & da & Hwa).
  pose proof Hb as (br & bc & mb & db & Hwb)%wf_spec.
  destruct (combine_run Z.add fs Hwa Hwb) as (h1 & m1 & d1 & Hadd & Ho1 & Hf1).
  destruct (combine_run Z.sub fs Hwa Hwb) as (h2 & m2 & d2 & Hsub & Ho2 & Hf2).
  rewrite add_grid, subtract_grid, Hadd, Hsub. split.
  - eexists _, _. split; [done|]. simpl. intros i j Hout.
    destruct (Hf1 i j) as [_ Hnone]. specialize (Hnone Hout).
    split; [done|]. rewrite (get_element_run (own_wf Ho1)).
    unfold value_at. by rewrite Hnone.
  - eexists _, _. split; [done|]. simpl. intros i j Hout.
    destruct (Hf2 i j) as [_ Hnone]. specialize (Hnone Hout).
    split; [done|]. rewrite (get_element_run (own_wf Ho2)).
    unfold value_at. by rewrite Hnone.
Qed.

Lemma add_subtract_nothing_outside_witness :
  (∃ res w', add 8%nat 0%nat demo = Ok res w'
     ∧ ∀ i j, ¬ (0 ≤ i < 3 ∧ 0 ≤ j < 2) →
         cell (heap w') res i j = None ∧ get_element res i j w' = Ok 0 w')
  ∧ (∃ res w', subtract 8%nat 0%nat demo = Ok res w'
     ∧ ∀ i j, ¬ (0 ≤ i < 3 ∧ 0 ≤ j < 2) →
         cell (heap w') res i j = None ∧ get_element res i j w' = Ok 0 w').
Proof.
  apply (add_subtract_nothing_outside demo 8%nat 0%nat 3 2); reflexivity.
Defined.

(** X5: [subtract] undoes [add] on the grid of [self]: for well-formed
    [a] and [b] of any dimensions, [a.add(b).subtract(b)] and
    [a.subtract(b).add(b)] return, have the dimensions of [a], and hold at
    every position of the grid of [a] the value [a] reads there. *)
Theorem subtract_undoes_add w a b nr nc :
  wf (heap w) a = true → wf (heap w) b = true →
  dims (heap w) a = Some (nr, nc) →
  (∃ s w1 t w2, add a b w = Ok s w1 ∧ subtract s b w1 = Ok t w2
     ∧ dims (heap w2) t = Some (nr, nc)
     ∧ ∀ i j, 0 ≤ i < nr → 0 ≤ j < nc →
         cell (heap w2) t i j = Some (value_at (heap w) a i j)
         ∧ get_element t i j w2 = Ok (value_at (heap w) a i j) w2)
  ∧ (∃ s w1 t w2, subtract a b w = Ok s w1 ∧ add s b w1 = Ok t w2
     ∧ dims (heap w2) t = Some (nr, nc)
     ∧ ∀ i j, 0 ≤ i < nr → 0 ≤ j < nc →
         cell (heap w2) t i j = Some (value_at (heap w) a i j)
         ∧ get_element t i j w2 = Ok (value_at (heap w) a i j) w2).
Proof.
  intros Ha Hb Hd. destruct w as [h fs]. simpl in *.
  destruct (wf_dims _ _ _ _ Ha Hd) as (ma & da & Hwa).
  pose proof Hb as (br & bc & mb & db & Hwb)%wf_spec.
  assert (∀ op1 op2 : Z → Z → Z, (∀ x y, op2 (op1 x y) y = x) →
    ∃ h1 h2 m2 d2,
      (nr ← attr numRows a; nc ← attr numCols a;
       result ← SparseMatrix None nr nc;
       grid op1 a b result;; mret result) (World h fs)
      = Ok (length h) (World h1 fs)
      ∧ (nr ← attr numRows (length h); nc ← attr numCols (length h);
         result ← SparseMatrix None nr nc;
         grid op2 (length h) b result;; mret result) (World h1 fs)
        = Ok (length h1) (World h2 fs)
      ∧ owned h1 h2 (length h1) nr nc m2 d2
      ∧ ∀ i j, 0 ≤ i < nr → 0 ≤ j < nc →
          cell h2 (length h1) i j = Some (value_at h a i j)) as Hgen.
  { intros op1 op2 Hinv.
    destruct (combine_run op1 fs Hwa Hwb) as (h1 & m1 & d1 & Hr1 & Ho1 & Hf1).
    pose proof (keeps_wf_at _ _ _ _ _ _ _ (own_keeps Ho1) Hwb) as Hwb1.
    destruct (combine_run op2 fs (own_wf Ho1) Hwb1)
      as (h2 & m2 & d2 & Hr2 & Ho2 & Hf2).
    exists h1, h2, m2, d2. split_and!; [done..|].
    intros i j Hi Hj. destruct (Hf2 i j) as [Hc2 _]. rewrite Hc2 by done.
    destruct (Hf1 i j) as [Hc _]. unfold value_at at 1. rewrite Hc by done.
    simpl. rewrite (keeps_value_at _ _ _ _ _ _ _ i j (own_keeps Ho1) Hwb).
    by rewrite Hinv. }
  split.
  - destruct (Hgen Z.add Z.sub) as (h1 & h2 & m2 & d2 & Hr1 & Hr2 & Ho2 & Hc).
    { intros x y. lia. }
    exists (length h), (World h1 fs), (length h1), (World h2 fs).
    rewrite add_grid, subtract_grid. split_and!; [done..| |].
    + apply (dims_wf (own_wf Ho2)).
    + intros i j Hi Hj. simpl. rewrite (get_element_run (own_wf Ho2)).
      unfold value_at at 2. by rewrite (Hc i j Hi Hj).
  - destruct (Hgen Z.sub Z.add) as (h1 & h2 & m2 & d2 & Hr1 & Hr2 & Ho2 & Hc).
    { intros x y. lia. }
    exists (length h), (World h1 fs), (length h1), (World h2 fs).
    rewrite add_grid, subtract_grid. split_and!; [done..| |].
    + apply (dims_wf (own_wf Ho2)).
    + intros i j Hi Hj. simpl. rewrite (get_element_run (own_wf Ho2)).
      unfold value_at at 2. by rewrite (Hc i j Hi Hj).
Qed.

Lemma subtract_undoes_add_witness :
  (∃ s w1 t w2, add 0%nat 4%nat demo = Ok s w1 ∧ subtract s 4%nat w1 = Ok t w2
     ∧ dims (heap w2) t = Some (2, 2)
     ∧ ∀ i j, 0 ≤ i < 2 → 0 ≤ j < 2 →
         cell (heap w2) t i j = Some (value_at (heap demo) 0%nat i j)
         ∧ get_element t i j w2 = Ok (value_at (heap demo) 0%nat i j) w2)
  ∧ (∃ s w1 t w2, subtract 0%nat 4%nat demo = Ok s w1 ∧ add s 4%nat w1 = Ok t w2
     ∧ dims (heap w2) t = Some (2, 2)
     ∧ ∀ i j, 0 ≤ i < 2 → 0 ≤ j < 2 →
         cell (heap w2) t i j = Some (value_at (heap demo) 0%nat i j)
         ∧ get_element t i j w2 = Ok (value_at (heap demo) 0%nat i j) w2).
Proof. apply (subtract_undoes_add demo 0%nat 4%nat 2 2); reflexivity. Defined.

(** ** The entries of a product *)

(** [col in self.matrix[row]], for a row that has a dict: whether the
    position holds an entry. *)
Lemma row_has_cell h self nr nc m d fs row col :
  wf_at h self nr nc m d → row ∈ dict_keys d →
  row_has self row col (World h fs)
  = Ok (bool_decide (is_Some (cell h self row col))) (World h fs).
Proof.
  intros Hwf Hrow. unfold row_has.
  rewrite (bind_ok _ _ _ _ _ (attr_matrix_run Hwf fs)).
  rewrite (bind_ok _ _ _ _ _ (load_store_run Hwf fs)).
  rewrite (wf_at_cell _ _ _ _ _ _ row col Hwf). unfold store_cell.
  destruct (dict_get row d) as [r|] eqn:Hget.
  - destruct (row_lookup Hwf _ _ Hget) as (rd & Hrd & _).
    unfold load_row, load_obj, mbind, M_bind, row_of. simpl. rewrite Hrd. simpl.
    unfold mret, M_ret. f_equal. unfold dict_mem.
    destruct (dict_get col rd) as [x|].
    + by rewrite bool_decide_eq_true_2.
    + rewrite bool_decide_eq_false_2; [done|]. by intros [? ?].
  - by apply dict_get_None in Hget.
Qed.

(** One assignment to a result under construction. *)
Lemma owned_fill h0 h result rr rc m d fs (P : Z → Z → Prop)
    (F : Z → Z → Z) row col :
  owned h0 h result rr rc m d → filled h result P F →
  ∃ h' d',
    set_element result row col (F row col) (World h fs) = Ok () (World h' fs)
    ∧ owned h0 h' result rr rc m d'
    ∧ filled h' result (λ i j, P i j ∨ (i = row ∧ j = col)) F.
Proof.
  intros Ho Hf.
  exists (set_cell_heap h m d row col (F row col)), (set_cell_store h d row).
  split_and!.
  - by rewrite (set_element_run (own_wf Ho)).
  - by apply owned_set_cell.
  - intros i j. destruct (decide ((i, j) = (row, col))) as [[= -> ->]|Hne].
    + rewrite (set_cell_same (own_wf Ho)). split; [done|]. intros []. by right.
    + rewrite (set_cell_other (own_wf Ho)) by done.
      destruct (Hf i j) as [H1 H2]. split.
      * intros [HP|[-> ->]]; [by apply H1 | done].
      * intros HnP. apply H2. intros HP. apply HnP. by left.
Qed.

Section multiply_entries.
Context (fs : fsys).
Context {h : list obj} {self other_matrix : loc}.
Context {nr nc onr onc : Z} {ms mo : loc} {ds do : dict loc}.
Context (Hself : wf_at h self nr nc ms ds).
Context (Hother : wf_at h other_matrix onr onc mo do).

(** [multiply] on compatible operands: which cells the two loops fill, and
    with what. *)
Lemma multiply_filled :
  nc = onr →
  ∃ h' m d,
    multiply self other_matrix (World h fs) = Ok (length h) (World h' fs)
    ∧ owned h h' (length h) nr onc m d
    ∧ filled h' (length h)
        (λ i j, is_Some (cell h self i j) ∧ j ∈ row_keys h other_matrix)
        (λ i j, dot h self other_matrix i j nc).
Proof.
  intros Heq. unfold multiply.
  rewrite (bind_ok _ _ _ _ _ (attr_numCols_run Hself fs)).
  rewrite (bind_ok _ _ _ _ _ (attr_numRows_run Hother fs)).
  rewrite bool_decide_eq_false_2 by (by intros ?).
  rewrite (bind_ok _ _ _ _ _ (attr_numRows_run Hself fs)).
  rewrite (bind_ok _ _ _ _ _ (attr_numCols_run Hother fs)).
  rewrite (bind_ok _ _ _ _ _ (SparseMatrix_dims_run h fs nr onc)).
  pose proof (fresh_matrix_owned h nr onc) as Ho0.
  pose proof (keeps_wf_at _ _ _ _ _ _ _ (own_keeps Ho0) Hself) as Hs0.
  rewrite (bind_ok _ _ _ _ _ (matrix_keys_run Hs0 fs)).
  set (F := λ i j, dot h self other_matrix i j nc).
  set (I := λ (rows : list Z) (w : world), ∃ h1 d1,
         w = World h1 fs ∧ owned h h1 (length h) nr onc (S (length h)) d1
         ∧ filled h1 (length h)
             (λ i j, i ∈ rows ∧ j ∈ dict_keys do ∧ is_Some (cell h self i j)) F).
  match goal with |- context [for_ ?l ?body] =>
    destruct (for_inv I l body (World (h ++ fresh_matrix h nr onc) fs))
      as (w' & Hrun & (h' & d' & -> & Ho' & Hf')) end.
  - exists (h ++ fresh_matrix h nr onc), []. split_and!; [done..|].
    intros i j. split; [by intros [?%elem_of_nil _]|].
    intros _. apply fresh_matrix_cell.
  - intros pre row w Hrow (h1 & d1 & -> & Ho1 & Hf1).
    pose proof (keeps_wf_at _ _ _ _ _ _ _ (own_keeps Ho1) Hself) as Hs1.
    pose proof (keeps_wf_at _ _ _ _ _ _ _ (own_keeps Ho1) Hother) as Hot1.
    rewrite (bind_ok _ _ _ _ _ (matrix_keys_run Hot1 fs)).
    set (Icol := λ (cols : list Z) (w : world), ∃ h2 d2,
           w = World h2 fs ∧ owned h h2 (length h) nr onc (S (length h)) d2
           ∧ filled h2 (length h)
               (λ i j, (i ∈ pre ∧ j ∈ dict_keys do ∧ is_Some (cell h self i j))
                       ∨ (i = row ∧ j ∈ cols ∧ is_Some (cell h self i j))) F).
    match goal with |- context [for_ ?l ?body] =>
      destruct (for_inv Icol l body (World h1 fs))
        as (w2 & Hrun2 & (h2 & d2 & -> & Ho2 & Hf2)) end.
    + exists h1, d1. split_and!; [done..|].
      eapply filled_iff; [|done]. intros i j. split; [by left|].
      by intros [?|(_ & ?%elem_of_nil & _)].
    + intros pre' col w _ (h3 & d3 & -> & Ho3 & Hf3).
      pose proof (keeps_wf_at _ _ _ _ _ _ _ (own_keeps Ho3) Hself) as Hs3.
      pose proof (keeps_wf_at _ _ _ _ _ _ _ (own_keeps Ho3) Hother) as Hot3.
      rewrite (bind_ok _ _ _ _ _ (row_has_cell _ _ _ _ _ _ fs row col Hs3 Hrow)).
      rewrite (keeps_cell _ _ _ _ _ _ _ row col (own_keeps Ho3) Hself).
      destruct (decide (is_Some (cell h self row col))) as [Hin|Hout].
      * rewrite bool_decide_eq_true_2 by done.
        rewrite (bind_ok _ _ _ _ _ (attr_numCols_run Hs3 fs)).
        erewrite bind_ok; last first.
        { apply (sum_run _ _ (λ k, value_at h self row k
                                    * value_at h other_matrix k col)).
          intros k.
          rewrite (bind_ok _ _ _ _ _ (get_element_run Hs3 fs row k)).
          rewrite (bind_ok _ _ _ _ _ (get_element_run Hot3 fs k col)).
          rewrite (keeps_value_at _ _ _ _ _ _ _ row k (own_keeps Ho3) Hself).
          by rewrite (keeps_value_at _ _ _ _ _ _ _ k col (own_keeps Ho3) Hother). }
        destruct (owned_fill _ _ _ _ _ _ _ fs _ F row col Ho3 Hf3)
          as (h4 & d4 & Hr4 & Ho4 & Hf4).
        exists (World h4 fs). split; [exact Hr4|].
        exists h4, d4. split_and!; [done..|].
        eapply filled_iff; [|done]. intros i j. simpl.
        rewrite elem_of_app, list_elem_of_singleton. split.
        -- intros [[?|(-> & ? & ?)]|[-> ->]]; [by left|right..]; auto.
        -- intros [?|(-> & [?| ->] & ?)]; [left; by left|left; right|right]; auto.
      * rewrite bool_decide_eq_false_2 by done.
        exists (World h3 fs). split; [done|]. exists h3, d3.
        split_and!; [done..|].
        eapply filled_iff; [|done]. intros i j. simpl.
        rewrite elem_of_app, list_elem_of_singleton. split.
        -- intros [?|(-> & ? & ?)]; [by left|right]; auto.
        -- intros [?|(-> & [?| ->] & ?)]; [by left|right|done]; auto.
    + exists (World h2 fs). split; [done|]. exists h2, d2. split_and!; [done..|].
      eapply filled_iff; [|done]. intros i j. simpl.
      rewrite elem_of_app, list_elem_of_singleton. split.
      * intros [(? & ? & ?)|(-> & ? & ?)]; auto.
      * intros ([?| ->] & ? & ?); auto.
  - exists h', (S (length h)), d'. split_and!.
    + by rewrite (bind_ok _ _ _ _ _ Hrun).
    + done.
    + eapply filled_iff; [|done]. intros i j. simpl. unfold row_keys.
      rewrite (store_of_wf Hother). simpl. split.
      * intros (_ & ? & ?). done.
      * intros [Hc ?]. split_and!; [|done..].
        rewrite (wf_at_cell _ _ _ _ _ _ i j Hself) in Hc. unfold store_cell in Hc.
        destruct (dict_get i ds) as [r|] eqn:Hget.
        -- apply dict_get_Some_elem in Hget.
           change i with (r, i).2. unfold dict_keys.
           apply (list_elem_of_fmap_2 fst _ (i, r)), Hget.
        -- by destruct Hc.
Qed.
End multiply_entries.

(** X6: the entries of a product.  For well-formed operands with
    [a.numCols = b.numRows = n], [a.multiply(b)] returns a matrix of
    dimensions [(a.numRows, b.numCols)] that has an entry at [(i, j)] exactly
    when [a] itself has an entry at [(i, j)] and [j] is the key of a row of
    [b]; the entry is the dot product over [k] in [range(n)].  Every other
    position has no entry, whatever the mathematical product is there. *)
Theorem multiply_entries w a b ar n bc :
  wf (heap w) a = true → wf (heap w) b = true →
  dims (heap w) a = Some (ar, n) → dims (heap w) b = Some (n, bc) →
  ∃ res w', multiply a b w = Ok res w'
    ∧ dims (heap w') res = Some (ar, bc)
    ∧ ∀ i j,
        (is_Some (cell (heap w) a i j) ∧ j ∈ row_keys (heap w) b →
         cell (heap w') res i j = Some (dot (heap w) a b i j n))
        ∧ (¬ (is_Some (cell (heap w) a i j) ∧ j ∈ row_keys (heap w) b) →
           cell (heap w') res i j = None).
Proof.
  intros Ha Hb Hda Hdb. destruct w as [h fs]. simpl in *.
  destruct (wf_dims _ _ _ _ Ha Hda) as (ma & da & Hwa).
  destruct (wf_dims _ _ _ _ Hb Hdb) as (mb & db & Hwb).
  destruct (multiply_filled fs Hwa Hwb eq_refl) as (h' & m & d & Hrun & Ho & Hf).
  exists (length h), (World h' fs). split_and!; [done| |done].
  apply (dims_wf (own_wf Ho)).
Qed.

Lemma multiply_entries_witness :
  ∃ res w', multiply 0%nat 4%nat demo = Ok res w'
    ∧ dims (heap w') res = Some (2, 2)
    ∧ ∀ i j,
        (is_Some (cell (heap demo) 0%nat i j) ∧ j ∈ row_keys (heap demo) 4%nat →
         cell (heap w') res i j = Some (dot (heap demo) 0%nat 4%nat i j 2))
        ∧ (¬ (is_Some (cell (heap demo) 0%nat i j)
              ∧ j ∈ row_keys (heap demo) 4%nat) →
           cell (heap w') res i j = None).
Proof. apply (multiply_entries demo 0%nat 4%nat 2 2 2); reflexivity. Defined.

(** ** Saving *)

(** X7: what [save_to_file] writes.  On a well-formed instance and a path
    that [open] accepts for writing it returns; the file at the path then
    holds the line [rows=<numRows>], the line [cols=<numCols>] and one line
    [(row, col, value)] for every stored entry, explicit zeros included, in
    the iteration order of the dicts, whatever the file held before; the
    heap and every other file are as they were.  A file is identified with
    its path. *)
Theorem save_to_file_text w self path nr nc :
  wf (heap w) self = true → dims (heap w) self = Some (nr, nc) →
  path ≠ "" → writable (files w) path = true →
  ∃ w', save_to_file self path w = Ok () w'
    ∧ heap w' = heap w
    ∧ files w' path
      = Some (("rows=" +:+ str nr +:+ String "010" "")
              +:+ ("cols=" +:+ str nc +:+ String "010" "")
              +:+ concat_map (λ e, entry_line e.1.1 e.1.2 e.2)
                    (entries (heap w) self))
    ∧ ∀ p, p ≠ path → files w' p = files w p.
Proof.
  intros Hwf Hd Hpath Hwr. destruct w as [h fs]. simpl in *.
  destruct (wf_dims _ _ _ _ Hwf Hd) as (m & d & Hat).
  destruct (save_to_file_run Hat path fs Hpath Hwr)
    as (fs' & Hrun & Htext & Hother & _).
  exists (World h fs'). by split_and!.
Qed.

Lemma save_to_file_text_witness :
  ∃ w', save_to_file 4%nat "out.txt" demo = Ok () w'
    ∧ heap w' = heap demo
    ∧ files w' "out.txt"
      = Some (("rows=" +:+ str 2 +:+ String "010" "")
              +:+ ("cols=" +:+ str 2 +:+ String "010" "")
              +:+ concat_map (λ e, entry_line e.1.1 e.1.2 e.2)
                    (entries (heap demo) 4%nat))
    ∧ ∀ p, p ≠ "out.txt" → files w' p = files demo p.
Proof.
  apply (save_to_file_text demo 4%nat "out.txt" 2 2);
    [reflexivity | reflexivity | done | reflexivity].
Defined.



Lemma save_then_load_witness :
  ∃ w1 w2,
    save_to_file 4%nat "out.txt" demo = Ok () w1
    ∧ SparseMatrix (Some "out.txt") 0 0 w1 = Ok (length (heap demo)) w2
    ∧ wf (heap w2) (length (heap demo)) = true
    ∧ (∀ row col,
         cell (heap w2) (length (heap demo)) row col = cell (heap demo) 4%nat row col)
    ∧ dims (heap w2) (length (heap demo))
      = Some (value_at (heap demo) 4%nat 0 0, value_at (heap demo) 4%nat 0 1).
Proof.
  apply (save_then_load demo 4%nat "out.txt" 0 0); [reflexivity|done|reflexivity].
Defined.

(** ** Data lines *)

(** X9: [parse_entry] reads back every line [save_to_file] writes: the
    line [(row, col, value)] with a newline at its end gives the three
    integers, negative ones included, without touching the world. *)
Theorem parse_entry_reads_written_line row col value w :
  parse_entry (entry_line row col value) w = Ok (row, col, value) w.
Proof. by rewrite parse_entry_run, entry_value_written. Qed.

Lemma slice_strip_bracketed a b body :
  isspace a = false → isspace b = false →
  slice_1_m1 (strip (String a (body +:+ String b ""))) = body.
Proof.
  intros Ha Hb. unfold strip. cbn [lstrip_by]. rewrite Ha.
  rewrite <- append_cons, rstrip_by_keep by done.
  rewrite append_cons. cbn [slice_1_m1]. apply drop_last_app.
Qed.

(** X10: [parse_entry] never looks at the two characters it takes for the
    parentheses: a line that starts and ends with any two characters that
    are not white space is read like the line with parentheses around the
    same text. *)
Theorem parse_entry_ignores_brackets a b body w :
  isspace a = false → isspace b = false →
  parse_entry (String a (body +:+ String b "")) w
  = parse_entry (String "(" (body +:+ String ")" "")) w.
Proof.
  intros Ha Hb. unfold parse_entry.
  by rewrite !slice_strip_bracketed.
Qed.

Lemma parse_entry_ignores_brackets_witness :
  parse_entry (String "[" ("1,2,3" +:+ String "|" "")) demo
  = parse_entry (String "(" ("1,2,3" +:+ String ")" "")) demo.
Proof. apply (parse_entry_ignores_brackets "[" "|" "1,2,3" demo); reflexivity. Defined.

(** ** What a loaded file holds *)

Lemma data_entries_cons line ls :
  data_entries (line :: ls)
  = match strip line with
    | "" => []
    | _ => match entry_value line with inr t => [t] | inl _ => [] end
    end ++ data_entries ls.
Proof. done. Qed.

(** Loading data lines: every position holds what the last line for it
    says, or what it held before. *)
Lemma load_lines_cells h m d ls h' d' :
  wf_store_at h m d →
  load_lines h m d ls = (None, (h', d')) →
  wf_store_at h' m d'
  ∧ ∀ row col,
      store_cell h' d' row col
      = match last_write (data_entries ls) row col with
        | Some x => Some x
        | None => store_cell h d row col
        end.
Proof.
  revert h d. induction ls as [|line ls IH]; intros h d Hst.
  { intros [= <- <-]. done. }
  rewrite data_entries_cons. cbn [load_lines].
  destruct (strip line) as [|c0 s0].
  { intros Hrun. by apply IH. }
  destruct (entry_value line) as [e|[[r c] v]]; [done|].
  intros Hrun.
  destruct (IH _ _ (set_cell_st Hst r c v) Hrun) as (Hst' & Hcell).
  split; [done|]. intros row col. rewrite Hcell.
  change ([(r, c, v)] ++ data_entries ls) with ((r, c, v) :: data_entries ls).
  cbn [last_write]. destruct (last_write (data_entries ls) row col) as [x|]; [done|].
  destruct (Z.eqb_spec r row) as [->|Hr]; simpl.
  - destruct (Z.eqb_spec c col) as [->|Hc].
    + by apply set_cell_same_st.
    + apply set_cell_other_st; [done|congruence].
  - apply set_cell_other_st; [done|congruence].
Qed.

Lemma data_entries_written es : data_entries (entry_text <$> es) = es.
Proof.
  induction es as [|[[r c] v] es IH]; [done|].
  rewrite fmap_cons, data_entries_cons, IH.
  replace (entry_text (r, c, v)) with (entry_line r c v) by done.
  pose proof (strip_entry_line_nonempty r c v) as Hne.
  destruct (strip (entry_line r c v)) as [|c0 s0]; [done|].
  by rewrite entry_value_written.
Qed.

(** The construction from a readable file, with what the instance holds. *)
Lemma file_load_content h (fs : fsys) path a b text :
  path ≠ "" → fs path = Some text → readable text →
  ∃ h' nr nc m d,
    SparseMatrix (Some path) a b (World h fs) = Ok (length h) (World h' fs)
    ∧ owned h h' (length h) nr nc m d
    ∧ (∀ row col,
         cell h' (length h) row col
         = last_write (data_entries (drop 2 (readlines text))) row col)
    ∧ nr = default 0 (last_write (data_entries (drop 2 (readlines text))) 0 0)
    ∧ nc = default 0 (last_write (data_entries (drop 2 (readlines text))) 0 1).
Proof.
  intros Hp Htext Hread.
  pose proof (SparseMatrix_file_outcome h fs path a b Hp) as Hout.
  destruct (SparseMatrix (Some path) a b (World h fs)) as [self w'|e w'].
  - destruct Hout as (h' & nr & nc & m & d & text' & -> & -> & Ho & Ht & _
                      & h2 & h1 & Hst & Hlines & Hcell & -> & ->).
    rewrite Htext in Ht. injection Ht as <-.
    destruct (load_lines_cells _ _ _ _ _ _ Hst Hlines) as (_ & Hload).
    assert (∀ row col, store_cell h1 d row col
              = last_write (data_entries (drop 2 (readlines text))) row col)
      as Hsame.
    { intros row col. rewrite Hload.
      by destruct (last_write _ row col). }
    exists h', (default 0 (store_cell h1 d 0 0)),
      (default 0 (store_cell h1 d 0 1)), m, d. split_and!; [done|done| | |].
    + intros row col. by rewrite Hcell.
    + by rewrite Hsame.
    + by rewrite Hsame.
  - destruct Hout as (h' & cause & _ & _ & _ & [Hnone|(text' & Ht & Hbad)]).
    + congruence.
    + rewrite Htext in Ht. injection Ht as <-. by apply readable_not_bad in Hbad.
Qed.

(** X11: what a matrix constructed from a file holds.  For a readable file
    the construction returns, and every position holds the value of the
    last data line that names it (a later line replaces an earlier one,
    values are not added up); blank lines count for nothing, and positions
    named by no line have no entry.  The header values do not reach the
    result: the dimensions are the values the data lines give to (0, 0) and
    (0, 1), and 0 where they give none. *)
Theorem file_load_last_write w path text a b :
  path ≠ "" → files w path = Some text → readable text →
  ∃ self w', SparseMatrix (Some path) a b w = Ok self w'
    ∧ (∀ row col,
         cell (heap w') self row col
         = last_write (data_entries (drop 2 (readlines text))) row col)
    ∧ dims (heap w') self
      = Some (default 0 (last_write (data_entries (drop 2 (readlines text))) 0 0),
              default 0 (last_write (data_entries (drop 2 (readlines text))) 0 1)).
Proof.
  intros Hp Htext Hread. destruct w as [h fs]. simpl in *.
  destruct (file_load_content h fs path a b text Hp Htext Hread)
    as (h' & nr & nc & m & d & Hrun & Ho & Hcell & -> & ->).
  exists (length h), (World h' fs). split_and!; [done..|].
  apply (dims_wf (own_wf Ho)).
Qed.

Lemma file_twice_readable : readable file_twice.
Proof.
  unfold readable. cbv zeta. split_and!.
  - by exists 3.
  - by exists 3.
  - replace (drop 2 (readlines file_twice))
      with [entry_line 0 1 5; String "010" ""; entry_line 0 1 8] by done.
    apply Forall_cons_2; [right; by exists (0, 1, 5)|].
    apply Forall_cons_2; [by left|].
    apply Forall_cons_2; [right; by exists (0, 1, 8)|]. apply Forall_nil_2.
Qed.

Lemma readable_loads_witness :
  ∃ w', SparseMatrix (Some "twice.txt") 0 0 shelf = Ok (length (heap shelf)) w'
        ∧ wf (heap w') (length (heap shelf)) = true
        ∧ take (length (heap shelf)) (heap w') = heap shelf
        ∧ files w' = files shelf.
Proof.
  apply (readable_loads shelf "twice.txt" file_twice 0 0);
    [done | reflexivity | apply file_twice_readable].
Defined.

Lemma file_load_last_write_witness :
  ∃ self w', SparseMatrix (Some "twice.txt") 0 0 shelf = Ok self w'
    ∧ (∀ row col,
         cell (heap w') self row col
         = last_write (data_entries (drop 2 (readlines file_twice))) row col)
    ∧ dims (heap w') self
      = Some (default 0 (last_write (data_entries (drop 2 (readlines file_twice))) 0 0),
              default 0 (last_write (data_entries (drop 2 (readlines file_twice))) 0 1)).
Proof.
  apply (file_load_last_write shelf "twice.txt" file_twice 0 0);
    [done | reflexivity | apply file_twice_readable].
Defined.

(** X13: the header lines are read for an integer after the first ['='] and
    for nothing else.  A file whose two header lines have any keys without
    ['='] (the empty key included) and any integers as values loads, and
    the matrix is the same whatever these keys and values are: its entries
    are those of the data lines, its dimensions the values at (0, 0) and
    (0, 1). *)
Theorem header_not_checked w path k1 k2 nr nc es a b :
  path ≠ "" → plain_key k1 = true → plain_key k2 = true →
  files w path = Some (file_text k1 k2 nr nc es) →
  ∃ self w', SparseMatrix (Some path) a b w = Ok self w'
    ∧ (∀ row col, cell (heap w') self row col = last_write es row col)
    ∧ dims (heap w') self
      = Some (default 0 (last_write es 0 0), default 0 (last_write es 0 1)).
Proof.
  intros Hp H1 H2 Htext. destruct w as [h fs]. simpl in *.
  pose proof (written_readable k1 k2 nr nc es H1 H2) as Hw. cbv zeta in Hw.
  fold (file_text k1 k2 nr nc es) in Hw. destruct Hw as [Hread Hdata].
  destruct (file_load_content h fs path a b _ Hp Htext Hread)
    as (h' & r & c & m & d & Hrun & Ho & Hcell & Hr & Hc).
  rewrite Hdata, data_entries_written in Hr, Hc. subst r c.
  exists (length h), (World h' fs). split_and!; [done| |].
  - intros row col. simpl. by rewrite Hcell, Hdata, data_entries_written.
  - apply (dims_wf (own_wf Ho)).
Qed.

Lemma header_not_checked_witness :
  ∃ self w', SparseMatrix (Some "odd.txt") 0 0 shelf = Ok self w'
    ∧ (∀ row col, cell (heap w') self row col
                  = last_write [(0, 0, 4); (0, 1, 6); (2, 5, -3)] row col)
    ∧ dims (heap w') self
      = Some (default 0 (last_write [(0, 0, 4); (0, 1, 6); (2, 5, -3)] 0 0),
              default 0 (last_write [(0, 0, 4); (0, 1, 6); (2, 5, -3)] 0 1)).
Proof.
  apply (header_not_checked shelf "odd.txt" "height" "" 7 (-1)
           [(0, 0, 4); (0, 1, 6); (2, 5, -3)] 0 0); [done|reflexivity..].
Defined.

(** ** [load_matrix] called on an existing instance *)

(** Assigning both dimensions of a well-formed instance. *)
Lemma wf_at_set_dims h self nr nc m d nr' nc' :
  wf_at h self nr nc m d →
  wf_at (<[self := Object (Instance_ (Some nr') (Some nc') (Some m))]> h)
    self nr' nc' m d.
Proof.
  intros Hwf. split.
  - apply list_lookup_insert_eq, (wf_self_lt Hwf).
  - rewrite list_lookup_insert_ne; [apply (wf_store Hwf)|].
    apply (wf_self_ne_store Hwf).
  - intros r Hr. destruct (wf_row_ne Hwf r Hr) as [Hne _].
    rewrite list_lookup_insert_ne by done. by apply (wf_rows Hwf).
  - apply (wf_distinct Hwf).
  - apply (wf_keys Hwf).
Qed.

(** [load_matrix] on a well-formed instance and a file with two good
    header lines: the dimensions are assigned before the data lines are
    read, and stay assigned whatever the data lines are. *)
Lemma load_matrix_on h (fs : fsys) self nr nc ms ds path text rows cols :
  wf_at h self nr nc ms ds → fs path = Some text →
  header_value (default "" (readlines text !! 0%nat)) = inr rows →
  header_value (default "" (readlines text !! 1%nat)) = inr cols →
  ∃ h2 e h' d',
    wf_store_at h2 (length h) []
    ∧ load_lines h2 (length h) [] (drop 2 (readlines text)) = (e, (h', d'))
    ∧ load_matrix self path (World h fs)
      = match e with
        | None => Ok (length h) (World h' fs)
        | Some x => Raise (WrongFormat x) (World h' fs)
        end
    ∧ wf_store_at h' (length h) d'
    ∧ wf_at h' self rows cols ms ds
    ∧ ∀ row col, cell h' self row col = cell h self row col.
Proof.
  intros Hwf Htext Hrows Hcols.
  rewrite (load_matrix_run _ _ _ _ _ (wf_self Hwf)). cbv zeta. rewrite Htext.
  assert (∃ l1 l2 file, readline (readlines text) = (l1, (readline (readlines text)).2)
            ∧ readline (readline (readlines text)).2 = (l2, file)
            ∧ l1 = default "" (readlines text !! 0%nat)
            ∧ l2 = default "" (readlines text !! 1%nat)
            ∧ file = drop 2 (readlines text)) as (l1 & l2 & file2 & E1 & E2 & -> & -> & ->).
  { clear. destruct (readlines text) as [|x [|y ls]]; by eexists _, _, _. }
  rewrite E1, Hrows, E2, Hcols. simpl.
  set (i' := Instance_ (Some rows) (Some cols) (Some ms)).
  pose proof (wf_self_lt Hwf) as Hlt.
  pose proof (wf_at_set_dims _ _ _ _ _ _ rows cols Hwf) as Hwf'. fold i' in Hwf'.
  assert (<[self := Object i']> (h ++ [StoreDict []])
          = <[self := Object i']> h ++ [StoreDict []]) as Hins.
  { by rewrite insert_app_l. }
  rewrite Hins.
  assert (building (<[self := Object i']> h)
            (<[self := Object i']> h ++ [StoreDict []]) (length h) []) as Hb0.
  { split.
    - intros l Hl. by apply lookup_app_l.
    - split.
      + replace (length h) with (length (<[self := Object i']> h))
          by apply length_insert.
        apply lookup_at_length.
      + by intros r ?%elem_of_nil.
      + apply NoDup_nil_2.
      + apply NoDup_nil_2.
    - by rewrite length_insert.
    - by intros r ?%elem_of_nil. }
  pose proof (load_lines_building _ _ (drop 2 (readlines text)) _ _ Hb0) as Hb1.
  destruct (load_lines _ _ _ (drop 2 (readlines text))) as [e [h' d']] eqn:Hlines.
  simpl in Hb1.
  exists (<[self := Object i']> h ++ [StoreDict []]), e, h', d'.
  split_and!.
  - apply (bd_st Hb0).
  - done.
  - by destruct e.
  - apply (bd_st Hb1).
  - apply (keeps_wf_at _ _ _ _ _ _ _ (bd_keeps Hb1) Hwf').
  - intros row col.
    rewrite (keeps_cell _ _ _ _ _ _ _ row col (bd_keeps Hb1) Hwf').
    by apply (cell_update_attrs _ _ _ _ _ _ _ (wf_self Hwf)).
Qed.

(** X14: [load_matrix] called on an existing instance.  With a file whose
    header lines give [rows] and [cols] and whose data lines are all good,
    it returns a dict that did not exist before and holds the entries of
    the data lines; the instance has the header values as its dimensions
    afterwards and keeps its own entries: the returned dict is not
    attached to it. *)
Theorem load_matrix_on_instance w self path text rows cols :
  wf (heap w) self = true → files w path = Some text →
  header_value (default "" (readlines text !! 0%nat)) = inr rows →
  header_value (default "" (readlines text !! 1%nat)) = inr cols →
  Forall good_entry (drop 2 (readlines text)) →
  ∃ m d w', load_matrix self path w = Ok m w'
    ∧ heap w !! m = None
    ∧ heap w' !! m = Some (StoreDict d)
    ∧ (∀ row col,
         store_cell (heap w') d row col
         = last_write (data_entries (drop 2 (readlines text))) row col)
    ∧ dims (heap w') self = Some (rows, cols)
    ∧ wf (heap w') self = true
    ∧ (∀ row col, cell (heap w') self row col = cell (heap w) self row col)
    ∧ files w' = files w.
Proof.
  intros Hwf Htext Hrows Hcols Hgood. destruct w as [h fs]. simpl in *.
  apply wf_spec in Hwf as (nr & nc & ms & ds & Hat).
  destruct (load_matrix_on h fs self nr nc ms ds path text rows cols
              Hat Htext Hrows Hcols)
    as (h2 & e & h' & d' & Hst2 & Hlines & Hrun & Hst & Hat' & Hcell).
  destruct e as [e|].
  { destruct (load_lines_Some h2 (length h) [] (drop 2 (readlines text)) e)
      as (line & Hin & Hbad); [by rewrite Hlines|].
    rewrite Forall_forall in Hgood.
    by destruct (good_entry_not_bad line (Hgood line Hin)). }
  destruct (load_lines_cells _ _ _ _ _ _ Hst2 Hlines) as (_ & Hload).
  exists (length h), d', (World h' fs). simpl. split_and!; try done.
  - by apply lookup_ge_None.
  - apply (st_store Hst).
  - intros row col. rewrite Hload. by destruct (last_write _ row col).
  - apply (dims_wf Hat').
  - by eapply wf_at_wf.
Qed.

Lemma load_matrix_on_instance_witness :
  ∃ m d w', load_matrix 8%nat "twice.txt" shelf = Ok m w'
    ∧ heap shelf !! m = None
    ∧ heap w' !! m = Some (StoreDict d)
    ∧ (∀ row col,
         store_cell (heap w') d row col
         = last_write (data_entries (drop 2 (readlines file_twice))) row col)
    ∧ dims (heap w') 8%nat = Some (3, 3)
    ∧ wf (heap w') 8%nat = true
    ∧ (∀ row col, cell (heap w') 8%nat row col = cell (heap shelf) 8%nat row col)
    ∧ files w' = files shelf.
Proof.
  apply (load_matrix_on_instance shelf 8%nat "twice.txt" file_twice 3 3);
    [reflexivity..|]. apply file_twice_readable.
Defined.

(** X15: [load_matrix] is not atomic on the instance it is called on.
    When both header lines are good and a data line is bad, it raises the
    wrong-format error, and the dimensions of the instance are already
    those of the header; the entries of the instance and the files are as
    they were. *)
Theorem load_matrix_not_atomic w self path text rows cols line :
  wf (heap w) self = true → files w path = Some text →
  header_value (default "" (readlines text !! 0%nat)) = inr rows →
  header_value (default "" (readlines text !! 1%nat)) = inr cols →
  line ∈ drop 2 (readlines text) → bad_entry line →
  ∃ cause w', load_matrix self path w = Raise (WrongFormat cause) w'
    ∧ dims (heap w') self = Some (rows, cols)
    ∧ wf (heap w') self = true
    ∧ (∀ row col, cell (heap w') self row col = cell (heap w) self row col)
    ∧ files w' = files w.
Proof.
  intros Hwf Htext Hrows Hcols Hin Hbad. destruct w as [h fs]. simpl in *.
  apply wf_spec in Hwf as (nr & nc & ms & ds & Hat).
  destruct (load_matrix_on h fs self nr nc ms ds path text rows cols
              Hat Htext Hrows Hcols)
    as (h2 & e & h' & d' & Hst2 & Hlines & Hrun & Hst & Hat' & Hcell).
  destruct e as [e|].
  - exists e, (World h' fs). simpl. split_and!; try done.
    + apply (dims_wf Hat').
    + by eapply wf_at_wf.
  - pose proof (load_lines_None h2 (length h) [] (drop 2 (readlines text)))
      as Hgood.
    rewrite Hlines in Hgood. specialize (Hgood eq_refl).
    rewrite Forall_forall in Hgood.
    by destruct (good_entry_not_bad line (Hgood line Hin)).
Qed.

Lemma load_matrix_not_atomic_witness :
  ∃ cause w', load_matrix 8%nat "two.txt" shelf = Raise (WrongFormat cause) w'
    ∧ dims (heap w') 8%nat = Some (2, 2)
    ∧ wf (heap w') 8%nat = true
    ∧ (∀ row col, cell (heap w') 8%nat row col = cell (heap shelf) 8%nat row col)
    ∧ files w' = files shelf.
Proof.
  apply (load_matrix_not_atomic shelf 8%nat "two.txt" file_two 2 2 "(1,2)
"); [reflexivity..| |].
  - vm_compute. left.
  - split; [by vm_compute|]. exists 2%nat. split; [lia|].
    intros f Hf. vm_compute in Hf. discriminate Hf.
Defined.

(** ** The main block *)

(** X16: a choice other than 1, 2 and 3 makes the program fail with a
    [NameError].  When both sample files are readable and the first line
    typed is an integer that is none of 1, 2, 3, the program prints the
    menu, the message for an invalid input and still asks for the output
    path; with a path typed it then ends in the [NameError] of the unbound
    [result], and no file has changed. *)
Theorem main_invalid_choice w t1 t2 line n output_file rest :
  files w "./easy_sample_02_3.txt" = Some t1 → readable t1 →
  files w "./easy_sample_03_2.txt" = Some t2 → readable t2 →
  int line = Some n → n ≠ 1 → n ≠ 2 → n ≠ 3 →
  ∃ w', main (line :: output_file :: rest) w
        = Run (menu +:+ choice_prompt +:+ invalid_message +:+ path_prompt)
            (Some NameError) w'
        ∧ files w' = files w.
Proof.
  intros H1 R1 H2 R2 Hint N1 N2 N3. destruct w as [h fs]. simpl in *.
  destruct (file_load_content h fs "./easy_sample_02_3.txt" 0 0 t1)
    as (h1 & r1 & c1 & m1 & d1 & Hrun1 & _); [done..|].
  destruct (file_load_content h1 fs "./easy_sample_03_2.txt" 0 0 t2)
    as (h2 & r2 & c2 & m2 & d2 & Hrun2 & _); [done..|].
  exists (World h2 fs). split; [|done].
  unfold main. rewrite Hrun1, Hrun2, Hint. unfold operation.
  destruct (Z.eqb_spec n 1); [done|]. destruct (Z.eqb_spec n 2); [done|].
  destruct (Z.eqb_spec n 3); [done|]. done.
Qed.

Lemma main_invalid_choice_witness :
  ∃ w', main ["4"; "out.txt"] samples
        = Run (menu +:+ choice_prompt +:+ invalid_message +:+ path_prompt)
            (Some NameError) w'
        ∧ files w' = files samples.
Proof.
  assert (∀ text, text = file_A ∨ text = file_B → readable text) as Hread.
  { intros text Ht. unfold readable. cbv zeta. split_and!.
    - exists 2. by destruct Ht as [-> | ->].
    - exists 2. by destruct Ht as [-> | ->].
    - destruct Ht as [-> | ->].
      + replace (drop 2 (readlines file_A))
          with ["(0,0,1)
"; "(0,1,2)
"; "(1,0,3)
"; "(1,1,4)
"] by done.
        repeat (apply Forall_cons_2; [right; eexists; reflexivity|]).
        apply Forall_nil_2.
      + replace (drop 2 (readlines file_B))
          with ["(0,0,5)
"; "(1,1,6)
"] by done.
        repeat (apply Forall_cons_2; [right; eexists; reflexivity|]).
        apply Forall_nil_2. }
  apply (main_invalid_choice samples file_A file_B "4" 4 "out.txt" []);
    [reflexivity | apply Hread; by left | reflexivity | apply Hread; by right
    | reflexivity | lia..].
Defined.

(** The methods the program calls keep the files, except [save_to_file]. *)
Lemma operation_files h fs a b ar ac ma da br bc mb db choice method message :
  wf_at h a ar ac ma da → wf_at h b br bc mb db →
  operation choice a b = Some (method, message) →
  match method (World h fs) with
  | Ok result w' =>
      ∃ h' nr nc m d, w' = World h' fs ∧ wf_at h' result nr nc m d
  | Raise e w' => w' = World h fs
  end.
Proof.
  intros Ha Hb. unfold operation.
  destruct (combine_run Z.add fs Ha Hb) as (h1 & m1 & d1 & Hadd & Ho1 & _).
  destruct (combine_run Z.sub fs Ha Hb) as (h2 & m2 & d2 & Hsub & Ho2 & _).
  destruct (choice =? 1); [|destruct (choice =? 2); [|destruct (choice =? 3)]];
    intros [= <- <-].
  - rewrite add_grid, Hadd. eexists _, _, _, _, _. split; [done|apply (own_wf Ho1)].
  - rewrite subtract_grid, Hsub. eexists _, _, _, _, _. split; [done|apply (own_wf Ho2)].
  - destruct (decide (ac = br)) as [Heq|Hne].
    + destruct (multiply_run fs Ha Hb Heq) as (h3 & m3 & d3 & -> & Ho3).
      eexists _, _, _, _, _. split; [done|apply (own_wf Ho3)].
    + by rewrite (multiply_raise fs Ha Hb Hne).
Qed.

(** X17: the program writes to no file but the one the user names.  For
    every input and every world, every file other than the one at the path
    typed as second line is after the run what it was before, however the
    run ends; the two sample files are among them unless the user types
    the path of one of them.  A file is identified with its path. *)
Theorem main_writes_only_output stdin w p :
  stdin !! 1%nat ≠ Some p →
  files (final (main stdin w)) p = files w p.
Proof.
  intros Hp. destruct w as [h fs]. unfold main.
  pose proof (SparseMatrix_file_outcome h fs "./easy_sample_02_3.txt" 0 0) as O1.
  destruct (SparseMatrix (Some "./easy_sample_02_3.txt") 0 0 (World h fs))
    as [a w1|e w1].
  2:{ destruct O1 as (h1 & cause & _ & -> & _); [done|]. done. }
  destruct O1 as (h1 & ar & ac & ma & da & t1 & _ & -> & Ho1 & _); [done|].
  pose proof (SparseMatrix_file_outcome h1 fs "./easy_sample_03_2.txt" 0 0) as O2.
  destruct (SparseMatrix (Some "./easy_sample_03_2.txt") 0 0 (World h1 fs))
    as [b w2|e w2].
  2:{ destruct O2 as (h2 & cause & _ & -> & _); [done|]. done. }
  destruct O2 as (h2 & br & bc & mb & db & t2 & _ & -> & Ho2 & _); [done|].
  cbv zeta. destruct stdin as [|line stdin]; [done|].
  destruct (int line) as [choice|]; [|done].
  destruct (operation choice a b) as [[method message]|] eqn:Hop.
  2:{ by destruct stdin. }
  pose proof (keeps_wf_at _ _ _ _ _ _ _ (own_keeps Ho2) (own_wf Ho1)) as Ha.
  pose proof (operation_files h2 fs a b _ _ _ _ _ _ _ _ choice method message
                Ha (own_wf Ho2) Hop) as Hm.
  destruct (method (World h2 fs)) as [result w3|e w3].
  2:{ by subst w3. }
  destruct Hm as (h3 & nr & nc & m & d & -> & Hres).
  destruct stdin as [|output_file stdin]; [done|].
  destruct (decide (output_file = "")) as [->|Hpath]; [done|].
  destruct (writable fs output_file) eqn:Hwr.
  - destruct (save_to_file_run Hres output_file fs Hpath Hwr)
      as (fs' & -> & _ & Hother & _).
    simpl. apply Hother. intros ->. by apply Hp.
  - unfold save_to_file.
    rewrite (bind_raise (open_w output_file) _ (World h3 fs) OSError (World h3 fs));
      [done|].
    unfold open_w. destruct output_file; [done|]. simpl. by rewrite Hwr.
Qed.

Lemma main_writes_only_output_witness :
  files (final (main ["1"; "sum.txt"] samples)) "./easy_sample_02_3.txt"
  = files samples "./easy_sample_02_3.txt".
Proof.
  apply (main_writes_only_output ["1"; "sum.txt"] samples
           "./easy_sample_02_3.txt"). done.
Defined.
